(** * The publication and project tools of fmrico.github.io

    A shallow embedding of [tools/repair_publications.py],
    [tools/update_publications.py] and [tools/update_projects.py], and the
    properties of the record reconciliation engine proved over it.

    Python [str] values are sequences of Unicode code points and are modelled
    as [list N].  What the scripts take from the interpreter and from the
    outside world is made explicit:
    - [Runtime]: the tables of the interpreter that are no part of the
      repository (Unicode case mappings and digit classes, the HTML entity
      table, SHA-1);
    - [World] records, one per script: the network and the file system as the
      run finds them.

    A file is the sequence of code points it decodes to.  The scripts open
    their files in text mode: what is read has its line ends translated
    ([universal_newlines]), what is written has them replaced by the line
    separator of the platform ([text_written]) and must be encodable
    ([utf8_encodable]).  A text that was decoded from a file or from the body
    of a response holds no surrogate code point; a string of a decoded JSON
    answer can hold one. *)

From Stdlib Require Import ZArith NArith List String Ascii Bool Lia.
From Stdlib Require Import Floats.
From stdpp Require Import base tactics option list gmap sets.

Set Warnings "-inexact-float,-clear-no-such-hyp".

Local Open Scope N_scope.

(** ** Python strings *)

Module PyStr.

Abbreviation str := (list N).

(** UTF-8 decoding of a Rocq string literal, so that Python literals can be
    written as they stand in the sources. *)
Fixpoint utf8_go (bs : list N) (need : nat) (acc : N) : str :=
  match bs with
  | [] => []
  | b :: bs' =>
      match need with
      | O =>
          if b <? 128 then b :: utf8_go bs' 0 0
          else if b <? 224 then utf8_go bs' 1 (b - 192)
          else if b <? 240 then utf8_go bs' 2 (b - 224)
          else utf8_go bs' 3 (b - 240)
      | S O => (acc * 64 + (b - 128)) :: utf8_go bs' 0 0
      | S n => utf8_go bs' n (acc * 64 + (b - 128))
      end
  end.

Definition u8 (s : string) : str :=
  utf8_go (map N_of_ascii (list_ascii_of_string s)) 0 0.

(** The double quote cannot stand inside a literal here; in a literal written
    with [lit] a backquote stands for it. *)
Definition DQ : N := 34.
Definition lit (s : string) : str :=
  map (fun c => if c =? 96 then DQ else c) (u8 s).

Global Arguments u8 _ : simpl never.
Global Arguments lit _ : simpl never.

(** Truthiness of a string and of an optional string ([None] and [""] are
    both falsy). *)
Definition nonempty (s : str) : bool :=
  match s with [] => false | _ => true end.

Definition truthy (o : option str) : bool :=
  match o with Some (_ :: _) => true | _ => false end.

(** [a or b] on optional strings. *)
Definition or_else (o : option str) (d : option str) : option str :=
  if truthy o then o else d.

Definition str_eqb (a b : str) : bool := bool_decide (a = b).

Definition mem (c : N) (cs : str) : bool := existsb (N.eqb c) cs.

(** [str.isspace] of one code point; also what [\s] matches in a [str]
    pattern and what [str.strip()] removes. *)
Definition is_space (c : N) : bool :=
  ((9 <=? c) && (c <=? 13)) || ((28 <=? c) && (c <=? 32))
  || (c =? 133) || (c =? 160) || (c =? 5760)
  || ((8192 <=? c) && (c <=? 8202))
  || (c =? 8232) || (c =? 8233) || (c =? 8239) || (c =? 8287) || (c =? 12288).

Definition is_lower_az (c : N) : bool := (97 <=? c) && (c <=? 122).
Definition is_upper_AZ (c : N) : bool := (65 <=? c) && (c <=? 90).
Definition is_digit_09 (c : N) : bool := (48 <=? c) && (c <=? 57).

Fixpoint lstrip_by (p : N -> bool) (s : str) : str :=
  match s with
  | c :: s' => if p c then lstrip_by p s' else s
  | [] => []
  end.

Definition rstrip_by (p : N -> bool) (s : str) : str :=
  rev (lstrip_by p (rev s)).

Definition strip_by (p : N -> bool) (s : str) : str :=
  rstrip_by p (lstrip_by p s).

(** [s.strip()], [s.strip(chars)], [s.lstrip(chars)]. *)
Definition strip (s : str) : str := strip_by is_space s.
Definition strip_chars (cs : str) (s : str) : str := strip_by (fun c => mem c cs) s.
Definition lstrip_chars (cs : str) (s : str) : str := lstrip_by (fun c => mem c cs) s.

Fixpoint startswith (s p : str) : bool :=
  match p, s with
  | [], _ => true
  | a :: p', b :: s' => (a =? b) && startswith s' p'
  | _ :: _, [] => false
  end.

Definition endswith (s p : str) : bool := startswith (rev s) (rev p).

(** [p in s] for strings. *)
Fixpoint contains (s p : str) : bool :=
  startswith s p ||
  match s with
  | [] => false
  | _ :: s' => contains s' p
  end.

(** [s.replace(old, new)]: every non-overlapping occurrence, left to right.
    [skip] counts the characters of an occurrence still to be passed over. *)
Fixpoint replace_go (old new : str) (s : str) (skip : nat) : str :=
  match s with
  | [] => []
  | c :: s' =>
      match skip with
      | S n => replace_go old new s' n
      | O =>
          if startswith s old
          then new ++ replace_go old new s' (length old - 1)
          else c :: replace_go old new s' 0
      end
  end.

Definition replace (old new : str) (s : str) : str :=
  match old with
  | [] => new ++ flat_map (fun c => c :: new) s
  | _ => replace_go old new s 0
  end.

(** [s.split()] *)
Fixpoint split_ws_go (s : str) (cur : str) : list str :=
  match s with
  | [] => match cur with [] => [] | _ => [rev cur] end
  | c :: s' =>
      if is_space c
      then match cur with
           | [] => split_ws_go s' []
           | _ => rev cur :: split_ws_go s' []
           end
      else split_ws_go s' (c :: cur)
  end.

Definition split_ws (s : str) : list str := split_ws_go s [].

(** [s.split(sep)] for a non-empty [sep]; [maxsplit] bounds the number of
    cuts when given. *)
Fixpoint split_go (sep : str) (s : str) (skip : nat) (cuts : option nat) (cur : str)
  : list str :=
  match s with
  | [] => [rev cur]
  | c :: s' =>
      match skip with
      | S n => split_go sep s' n cuts cur
      | O =>
          if startswith s sep && negb (bool_decide (cuts = Some O))
          then rev cur :: split_go sep s' (length sep - 1) (pred <$> cuts) []
          else split_go sep s' 0 cuts (c :: cur)
      end
  end.

Definition split_on (sep : str) (s : str) : list str := split_go sep s 0 None [].
Definition split_on_max (sep : str) (n : nat) (s : str) : list str :=
  split_go sep s 0 (Some n) [].

(** [sep.join(parts)] *)
Fixpoint join (sep : str) (parts : list str) : str :=
  match parts with
  | [] => []
  | [p] => p
  | p :: ps => p ++ sep ++ join sep ps
  end.

(** [re.sub(r"[class]+", repl, s)]: every maximal run of characters of the
    class is replaced by [repl]. *)
Fixpoint sub_runs (p : N -> bool) (repl : str) (s : str) (in_run : bool) : str :=
  match s with
  | [] => []
  | c :: s' =>
      if p c
      then (if in_run then [] else repl) ++ sub_runs p repl s' true
      else c :: sub_runs p repl s' false
  end.

Definition re_sub_class_plus (p : N -> bool) (repl : str) (s : str) : str :=
  sub_runs p repl s false.

(** [set(s.split())] *)
Definition word_set (s : str) : gset str := list_to_set (split_ws s).

(** [html.escape(s, quote=...)] *)
Definition escape_cp (quote : bool) (c : N) : str :=
  if c =? 38 then u8 "&amp;"
  else if c =? 60 then u8 "&lt;"
  else if c =? 62 then u8 "&gt;"
  else if quote && (c =? 34) then u8 "&quot;"
  else if quote && (c =? 39) then u8 "&#x27;"
  else [c].

Definition html_escape (quote : bool) (s : str) : str := flat_map (escape_cp quote) s.

(** [str(n)] for an integer. *)
Fixpoint uint_digits (d : Decimal.uint) : str :=
  match d with
  | Decimal.Nil => []
  | Decimal.D0 d => 48 :: uint_digits d
  | Decimal.D1 d => 49 :: uint_digits d
  | Decimal.D2 d => 50 :: uint_digits d
  | Decimal.D3 d => 51 :: uint_digits d
  | Decimal.D4 d => 52 :: uint_digits d
  | Decimal.D5 d => 53 :: uint_digits d
  | Decimal.D6 d => 54 :: uint_digits d
  | Decimal.D7 d => 55 :: uint_digits d
  | Decimal.D8 d => 56 :: uint_digits d
  | Decimal.D9 d => 57 :: uint_digits d
  end.

Definition str_of_Z (z : Z) : str :=
  match Z.to_int z with
  | Decimal.Pos d => uint_digits d
  | Decimal.Neg d => 45 :: uint_digits d
  end.

End PyStr.
Export PyStr.

(** ** Text files *)

(** What [read()] gives of a file opened with [open(path, "r",
    encoding="utf-8")]: a carriage return with the line feed after it, and a
    carriage return alone, are read as one line feed. *)
Fixpoint universal_newlines (s : str) : str :=
  match s with
  | [] => []
  | c :: s' =>
      if c =? 13
      then 10 :: match s' with
                 | d :: s'' => if d =? 10 then universal_newlines s''
                               else universal_newlines s'
                 | [] => []
                 end
      else c :: universal_newlines s'
  end.

Definition is_surrogate (c : N) : bool := (55296 <=? c) && (c <=? 57343).

(** [s.encode("utf-8")] does not raise: [s] holds no surrogate. *)
Definition utf8_encodable (s : str) : bool := forallb (fun c => negb (is_surrogate c)) s.

(** ** What the interpreter supplies *)

(** The tables of CPython that the scripts rely on and that are no part of the
    repository.  Every definition below is parametric in them. *)
Class Runtime := {
  (** [str.casefold] of one code point (full case folding) *)
  fold_cp : N -> str;
  (** [str.lower] *)
  py_lower : str -> str;
  (** [html.unescape] *)
  unescape : str -> str;
  (** [str.isdigit] of one code point *)
  cp_isdigit : N -> bool;
  (** the value of a decimal digit (category Nd), which is what [\d] matches
      and what [int] reads *)
  cp_decimal : N -> option Z;
  (** [sys.get_int_max_str_digits()]; [0] lifts the limit *)
  int_max_str_digits : nat;
  (** [hashlib.sha1(s.encode("utf-8")).hexdigest()] *)
  sha1_hexdigest : str -> str;
  (** [os.linesep]: a line feed, or a carriage return and a line feed *)
  linesep : str;
  (** the empty string has no character to unescape or to lower *)
  unescape_nil : unescape [] = [];
  py_lower_nil : py_lower [] = [];
  linesep_cases : linesep = [10] \/ linesep = [13; 10];
}.

Section RuntimeOps.
Context {R : Runtime}.

Definition casefold (s : str) : str := flat_map fold_cp s.

Definition isdigit (s : str) : bool := nonempty s && forallb cp_isdigit s.

(** What a file opened with [open(path, "w", encoding="utf-8")] holds after
    [write(s)]: every line feed is written as the line separator. *)
Definition text_written (s : str) : str := replace [10] linesep s.

Definition is_decimal (c : N) : bool :=
  match cp_decimal c with Some _ => true | None => false end.

(** The digits of an integer literal: decimal digits, single underscores
    between them only. *)
Fixpoint digits_val (s : str) (acc : Z) (after_digit : bool) (count : nat)
  : option (Z * nat) :=
  match s with
  | [] => if after_digit then Some (acc, count) else None
  | c :: s' =>
      if c =? 95
      then (if after_digit then digits_val s' acc false count else None)
      else match cp_decimal c with
           | Some v => digits_val s' (acc * 10 + v)%Z true (S count)
           | None => None
           end
  end.

(** [int(s)]; [None] stands for [ValueError]. *)
Definition py_int (s : str) : option Z :=
  let t := strip s in
  let '(neg, body) :=
    match t with
    | 45 :: b => (true, b)
    | 43 :: b => (false, b)
    | _ => (false, t)
    end in
  match digits_val body 0%Z false 0 with
  | Some (v, n) =>
      if negb (Nat.eqb int_max_str_digits 0) && Nat.ltb int_max_str_digits n
      then None
      else Some (if neg then (- v)%Z else v)
  | None => None
  end.

End RuntimeOps.

(** The runtime restricted to ASCII text whose character references are the
    five that [html.escape] writes; it runs the model on such inputs.  The
    digest is left uncomputed: no statement depends on its value. *)
Module AsciiRuntime.

Definition fold_ascii (c : N) : str := [if is_upper_AZ c then c + 32 else c].

Fixpoint unescape_go (s : str) (skip : nat) : str :=
  match s with
  | [] => []
  | c :: s' =>
      match skip with
      | S n => unescape_go s' n
      | O =>
          if startswith s (u8 "&amp;") then 38 :: unescape_go s' 4
          else if startswith s (u8 "&lt;") then 60 :: unescape_go s' 3
          else if startswith s (u8 "&gt;") then 62 :: unescape_go s' 3
          else if startswith s (u8 "&quot;") then 34 :: unescape_go s' 5
          else if startswith s (u8 "&#x27;") then 39 :: unescape_go s' 5
          else c :: unescape_go s' 0
      end
  end.

Definition decimal_ascii (c : N) : option Z :=
  if is_digit_09 c then Some (Z.of_N (c - 48)) else None.

#[export] Instance ascii_runtime : Runtime := {|
  fold_cp := fold_ascii;
  py_lower := flat_map fold_ascii;
  unescape := fun s => unescape_go s 0;
  cp_isdigit := is_digit_09;
  cp_decimal := decimal_ascii;
  int_max_str_digits := 4300;
  sha1_hexdigest := fun _ => repeat 48 40;
  linesep := [10];
  unescape_nil := eq_refl;
  py_lower_nil := eq_refl;
  linesep_cases := or_introl eq_refl;
|}.

End AsciiRuntime.

(** ** Regular expressions

    The fragment of [re] the scripts use, with the matching order of a
    backtracking engine: alternatives left to right, greedy repetition longest
    first, lazy repetition shortest first, the leftmost match wins.  Every
    repeated expression in the scripts consumes a character. *)

Module Re.

Inductive re : Type :=
| Eps
| Chr (p : N -> bool)
| Seq (a b : re)
| Alt (a b : re)
| Star (greedy : bool) (a : re)
| Group (i : nat) (a : re)
| Bol.

(** A position in the subject, what is left of it, and the spans of the groups
    closed so far (latest first). *)
Record mstate := MState {
  m_pos : nat;
  m_rest : str;
  m_caps : list (nat * (nat * nat));
}.

Fixpoint rmatch (r : re) (st : mstate) (k : mstate -> option mstate) {struct r}
  : option mstate :=
  match r with
  | Eps => k st
  | Chr p =>
      match m_rest st with
      | c :: t => if p c then k (MState (S (m_pos st)) t (m_caps st)) else None
      | [] => None
      end
  | Seq a b => rmatch a st (fun st' => rmatch b st' k)
  | Alt a b =>
      match rmatch a st k with
      | Some x => Some x
      | None => rmatch b st k
      end
  | Star g a =>
      (fix loop (fuel : nat) (st : mstate) {struct fuel} : option mstate :=
         match fuel with
         | O => k st
         | S fuel' =>
             if g
             then match rmatch a st (fun st' =>
                          if Nat.ltb (m_pos st) (m_pos st') then loop fuel' st' else None) with
                  | Some x => Some x
                  | None => k st
                  end
             else match k st with
                  | Some x => Some x
                  | None => rmatch a st (fun st' =>
                          if Nat.ltb (m_pos st) (m_pos st') then loop fuel' st' else None)
                  end
         end) (length (m_rest st)) st
  | Group i a =>
      rmatch a st (fun st' =>
        k (MState (m_pos st') (m_rest st') ((i, (m_pos st, m_pos st')) :: m_caps st')))
  | Bol => if Nat.eqb (m_pos st) 0 then k st else None
  end.

(** A match object: the spans of its groups, group 0 being the whole match. *)
Definition rmatch_obj := list (nat * (nat * nat)).

Fixpoint span (m : rmatch_obj) (i : nat) : option (nat * nat) :=
  match m with
  | [] => None
  | (j, se) :: m' => if Nat.eqb i j then Some se else span m' i
  end.

Definition substr (s : str) (se : nat * nat) : str :=
  take (snd se - fst se) (drop (fst se) s).

(** [m.group(i)] on the subject [s] *)
Definition group (s : str) (m : rmatch_obj) (i : nat) : option str :=
  substr s <$> span m i.

Definition m_start (m : rmatch_obj) (i : nat) : nat :=
  match span m i with Some se => fst se | None => 0 end.
Definition m_end (m : rmatch_obj) (i : nat) : nat :=
  match span m i with Some se => snd se | None => 0 end.

(** The leftmost match at or after position [pos], [s] being the subject from
    there on. *)
Fixpoint search_from (r : re) (pos : nat) (s : str) : option rmatch_obj :=
  match rmatch (Group 0 r) (MState pos s []) Some with
  | Some st => Some (m_caps st)
  | None =>
      match s with
      | [] => None
      | _ :: s' => search_from r (S pos) s'
      end
  end.

(** [re.search(r, s)] *)
Definition search (r : re) (s : str) : option rmatch_obj := search_from r 0 s.

(** [re.finditer(r, s)], for an [r] that matches no empty string *)
Fixpoint finditer_go (fuel : nat) (r : re) (pos : nat) (s : str) : list rmatch_obj :=
  match fuel with
  | O => []
  | S fuel' =>
      match search_from r pos s with
      | None => []
      | Some m =>
          let e := Nat.max (m_end m 0) (S pos) in
          m :: finditer_go fuel' r e (drop (e - pos) s)
      end
  end.

Definition finditer (r : re) (s : str) : list rmatch_obj :=
  finditer_go (S (length s)) r 0 s.

(** Pattern syntax *)
Definition chr (c : N) : re := Chr (N.eqb c).
Definition text (s : str) : re := foldr (fun c r => Seq (chr c) r) Eps s.
Definition any : re := Chr (fun _ => true).          (* [.] under [re.S] *)
Definition not_nl : re := Chr (fun c => negb (c =? 10)). (* [.] without it *)
Definition one_of (cs : str) : re := Chr (fun c => mem c cs).
Definition none_of (cs : str) : re := Chr (fun c => negb (mem c cs)).
Definition ws : re := Chr is_space.
Definition star (a : re) : re := Star true a.
Definition lazy_star (a : re) : re := Star false a.
Definition plus (a : re) : re := Seq a (Star true a).
Fixpoint seqs (rs : list re) : re :=
  match rs with
  | [] => Eps
  | [r] => r
  | r :: rs' => Seq r (seqs rs')
  end.

(** [re.findall(r, s)] for an [r] whose group [i] takes part in every match
    ([i] is 0 for a pattern without groups) *)
Definition findall (r : re) (i : nat) (s : str) : list str :=
  map (fun m => default [] (group s m i)) (finditer r s).

(** [re.sub(r, repl, s)], for an [r] that matches no empty string: the text
    between the matches is kept, every match is replaced by what [repl] makes
    of it. *)
Fixpoint sub_go (s : str) (pos : nat) (ms : list rmatch_obj) (repl : rmatch_obj -> str)
  : str :=
  match ms with
  | [] => drop pos s
  | m :: ms' =>
      take (m_start m 0 - pos) (drop pos s) ++ repl m ++ sub_go s (m_end m 0) ms' repl
  end.

Definition sub (r : re) (repl : rmatch_obj -> str) (s : str) : str :=
  sub_go s 0 (finditer r s) repl.

End Re.

(** ** Floating point

    Scores are Python floats: IEEE 754 binary64, here [spec_float] with the
    operations of the Standard Library's specification of [PrimFloat]. *)

Module PyFloat.

Definition f_zero : spec_float := S754_zero false.

(** the literals [0.08] and [0.35] *)
Definition f_0_08 : spec_float := Eval vm_compute in Prim2SF 0.08%float.
Definition f_0_35 : spec_float := Eval vm_compute in Prim2SF 0.35%float.

Definition of_nat (n : nat) : spec_float :=
  binary_normalize prec emax (Z.of_nat n) 0 false.

(** [a / b] on two lengths, [b] not zero: the quotient rounded to nearest;
    a zero dividend gives [0.0]. *)
Definition truediv (a b : nat) : spec_float :=
  match a with
  | O => f_zero
  | _ => SFdiv prec emax (of_nat a) (of_nat b)
  end.

Definition add (x y : spec_float) : spec_float := SFadd prec emax x y.
Definition ltb (x y : spec_float) : bool := SFltb x y.

End PyFloat.

(** ** Containers *)

Module PyDict.

(** A dict whose iteration order matters: keys in insertion order. *)
Definition odict (A : Type) := list (str * A).

Fixpoint get {A} (d : odict A) (k : str) : option A :=
  match d with
  | [] => None
  | (k', v) :: d' => if bool_decide (k = k') then Some v else get d' k
  end.

(** [d.setdefault(k, []).append(v)] *)
Fixpoint setdefault_append {A} (k : str) (v : A) (d : odict (list A)) : odict (list A) :=
  match d with
  | [] => [(k, [v])]
  | (k', vs) :: d' =>
      if bool_decide (k = k') then (k', vs ++ [v]) :: d'
      else (k', vs) :: setdefault_append k v d'
  end.

Definition keys {A} (d : odict A) : list str := d.*1.

(** [sorted(l, key=key, reverse=True)]: descending, and stable (elements
    with equal keys keep their order). *)
Fixpoint insert_desc {A} (key : A -> Z) (x : A) (l : list A) : list A :=
  match l with
  | [] => [x]
  | y :: l' =>
      if (key y <=? key x)%Z then x :: y :: l'
      else y :: insert_desc key x l'
  end.

Definition sorted_desc {A} (key : A -> Z) (l : list A) : list A :=
  foldr (insert_desc key) [] l.

(** [sorted(ys, key=key, reverse=True)] for a key that may raise: every key
    is computed first; [None] when one of them raises. *)
Definition sorted_keys (key : str -> option Z) (ys : list str) : option (list str) :=
  keyed ← mapM (fun y => (fun n => (n, y)) <$> key y) ys;
  Some (sorted_desc fst keyed).*2.

(** The dict that [d.setdefault(k, []).append(v)] builds from the pairs
    [(k, v)] in turn. *)
Definition group_pairs {A} (d : odict (list A)) (pairs : list (str * A)) : odict (list A) :=
  foldl (fun d kv => setdefault_append kv.1 kv.2 d) d pairs.

(** [max(items, key=key)] over floats, [best] being the first item: a later
    item replaces the best one only when its key is strictly greater. *)
Fixpoint max_by {A} (key : A -> spec_float) (best : A) (l : list A) : A :=
  match l with
  | [] => best
  | x :: l' => max_by key (if PyFloat.ltb (key best) (key x) then x else best) l'
  end.

End PyDict.

(** ** Registry metadata

    One candidate record of the registry's answer (a decoded JSON object),
    with the fields the scripts read. *)

Record Author := {
  au_given : option str;
  au_family : option str;
}.

Record Item := {
  (** ["title"]: a list of strings *)
  it_title : list str;
  (** ["issued"]["date-parts"]: a list of lists of integers *)
  it_date_parts : list (list Z);
  (** ["author"]: [None] when it is no list; an entry is [None] when it is no
      object *)
  it_author : option (list (option Author));
  (** ["DOI"] *)
  it_DOI : option str;
  (** ["link"]: [None] when it is no list; of each entry its ["URL"] *)
  it_link : option (list (option str));
}.

(** [(it.get("title") or [""])[0]] *)
Definition item_title (it : Item) : str := hd [] (it_title it).

(** The year of issue as the scoring functions read it: [str(issued[0][0])]
    when that is there and not zero, [""] otherwise. *)
Definition item_year (it : Item) : str :=
  match it_date_parts it with
  | (y :: _) :: _ => if (y =? 0)%Z then [] else str_of_Z y
  | _ => []
  end.

(** ** tools/repair_publications.py *)

Module Repair.

(** Keyed by normalized title. *)
Definition MANUAL_RANKS : gmap str str := list_to_map [
  (u8 "dynamic delegation of behavior trees to enhance cooperation in robot teams", u8 "Q2");
  (u8 "towards a robotic intrusion prevention system combining security and safety in cognitive social robots", u8 "Q1");
  (u8 "open source robot localization for nonplanar environments", u8 "Q2");
  (u8 "a visual questioning answering approach to enhance robot localization in indoor environments", u8 "Q3");
  (u8 "regulated pure pursuit for robot path tracking", u8 "Q2");
  (u8 "an autonomous ground robot to support firefighters interventions in indoor emergencies", u8 "Q2")
].

Definition EXCLUDE_YEARS : list str := [[]; u8 "Unknown"; u8 "1978"; u8 "1991"].

Definition EXCLUDE_DOIS : list str := [
  u8 "10.1201/9781420031393-49";
  u8 "10.4995/thesis/10251/38902";
  u8 "10.5565/rev/tradumatica.7";
  u8 "10.1109/crv.2009.18";
  u8 "10.1109/icip.2009.5413736";
  u8 "10.1007/3-540-45603-1_54";
  u8 "10.1093/med/9780198779117.001.0001";
  u8 "10.1109/conielecomp.2011.5749380";
  u8 "10.5772/7351";
  u8 "10.2307/j.ctv2s0jcdb.240";
  u8 "10.1109/sice.2008.4655047";
  u8 "10.25100/peu.680.cap8";
  u8 "10.1201/9781003289623";
  u8 "10.5821/dissertation-2117-363911";
  u8 "10.15332/dt.inv.2020.01681";
  u8 "10.1109/case56687.2023.10260363";
  u8 "10.1109/isoirs65690.2025.11168047"
].

Definition EXCLUDE_TEXT_SNIPPETS : list str := [
  u8 "una perspectiva de la inteligencia artificial en su 50 aniversario: campus";
  u8 "robotica. unileon. es, 2007";
  u8 "constraints 2, 3, 2013";
  u8 "planning. wiki-the ai planning & pddl wiki";
  u8 "leading with depth: the impact of emotions and relationships on leadership, 2023"
].

Definition DOI_RANK_OVERRIDES : gmap str str := list_to_map [
  (u8 "10.1017/s0263574708004414", u8 "Q2")
].

(** The sentinel badge. *)
Definition UNKNOWN_BADGE : str := u8 "Q?".

(** The year up to which the rank map is applied. *)
Definition RANK_CUTOFF_YEAR : Z := 2022.

Record Card := {
  year : str;
  where_ : str;
  cite : str;
  doi : option str;
  doi_url : option str;
  scholar_url : option str;
  bibtex_url : option str;
  link_url : option str;
  paper_url : option str;
  badge : str;
}.

(** The code points of the mojibake table, in the order of the dict. *)
Definition _MOJIBAKE_REPL : list (str * str) := [
  ([195; 161], [225]);
  ([195; 169], [233]);
  ([195; 173], [237]);
  ([195; 179], [243]);
  ([195; 186], [250]);
  ([195; 177], [241]);
  ([195; 129], [193]);
  ([195; 137], [201]);
  ([195; 141], [205]);
  ([195; 147], [211]);
  ([195; 154], [218]);
  ([195; 145], [209]);
  ([226; 128; 147], [8211]);
  ([226; 128; 148], [8212]);
  ([226; 128; 156], [8220]);
  ([226; 128; 157], [8221]);
  ([226; 128; 153], [8217]);
  (u8 "Mart" ++ [195] ++ u8 "n", u8 "Mart" ++ [237] ++ u8 "n");
  (u8 "Mart" ++ [195; 173] ++ u8 "n", u8 "Mart" ++ [237] ++ u8 "n");
  (u8 "Mart" ++ [8730; 8800] ++ u8 "n", u8 "Mart" ++ [237] ++ u8 "n");
  (u8 "M" ++ [195; 186] ++ u8 "zquiz", u8 "M" ++ [250] ++ u8 "zquiz");
  (u8 "Hern" ++ [224] ++ u8 "ndez", u8 "Hern" ++ [225] ++ u8 "ndez")
].

Definition _fix_mojibake (s : str) : str :=
  foldl (fun out '(bad, good) => replace bad good out) s _MOJIBAKE_REPL.

(** The world of one run of the script: what the network and the file system
    answer.  It does not change during a run. *)
Record World := {
  (** the items of [GET api.crossref.org/works?rows=5&query.bibliographic=<title>];
      [None] when the request or its decoding raises *)
  crossref_works : str -> option (list Item);
  (** [_authors_from_bibtex_href]: the authors read from the bibliography file
      an href points to, [[]] when there is none *)
  _authors_from_bibtex_href : option str -> list str;
  (** [fetch_rank_map()]: the rank map built from the rank page; [None] when
      the request raises *)
  fetch_rank_map : option (gmap str str);
  (** whether [open("publications.html", "w")] succeeds; when it does, the
      file is empty from then on *)
  opens_for_writing : bool;
}.

Section WithRuntime.
Context {R : Runtime}.

Definition quote_chars : str := u8 "“”" ++ [DQ] ++ u8 "'".

Definition _norm (s : str) : str :=
  let s := unescape s in
  let s := casefold s in
  let s := List.filter (fun c => negb (mem c quote_chars)) s in
  let s := re_sub_class_plus (fun c => negb (is_lower_az c || is_digit_09 c)) (u8 " ") s in
  strip (re_sub_class_plus is_space (u8 " ") s).

Definition _norm_text_for_filter (s : str) : str :=
  let s := unescape s in
  let s := casefold s in
  let s := replace (u8 "–") (u8 "-")
             (replace (u8 "’") (u8 "'")
                (replace (u8 "”") [DQ] (replace (u8 "“") [DQ] s))) in
  let s := re_sub_class_plus is_space (u8 " ") s in
  strip s.

Definition _norm_doi_for_match (doi : option str) : str :=
  match doi with
  | Some (c :: d0) =>
      let d := py_lower (strip (unescape (c :: d0))) in
      let d := replace (u8 "http://doi.org/") [] (replace (u8 "https://doi.org/") [] d) in
      if startswith d (u8 "0.") then u8 "10." ++ drop 2 d else d
  | _ => []
  end.

Definition _should_exclude (card : Card) : bool :=
  if bool_decide (year card ∈ EXCLUDE_YEARS) then true
  else
    let d := _norm_doi_for_match (doi card) in
    if nonempty d && bool_decide (d ∈ EXCLUDE_DOIS) then true
    else
      let text := _norm_text_for_filter
                    (join (u8 " ") [where_ card; cite card; default [] (doi card)]) in
      existsb (fun snip => contains text snip) EXCLUDE_TEXT_SNIPPETS.

(** At most four rounds of [html.unescape], stopping at a fixed point. *)
Fixpoint unescape_rounds (n : nat) (u : str) : str :=
  match n with
  | O => u
  | S n' =>
      let new_u := unescape u in
      if str_eqb new_u u then u else unescape_rounds n' new_u
  end.

Definition _clean_url (u : option str) : option str :=
  match u with
  | Some (c :: u0) =>
      let u := strip (c :: u0) in
      let u := re_sub_class_plus is_space [] u in
      Some (unescape_rounds 4 u)
  | _ => None
  end.

(** *** Matching against the registry *)

Definition score (want : str) (year : option str) (it : Item) : spec_float :=
  let cand := _norm (item_title it) in
  if negb (nonempty cand) then PyFloat.f_zero
  else
    let want_set := word_set want in
    let cand_set := word_set cand in
    let jacc := PyFloat.truediv (size (want_set ∩ cand_set))
                                (Nat.max 1 (size (want_set ∪ cand_set))) in
    let y := item_year it in
    let year_bonus :=
      if truthy year && bool_decide (Some y = year) then PyFloat.f_0_08 else PyFloat.f_zero in
    PyFloat.add jacc year_bonus.

(** The choice among the items of an answer. *)
Definition best_match (title : str) (year : option str) (items : list Item) : option Item :=
  match items with
  | [] => None
  | it :: rest =>
      let want := _norm title in
      let best := PyDict.max_by (score want year) it rest in
      if PyFloat.ltb (score want year best) PyFloat.f_0_35 then None else Some best
  end.

Definition _crossref_best_match (W : World) (title : str) (year : option str) : option Item :=
  match crossref_works W title with
  | None => None
  | Some items => best_match title year items
  end.

Definition author_name (a : Author) : str :=
  let given := strip (default [] (or_else (au_given a) None)) in
  let family := strip (default [] (or_else (au_family a) None)) in
  strip (given ++ u8 " " ++ family).

Definition _authors_from_crossref (W : World) (title : str) (year : option str) : list str :=
  match _crossref_best_match W title year with
  | None => []
  | Some item =>
      match it_author item with
      | None => []
      | Some authors =>
          List.filter nonempty
            (omap (fun a => author_name <$> a) authors)
      end
  end.

Definition _format_author_list (names : list str) : str :=
  join (u8 ", ")
    (map (fun n => strip (re_sub_class_plus is_space (u8 " ") n))
         (List.filter (fun n => nonempty (strip n)) names)).

(** *** Reading a citation *)

(** The pattern [[“`]([^”`]+)[”`]], a backquote standing for the double quote. *)
Definition title_re : Re.re :=
  Re.seqs [Re.one_of (u8 "“" ++ [DQ]);
           Re.Group 1 (Re.plus (Re.none_of (u8 "”" ++ [DQ])));
           Re.one_of (u8 "”" ++ [DQ])].

Definition extract_title_from_cite (cite : str) : str :=
  match Re.search title_re cite with
  | Some m => strip_chars (u8 " ,.;") (strip (default [] (Re.group cite m 1)))
  | None => strip_chars (u8 " ,.;") (strip cite)
  end.

(** The pattern [^(.*?),\s*[“`]], a backquote standing for the double quote. *)
Definition authors_re : Re.re :=
  Re.seqs [Re.Bol; Re.Group 1 (Re.lazy_star Re.not_nl); Re.chr 44;
           Re.star Re.ws; Re.one_of (u8 "“" ++ [DQ])].

Definition extract_authors_from_cite (cite : str) : str :=
  match Re.search authors_re cite with
  | Some m => strip (default [] (Re.group cite m 1))
  | None => []
  end.

(** *** Rebuilding one card *)

Definition fix_card (card : Card) : Card := {|
  year := year card;
  where_ := _fix_mojibake (where_ card);
  cite := _fix_mojibake (cite card);
  doi := if truthy (doi card) then _fix_mojibake <$> doi card else None;
  doi_url := doi_url card;
  scholar_url := scholar_url card;
  bibtex_url := bibtex_url card;
  link_url := link_url card;
  paper_url := paper_url card;
  badge := _fix_mojibake (badge card);
|}.

(** [card.year.isdigit() and int(card.year) <= 2022]; [None] when [int]
    raises [ValueError]. *)
Definition rank_applies (y : str) : option bool :=
  if isdigit y
  then (fun n => bool_decide (n ≤ RANK_CUTOFF_YEAR)%Z) <$> py_int y
  else Some false.

(** The badge of a card whose text is already repaired, in the order of the
    assignments of [rebuild_card], before the sentinel is looked at. *)
Definition resolved_badge (card : Card) (rank_map : gmap str str) (applies : bool) : str :=
  let b := if nonempty (badge card) then badge card else UNKNOWN_BADGE in
  let doi_norm := _norm_doi_for_match (doi card) in
  let b := match DOI_RANK_OVERRIDES !! doi_norm with
           | Some (c :: o) => c :: o
           | _ => b
           end in
  let title_for_rank := extract_title_from_cite (cite card) in
  let b := match MANUAL_RANKS !! _norm title_for_rank with
           | Some (c :: m) => c :: m
           | _ => b
           end in
  let b := if applies
           then match rank_map !! _norm title_for_rank with
                | Some r => r
                | None => b
                end
           else b in
  b.

(** [if badge_value == "Q?": badge_value = ""] *)
Definition badge_value (card : Card) (rank_map : gmap str str) (applies : bool) : str :=
  let b := resolved_badge card rank_map applies in
  if str_eqb b UNKNOWN_BADGE then [] else b.

Definition DOI_RESOLVER : str := u8 "https://doi.org/".

Definition opt_startswith (o : option str) (p : str) : bool :=
  match o with Some s => startswith s p | None => false end.

(** The DOI target and the generic link that remain after the redundancy
    rules. *)
Definition resolve_links (card : Card) : option str * option str :=
  let link := link_url card in
  let durl := doi_url card in
  let '(durl, link) :=
    if truthy (doi card) && truthy durl && truthy link
       && negb (opt_startswith link DOI_RESOLVER)
    then (link, None) else (durl, link) in
  let link :=
    if truthy durl && truthy link
       && bool_decide (strip <$> link = strip <$> durl)
    then None else link in
  let link :=
    if truthy durl && truthy link && opt_startswith link DOI_RESOLVER
    then None else link in
  (durl, link).

(** [card.paper_url], or else
    [link_url or card.doi_url or card.scholar_url or "#"]. *)
Definition resolve_paper (card : Card) (link : option str) : str :=
  if truthy (paper_url card) then default [] (paper_url card)
  else default [] (or_else link
                     (or_else (doi_url card)
                        (or_else (scholar_url card) (Some (u8 "#"))))).

Definition resolve_cite (W : World) (card : Card) : str :=
  let title := extract_title_from_cite (cite card) in
  let authors_list := _authors_from_bibtex_href W (bibtex_url card) in
  let authors_list :=
    match authors_list with
    | [] => _authors_from_crossref W title
              (if nonempty (year card) then Some (year card) else None)
    | _ => authors_list
    end in
  let authors_list := map _fix_mojibake authors_list in
  let cite_authors :=
    match authors_list with
    | [] => extract_authors_from_cite (cite card)
    | _ => _format_author_list authors_list
    end in
  let cite_authors :=
    if nonempty cite_authors
    then strip_chars (u8 " ,") (replace (u8 "...") [] cite_authors)
    else cite_authors in
  if nonempty cite_authors && nonempty title
  then strip (cite_authors ++ u8 ", “" ++ title ++ u8 ",” " ++ where_ card ++ u8 ".")
  else cite card.

Definition esc (s : str) : str := html_escape true s.

Definition where_line (w : str) : str :=
  lit "          <div class=`pub-where`>" ++ esc w ++ u8 "</div>".
Definition year_line (y : str) : str :=
  lit "            <span class=`badge`>" ++ esc y ++ u8 "</span>".
Definition badge_line (b : str) : str :=
  lit "            <span class=`badge badge-muted`>" ++ esc b ++ u8 "</span>".
Definition cite_out_line (c : str) : str :=
  lit "        <p class=`pub-cite`>" ++ esc c ++ u8 "</p>".
Definition doi_line (url d : str) : str :=
  lit "        <p class=`pub-doi`>DOI: <a href=`" ++ esc url ++ lit "`>" ++ esc d
  ++ u8 "</a></p>".
Definition link_line (u : str) : str :=
  lit "          <a href=`" ++ esc u ++ lit "`>Link</a>".
Definition scholar_line (u : str) : str :=
  lit "          <a href=`" ++ esc u ++ lit "`>Scholar</a>".
Definition bibtex_line (u : str) : str :=
  lit "          <a href=`" ++ esc u ++ lit "` download>BibTeX</a>".
Definition no_bibtex_line : str := lit "          <a href=`#`>BibTeX</a>".
Definition paper_line (u : str) : str :=
  lit "          <a href=`" ++ esc u ++ lit "`>Paper</a>".
Definition video_line : str := lit "          <a href=`#`>Video</a>".

Definition when_truthy (o : option str) (f : str -> str) : list str :=
  match o with Some (c :: s) => [f (c :: s)] | _ => [] end.

(** The lines of a rebuilt card ([parts]), for a card whose text is already
    repaired. *)
Definition card_lines (W : World) (card : Card) (rank_map : gmap str str)
    (applies : bool) : list str :=
  let badge_value := badge_value card rank_map applies in
  let '(durl, link) := resolve_links card in
  let paper := resolve_paper card link in
  let cite_line := resolve_cite W card in
  [ lit "      <article class=`card pub-card`>";
    lit "        <div class=`pub-top`>";
    where_line (where_ card);
    lit "          <div class=`badges`>" ]
  ++ (if nonempty (year card) then [year_line (year card)] else [])
  ++ (if nonempty badge_value then [badge_line badge_value] else [])
  ++ [ u8 "          </div>";
       u8 "        </div>";
       cite_out_line cite_line ]
  ++ (if truthy (doi card) && truthy durl
      then [doi_line (default [] durl) (default [] (doi card))] else [])
  ++ [ lit "        <div class=`pub-links`>" ]
  ++ when_truthy link link_line
  ++ when_truthy (scholar_url card) scholar_line
  ++ (if truthy (bibtex_url card)
      then [bibtex_line (default [] (bibtex_url card))] else [no_bibtex_line])
  ++ [ paper_line paper;
       video_line;
       u8 "        </div>";
       u8 "      </article>" ].

Definition NL : str := [10].

(** [rebuild_card]; [None] when it raises. *)
Definition rebuild_card (W : World) (card : Card) (rank_map : gmap str str)
  : option str :=
  let card := fix_card card in
  applies ← rank_applies (year card);
  Some (join NL (card_lines W card rank_map applies)).

(** *** Reading the cards of a document *)

Definition article_re : Re.re :=
  Re.seqs [Re.text (lit "<article class=`card pub-card`>"); Re.lazy_star Re.any;
           Re.text (u8 "</article>")].
Definition where_re : Re.re :=
  Re.seqs [Re.text (lit "<div class=`pub-where`>"); Re.Group 1 (Re.lazy_star Re.any);
           Re.text (u8 "</div>")].
Definition cite_re : Re.re :=
  Re.seqs [Re.text (lit "<p class=`pub-cite`>"); Re.Group 1 (Re.lazy_star Re.any);
           Re.text (u8 "</p>")].
Definition digit : Re.re := Re.Chr is_decimal.
Definition year_re : Re.re :=
  Re.seqs [Re.text (lit "<span class=`badge`>");
           Re.Group 1 (Re.seqs [digit; digit; digit; digit]);
           Re.text (u8 "</span>")].
Definition badge_re : Re.re :=
  Re.seqs [Re.text (lit "<span class=`badge badge-muted`>");
           Re.Group 1 (Re.lazy_star Re.any); Re.text (u8 "</span>")].
(** [<p class=`pub-doi`>\s*DOI:\s*<a[^>]*href=`([^`]+)`[^>]*>(.*?)</a>] *)
Definition doi_re : Re.re :=
  Re.seqs [Re.text (lit "<p class=`pub-doi`>"); Re.star Re.ws; Re.text (u8 "DOI:");
           Re.star Re.ws; Re.text (u8 "<a"); Re.star (Re.none_of (u8 ">"));
           Re.text (lit "href=`"); Re.Group 1 (Re.plus (Re.none_of [DQ])); Re.chr DQ;
           Re.star (Re.none_of (u8 ">")); Re.chr 62;
           Re.Group 2 (Re.lazy_star Re.any); Re.text (u8 "</a>")].
(** [<a\s+href=`([^`]+)`[^>]*>([^<]+)</a>] *)
Definition link_re : Re.re :=
  Re.seqs [Re.text (u8 "<a"); Re.plus Re.ws; Re.text (lit "href=`");
           Re.Group 1 (Re.plus (Re.none_of [DQ])); Re.chr DQ;
           Re.star (Re.none_of (u8 ">")); Re.chr 62;
           Re.Group 2 (Re.plus (Re.none_of (u8 "<"))); Re.text (u8 "</a>")].

(** [m.group(i)] of an optional match. *)
Definition group_of (s : str) (m : option Re.rmatch_obj) (i : nat) : option str :=
  m ≫= fun m => Re.group s m i.

Definition parse_block (block : str) : Card :=
  let where_m := Re.search where_re block in
  let cite_m := Re.search cite_re block in
  let year_m := Re.search year_re block in
  let badge_m := Re.search badge_re block in
  let doi_m := Re.search doi_re block in
  let durl := _clean_url (group_of block doi_m 1) in
  let doi_txt := (fun d => strip (unescape d)) <$> group_of block doi_m 2 in
  let links : gmap str (option str) :=
    foldl (fun d m =>
             <[default [] (Re.group block m 2) := _clean_url (Re.group block m 1)]> d)
          ∅ (Re.finditer link_re block) in
  let links_get (label : str) : option str := default None (links !! label) in
  {| year := default [] (group_of block year_m 1);
     where_ := default [] ((fun w => strip (unescape w)) <$> group_of block where_m 1);
     cite := default []
               ((fun c => strip (unescape (re_sub_class_plus is_space (u8 " ") c)))
                  <$> group_of block cite_m 1);
     doi := doi_txt;
     doi_url := durl;
     scholar_url := _clean_url (links_get (u8 "Scholar"));
     bibtex_url := _clean_url (links_get (u8 "BibTeX"));
     link_url := _clean_url (links_get (u8 "Link"));
     paper_url := _clean_url (links_get (u8 "Paper"));
     badge := default UNKNOWN_BADGE
                ((fun b => strip (unescape b)) <$> group_of block badge_m 1);
  |}.

Definition parse_cards (doc : str) : list Card :=
  map (fun m => parse_block (default [] (Re.group doc m 0)))
      (Re.finditer article_re doc).

(** *** Rendering the list *)

Definition numeric_year (c : Card) : bool :=
  nonempty (year c) && isdigit (year c) && negb (bool_decide (year c ∈ EXCLUDE_YEARS)).

(** The loop that fills [by_year]; [None] when a card cannot be rebuilt. *)
Fixpoint fill_by_year (W : World) (rank_map : gmap str str) (kept : list Card)
    (by_year : PyDict.odict (list str)) : option (PyDict.odict (list str)) :=
  match kept with
  | [] => Some by_year
  | c :: rest =>
      if negb (numeric_year c) then fill_by_year W rank_map rest by_year
      else
        item ← rebuild_card W c rank_map;
        fill_by_year W rank_map rest (PyDict.setdefault_append (year c) item by_year)
  end.

(** [sorted(by_year.keys(), key=lambda y: int(y), reverse=True)] *)
Definition years_sorted (ys : list str) : option (list str) :=
  PyDict.sorted_keys py_int ys.

Definition year_heading (y : str) : str :=
  lit "    <h3 class=`pub-year`>" ++ esc y ++ u8 "</h3>".

Definition group_lines (y : str) (items : list str) : list str :=
  match items with
  | [] => []
  | _ => [year_heading y; lit "    <div class=`pub-list`>"; join NL items; u8 "    </div>"]
  end.

(** The year groups in the order they are written: the year and the cards
    rebuilt for it. *)
Definition render_groups (W : World) (cards : list Card) (rank_map : gmap str str)
  : option (list (str * list str)) :=
  let kept := List.filter (fun c => negb (_should_exclude c)) cards in
  by_year ← fill_by_year W rank_map kept [];
  ys ← years_sorted (PyDict.keys by_year);
  Some (map (fun y => (y, default [] (PyDict.get by_year y))) ys).

Definition _render_list (W : World) (cards : list Card) (rank_map : gmap str str)
  : option str :=
  groups ← render_groups W cards rank_map;
  Some (join NL (flat_map (fun g => group_lines (fst g) (snd g)) groups) ++ NL).

(** *** The run *)

(** The pattern of the List section, three groups in a row:
    [<section>\s*<h2>List</h2>\s*], then [.*?], then [\s*</section>]. *)
Definition list_section_re : Re.re :=
  Re.seqs [Re.Group 1 (Re.seqs [Re.text (u8 "<section>"); Re.star Re.ws;
                                Re.text (u8 "<h2>List</h2>"); Re.star Re.ws]);
           Re.Group 2 (Re.lazy_star Re.any);
           Re.Group 3 (Re.seqs [Re.star Re.ws; Re.text (u8 "</section>")])].

(** How a run ends: the exit status of the process, the content of
    [publications.html] afterwards, and what was printed. *)
Record Run := {
  exit_status : Z;
  file_after : str;
  printed : list str;
}.

(** An uncaught exception before the file is opened for writing: the file
    is as it was, the status is 1. *)
Definition aborted (file : str) : Run :=
  {| exit_status := 1; file_after := file; printed := [] |}.

(** An exception of [write]: the file was opened, which emptied it, and what
    was to be written could not be encoded. *)
Definition failed_write : Run :=
  {| exit_status := 1; file_after := []; printed := [] |}.

Definition str_of_nat (n : nat) : str := str_of_Z (Z.of_nat n).

(** The document [new_doc]: the text with the span of group 2 replaced. *)
Definition spliced (doc : str) (m : Re.rmatch_obj) (new_list : str) : str :=
  take (Re.m_start m 2) doc ++ new_list ++ drop (Re.m_end m 2) doc.

(** [main], on the content [file] of [publications.html]; [doc] is the text
    read from it.  (A file that is missing, or that is no UTF-8 text, makes
    [open] or [read] raise before anything else is done; the run is
    modelled from a file that can be read.) *)
Definition main (W : World) (file : str) : Run :=
  let doc := universal_newlines file in
  match fetch_rank_map W with
  | None => aborted file
  | Some rank_map =>
      let cards := parse_cards doc in
      match _render_list W cards rank_map with
      | None => aborted file
      | Some new_list =>
          match Re.search list_section_re doc with
          | None => aborted file
          | Some m =>
              let new_doc := spliced doc m new_list in
              let removed := length (List.filter _should_exclude cards) in
              if negb (opens_for_writing W) then aborted file
              else if negb (utf8_encodable new_doc) then failed_write
              else
                {| exit_status := 0;
                   file_after := text_written new_doc;
                   printed := [
                     u8 "Parsed " ++ str_of_nat (length cards) ++ u8 " cards";
                     u8 "Removed " ++ str_of_nat removed ++ u8 " cards (filters)";
                     u8 "Kept " ++ str_of_nat (length cards - removed) ++ u8 " cards";
                     u8 "Rank map entries: " ++ str_of_nat (size rank_map) ] |}
          end
      end
  end.

(** *** The rank page *)

(** [\[(Journal\s+Q[1-4]|Journal|Class\s+[1-3])\]], then [.*?<b>\s*], a
    quote, [\s*(.*?)\s*], a quote, [\s*</b>]; a quote is [&quot;] or the
    double quote. *)
Definition quote_re : Re.re := Re.Alt (Re.text (u8 "&quot;")) (Re.chr DQ).

Definition label_re : Re.re :=
  Re.Alt (Re.seqs [Re.text (u8 "Journal"); Re.plus Re.ws; Re.chr 81; Re.one_of (u8 "1234")])
    (Re.Alt (Re.text (u8 "Journal"))
       (Re.seqs [Re.text (u8 "Class"); Re.plus Re.ws; Re.one_of (u8 "123")])).

Definition entry_re : Re.re :=
  Re.seqs [Re.chr 91; Re.Group 1 label_re; Re.chr 93;
           Re.lazy_star Re.any; Re.text (u8 "<b>"); Re.star Re.ws;
           quote_re; Re.star Re.ws; Re.Group 2 (Re.lazy_star Re.any); Re.star Re.ws;
           quote_re; Re.star Re.ws; Re.text (u8 "</b>")].

(** [<.*?>] *)
Definition tag_re : Re.re := Re.seqs [Re.chr 60; Re.lazy_star Re.not_nl; Re.chr 62].

(** [\[(.*?)\]\([^)]*\)] *)
Definition md_link_re : Re.re :=
  Re.seqs [Re.chr 91; Re.Group 1 (Re.lazy_star Re.not_nl); Re.chr 93;
           Re.chr 40; Re.star (Re.none_of (u8 ")")); Re.chr 41].

(** The badge a label stands for. *)
Definition badge_of_label (label : str) : str :=
  if startswith label (u8 "Journal Q") then replace (u8 "Journal ") [] label
  else if startswith label (u8 "Class") then label
  else UNKNOWN_BADGE.

(** The key and the badge that one entry of the page adds to the mapping, if
    it adds one. *)
Definition rank_entry (t : str) (m : Re.rmatch_obj) : option (str * str) :=
  let label := strip (default [] (Re.group t m 1)) in
  let raw_title := strip (default [] (Re.group t m 2)) in
  let raw_title := Re.sub tag_re (fun _ => []) raw_title in
  let raw_title :=
    Re.sub md_link_re (fun m' => default [] (Re.group raw_title m' 1)) raw_title in
  let title := strip raw_title in
  let badge := badge_of_label label in
  let key := _norm title in
  if nonempty key && nonempty badge && negb (str_eqb badge UNKNOWN_BADGE)
  then Some (key, badge) else None.

(** The mapping [fetch_rank_map] builds from the text [t] of the rank page;
    a later entry of a key replaces an earlier one. *)
Definition rank_map_of_page (t : str) : gmap str str :=
  foldl (fun mapping m =>
           match rank_entry t m with
           | Some (key, badge) => <[key := badge]> mapping
           | None => mapping
           end)
        ∅ (Re.finditer entry_re t).

End WithRuntime.
End Repair.

(** ** tools/update_publications.py *)

Module Update.

Definition PAGESIZE : nat := 100.

Record Pub := {
  title : str;
  authors : str;
  venue : str;
  year : str;
  scholar_url : str;
}.

Record EnrichedPub := {
  pub : Pub;
  link_url : option str;
  doi : option str;
  doi_url : option str;
  pdf_url : option str;
  bib_filename : option str;
}.

(** What the network answers during one run. *)
Record World := {
  (** the rows [_parse_profile_rows] reads from the profile page that starts
      at [cstart]; [None] when the request raises *)
  profile_rows : nat -> option (list Pub);
  (** [fetch_scholar_external_link] of a detail page *)
  fetch_scholar_external_link : str -> option str;
  (** the items of the registry's answer to a title; [None] when the request
      or its decoding raises *)
  crossref_works : str -> option (list Item);
  (** the body of the registry's BibTeX answer for a DOI; [None] when the
      status is not 200 or the request raises *)
  crossref_bibtex_text : str -> option str;
  (** whether [BIB_DIR] can be made and the file of this name opened in it
      for writing; the file system refuses a name that is too long for it *)
  bibtex_opens : str -> bool;
  (** whether [open(OUT_HTML, "w")] succeeds *)
  page_opens : bool;
}.

Section WithRuntime.
Context {R : Runtime}.

(** *** Reading a profile page *)

Definition _abs_scholar_url (href : str) : str :=
  let href := replace (u8 "&amp;") (u8 "&") href in
  if startswith href (u8 "http") then href
  else u8 "https://scholar.google.com" ++ href.

(** [_extract_first], for a pattern with a group 1 *)
Definition _extract_first (pattern : Re.re) (text : str) : option str :=
  m ← Re.search pattern text; Re.group text m 1.

(** [<tr class=`gsc_a_tr`.*?</tr>] *)
Definition row_re : Re.re :=
  Re.seqs [Re.text (lit "<tr class=`gsc_a_tr`"); Re.lazy_star Re.any; Re.text (u8 "</tr>")].
(** [(<a[^>]*class=`gsc_a_at`[^>]*>.*?</a>)] *)
Definition a_tag_re : Re.re :=
  Re.Group 1 (Re.seqs [Re.text (u8 "<a"); Re.star (Re.none_of (u8 ">"));
                       Re.text (lit "class=`gsc_a_at`"); Re.star (Re.none_of (u8 ">"));
                       Re.chr 62; Re.lazy_star Re.any; Re.text (u8 "</a>")]).
(** [href=`([^`]+)`] *)
Definition href_re : Re.re :=
  Re.seqs [Re.text (lit "href=`"); Re.Group 1 (Re.plus (Re.none_of [DQ])); Re.chr DQ].
(** [class=`gsc_a_at`[^>]*>(.*?)</a>] *)
Definition a_text_re : Re.re :=
  Re.seqs [Re.text (lit "class=`gsc_a_at`"); Re.star (Re.none_of (u8 ">")); Re.chr 62;
           Re.Group 1 (Re.lazy_star Re.any); Re.text (u8 "</a>")].
(** [<.*?>] *)
Definition tag_re : Re.re := Re.seqs [Re.chr 60; Re.lazy_star Re.not_nl; Re.chr 62].
(** [<div class=`gs_gray`>(.*?)</div>] *)
Definition gray_re : Re.re :=
  Re.seqs [Re.text (lit "<div class=`gs_gray`>"); Re.Group 1 (Re.lazy_star Re.any);
           Re.text (u8 "</div>")].
Definition digit : Re.re := Re.Chr is_decimal.
(** [class=`gsc_a_y`[^>]*>\s*<span[^>]*>(\d{4})</span>] *)
Definition row_year_re : Re.re :=
  Re.seqs [Re.text (lit "class=`gsc_a_y`"); Re.star (Re.none_of (u8 ">")); Re.chr 62;
           Re.star Re.ws; Re.text (u8 "<span"); Re.star (Re.none_of (u8 ">")); Re.chr 62;
           Re.Group 1 (Re.seqs [digit; digit; digit; digit]); Re.text (u8 "</span>")].

(** [html.unescape(re.sub(r"<.*?>", "", s)).strip()] *)
Definition plain_text (s : str) : str :=
  strip (unescape (Re.sub tag_re (fun _ => []) s)).

(** One turn of the loop of [_parse_profile_rows]: the publication of a row,
    [None] when the row is passed over. *)
Definition parse_row (row : str) : option Pub :=
  match _extract_first a_tag_re row with
  | Some (c :: a) =>
      let a_tag := c :: a in
      match _extract_first href_re a_tag, _extract_first a_text_re a_tag with
      | Some (h :: href), Some title =>
          let grays := Re.findall gray_re 1 row in
          Some {| title := plain_text title;
                  authors := match grays with g :: _ => plain_text g | [] => [] end;
                  venue := re_sub_class_plus is_space (u8 " ")
                             match grays with _ :: g :: _ => plain_text g | _ => [] end;
                  year := default [] (or_else (_extract_first row_year_re row) None);
                  scholar_url := _abs_scholar_url (h :: href) |}
      | _, _ => None
      end
  | _ => None
  end.

Definition _parse_profile_rows (profile_html : str) : list Pub :=
  omap parse_row (Re.findall row_re 0 profile_html).

(** *** Profile fetch *)

(** The pages from [cstart] on, at most [n] of them, up to the first page
    without rows; [None] when a request raises. *)
Fixpoint fetch_pages (W : World) (n : nat) (cstart : nat) : option (list Pub) :=
  match n with
  | O => Some []
  | S n' =>
      pubs ← profile_rows W cstart;
      match pubs with
      | [] => Some []
      | _ => rest ← fetch_pages W n' (cstart + PAGESIZE)%nat; Some (pubs ++ rest)
      end
  end.

(** The key of the deduplication. *)
Definition dedup_key (p : Pub) : str * str := (casefold (title p), year p).

(** The loop over [all_pubs], [seen] being the keys met so far. *)
Fixpoint dedup_from (seen : gset (str * str)) (all_pubs : list Pub) : list Pub :=
  match all_pubs with
  | [] => []
  | p :: rest =>
      if bool_decide (dedup_key p ∈ seen) then dedup_from seen rest
      else p :: dedup_from ({[dedup_key p]} ∪ seen) rest
  end.

Definition dedup (all_pubs : list Pub) : list Pub := dedup_from ∅ all_pubs.

(** [range(0, 5000, PAGESIZE)] has fifty elements. *)
Definition fetch_scholar_publications (W : World) : option (list Pub) :=
  dedup <$> fetch_pages W 50 0.

(** *** Matching against the registry *)

Definition _norm_title (t : str) : str :=
  let t := casefold t in
  let t := re_sub_class_plus (fun c => negb (is_lower_az c || is_digit_09 c)) (u8 " ") t in
  strip (re_sub_class_plus is_space (u8 " ") t).

Definition score (want : str) (year : str) (it : Item) : spec_float :=
  let cand := _norm_title (item_title it) in
  if negb (nonempty cand) then PyFloat.f_zero
  else
    let want_set := word_set want in
    let cand_set := word_set cand in
    let jacc := PyFloat.truediv (size (want_set ∩ cand_set))
                                (Nat.max 1 (size (want_set ∪ cand_set))) in
    let y := item_year it in
    let year_bonus :=
      if nonempty year && bool_decide (y = year) then PyFloat.f_0_08 else PyFloat.f_zero in
    PyFloat.add jacc year_bonus.

Definition best_match (title : str) (year : str) (items : list Item) : option Item :=
  match items with
  | [] => None
  | it :: rest =>
      let want := _norm_title title in
      let best := PyDict.max_by (score want year) it rest in
      if PyFloat.ltb (score want year best) PyFloat.f_0_35 then None else Some best
  end.

Definition crossref_best_match (W : World) (title : str) (year : str) : option Item :=
  match crossref_works W title with
  | None => None
  | Some items => best_match title year items
  end.

(** [r.text.strip() + "\n"] of a successful answer *)
Definition crossref_bibtex (W : World) (doi : str) : option str :=
  (fun t => strip t ++ [10]) <$> crossref_bibtex_text W doi.

(** *** Bibliography file names *)

Definition filename_char (c : N) : bool :=
  is_lower_az c || is_digit_09 c || (c =? 46) || (c =? 95) || (c =? 45).

Definition _sanitize_doi (doi : str) : str :=
  let s := py_lower (strip doi) in
  let s := replace (u8 "https://doi.org/") [] s in
  let s := replace (u8 "http://doi.org/") [] s in
  let s := replace (u8 "/") (u8 "_") s in
  re_sub_class_plus (fun c => negb (filename_char c)) (u8 "_") s.

Definition _slug (s : str) : str :=
  let s := _norm_title s in
  let s := replace (u8 " ") (u8 "-") s in
  let s := strip_chars (u8 "-") (take 80 s) in
  if nonempty s then s else u8 "pub".

Definition _make_id_fallback (p : Pub) : str :=
  let base := title p ++ u8 "|" ++ year p ++ u8 "|" ++ venue p in
  let h := take 10 (sha1_hexdigest base) in
  _slug (title p) ++ u8 "-" ++ (if nonempty (year p) then year p else u8 "noyear")
  ++ u8 "-" ++ h.

(** *** Enrichment: the body of the loop of [main] *)

(** The first link that looks like a PDF, or else the first link. *)
Definition pick_pdf (links : option (list (option str))) : option str :=
  match links with
  | None => None
  | Some ls =>
      let looks_pdf (u : option str) : bool :=
        match u with
        | Some (c :: u0) =>
            endswith (py_lower (c :: u0)) (u8 ".pdf") || contains (py_lower (c :: u0)) (u8 "pdf")
        | _ => false
        end in
      match List.find looks_pdf ls with
      | Some u => u
      | None => match ls with u :: _ => u | [] => None end
      end
  end.

Definition fallback_bibtex (p : Pub) (key : str) : str :=
  u8 "@misc{" ++ key ++ u8 "," ++ [10]
  ++ u8 "  title={" ++ title p ++ u8 "}," ++ [10]
  ++ u8 "  author={" ++ authors p ++ u8 "}," ++ [10]
  ++ (if nonempty (year p) then u8 "  year={" ++ year p ++ u8 "}," ++ [10] else [])
  ++ (if nonempty (venue p) then u8 "  howpublished={" ++ venue p ++ u8 "}," ++ [10] else [])
  ++ u8 "  note={Google Scholar entry}" ++ [10]
  ++ u8 "}" ++ [10].

(** One turn of the loop: the enriched publication, and the bibliography
    file it writes (name and content). *)
Definition enrich (W : World) (p : Pub) : EnrichedPub * (str * str) :=
  let link := fetch_scholar_external_link W (scholar_url p) in
  let cr := crossref_best_match W (title p) (year p) in
  let d := match cr with
           | Some it => if truthy (it_DOI it) then it_DOI it else None
           | None => None
           end in
  let durl := (fun d => u8 "https://doi.org/" ++ d) <$> d in
  let pdf := match cr with
             | Some it => pick_pdf (it_link it)
             | None => None
             end in
  let from_doi :=
    match d with
    | Some d => (crossref_bibtex W d, Some (_sanitize_doi d ++ u8 ".bib"))
    | None => (None, None)
    end in
  let '(bib_content, bib_name) :=
    if truthy (fst from_doi)
    then (default [] (fst from_doi), default [] (snd from_doi))
    else let key := _make_id_fallback p in
         (fallback_bibtex p key, key ++ u8 ".bib") in
  ({| pub := p; link_url := link; doi := d; doi_url := durl; pdf_url := pdf;
      bib_filename := Some bib_name |},
   (bib_name, bib_content)).

(** *** Rendering *)

Definition esc (s : str) : str := html_escape true s.

(** [int(y) if y.isdigit() else -1]; [None] when [int] raises *)
Definition year_key (y : str) : option Z :=
  if isdigit y then py_int y else Some (-1)%Z.

Definition group_year (ep : EnrichedPub) : str :=
  if nonempty (year (pub ep)) then year (pub ep) else u8 "Unknown".

(** The dict [groups] *)
Definition pub_groups (pubs : list EnrichedPub) : PyDict.odict (list EnrichedPub) :=
  PyDict.group_pairs [] ((fun ep => (group_year ep, ep)) <$> pubs).

Definition badge_line : str := lit "            <span class=`badge badge-muted`>Q?</span>".

Definition card_lines (ep : EnrichedPub) : list str :=
  let p := pub ep in
  let where_ :=
    if nonempty (year p) && negb (contains (venue p) (year p))
    then (if nonempty (venue p) then venue p ++ u8 ", " ++ year p else year p)
    else venue p in
  let cite := strip (authors p ++ u8 ", “" ++ title p ++ u8 ",” " ++ venue p
                     ++ u8 ", " ++ year p ++ u8 ".") in
  let cite := re_sub_class_plus is_space (u8 " ") cite in
  let link : str :=
    default (scholar_url p) (or_else (link_url ep) (or_else (doi_url ep) None)) in
  let paper : str := default link (or_else (pdf_url ep) None) in
  [ lit "      <article class=`card pub-card`>";
    lit "        <div class=`pub-top`>";
    lit "          <div class=`pub-where`>" ++ esc where_ ++ u8 "</div>";
    lit "          <div class=`badges`>" ]
  ++ (if nonempty (year p)
      then [lit "            <span class=`badge`>" ++ esc (year p) ++ u8 "</span>"] else [])
  ++ [ badge_line;
       u8 "          </div>";
       u8 "        </div>";
       lit "        <p class=`pub-cite`>" ++ esc cite ++ u8 "</p>" ]
  ++ (if truthy (doi ep) && truthy (doi_url ep)
      then [lit "        <p class=`pub-doi`>DOI: <a href=`" ++ esc (default [] (doi_url ep))
            ++ lit "`>" ++ esc (default [] (doi ep)) ++ u8 "</a></p>"]
      else [])
  ++ [ lit "        <div class=`pub-links`>";
       lit "          <a href=`" ++ esc link ++ lit "`>Link</a>";
       lit "          <a href=`" ++ esc (scholar_url p) ++ lit "`>Scholar</a>" ]
  ++ (if truthy (bib_filename ep)
      then [lit "          <a href=`" ++ esc (u8 "bibtex/" ++ default [] (bib_filename ep))
            ++ lit "` download>BiBTeX</a>"]
      else [lit "          <a href=`#`>BibTeX</a>"])
  ++ [ lit "          <a href=`" ++ esc paper ++ lit "`>Paper</a>";
       lit "          <a href=`#`>Video</a>";
       u8 "        </div>";
       u8 "      </article>" ].

(** The year groups in the order they are written. *)
Definition html_groups (pubs : list EnrichedPub) : option (list (str * list EnrichedPub)) :=
  let groups := pub_groups pubs in
  ys ← PyDict.sorted_keys year_key (PyDict.keys groups);
  Some (map (fun y => (y, default [] (PyDict.get groups y))) ys).

Definition group_lines (g : str * list EnrichedPub) : list str :=
  [ lit "    <h3 class=`pub-year`>" ++ esc (fst g) ++ u8 "</h3>";
    lit "    <div class=`pub-list`>" ]
  ++ flat_map card_lines (snd g)
  ++ [ u8 "    </div>" ].

Definition build_publications_html (pubs : list EnrichedPub) : option str :=
  groups ← html_groups pubs;
  Some (join [10] (flat_map group_lines groups) ++ [10]).

(** *** The page and the run *)

Definition page_head : str := lit "<!DOCTYPE html>
<html lang=`en`>
<head>
  <meta charset=`utf-8` />
  <meta name=`viewport` content=`width=device-width, initial-scale=1` />
  <title>Publications – Francisco Martín Rico</title>
    <meta name=`description` content=`Publications by Francisco Martín Rico (selected papers, journals, conferences, books) with DOI and BibTeX links.` />
  <meta name=`robots` content=`index, follow` />
    <meta name=`author` content=`Francisco Martín Rico` />
    <link rel=`canonical` href=`https://fmrico.github.io/publications.html` />
    <link rel=`icon` href=`img/fmrico.png` type=`image/png` />

    <meta property=`og:site_name` content=`Francisco Martín Rico` />
    <meta property=`og:type` content=`website` />
    <meta property=`og:title` content=`Publications – Francisco Martín Rico` />
    <meta property=`og:description` content=`Publications by Francisco Martín Rico with DOI and BibTeX links.` />
    <meta property=`og:url` content=`https://fmrico.github.io/publications.html` />
    <meta property=`og:image` content=`https://fmrico.github.io/img/fmrico.png` />

    <meta name=`twitter:card` content=`summary` />
    <meta name=`twitter:title` content=`Publications – Francisco Martín Rico` />
    <meta name=`twitter:description` content=`Publications by Francisco Martín Rico with DOI and BibTeX links.` />
    <meta name=`twitter:image` content=`https://fmrico.github.io/img/fmrico.png` />
    <meta name=`twitter:site` content=`@fmrico` />

    <script type=`application/ld+json`>
    {
        `@context`: `https://schema.org`,
        `@type`: `CollectionPage`,
        `name`: `Publications – Francisco Martín Rico`,
        `url`: `https://fmrico.github.io/publications.html`,
        `about`: {
            `@type`: `Person`,
            `name`: `Francisco Martín Rico`,
            `url`: `https://fmrico.github.io/`
        }
    }
    </script>
  <link rel=`stylesheet` href=`styles.css` />
</head>
<body>

<header>
  <div class=`topbar`>
    <div class=`brand`>
      <p class=`brand-title`>Francisco Martín Rico</p>
      <p class=`brand-subtitle`>Academic homepage</p>
    </div>
    <nav class=`nav` aria-label=`Primary`>
      <a href=`index.html`>Home</a>
      <a href=`publications.html` aria-current=`page`>Publications</a>
      <a href=`projects.html`>Projects</a>
    </nav>
  </div>
</header>

<main>
  <div class=`hero`>
    <div>
      <h1>Publications</h1>
    </div>
  </div>

  <section>
    <h2>List</h2>
".

Definition page_mid : str := lit "  </section>
</main>

<footer>
  <div class=`footer-inner`>
    <p>© ".

Definition page_tail : str := lit " Francisco Martín Rico</p>
    <p class=`muted`>Static HTML + CSS (GitHub Pages).</p>
  </div>
</footer>

</body>
</html>
".

(** The document [write_publications_page] writes, [tm_year] being
    [time.gmtime().tm_year]. *)
Definition write_publications_page (tm_year : Z) (pubs_html : str) : str :=
  page_head ++ pubs_html ++ page_mid ++ str_of_Z tm_year ++ page_tail.

(** Where a run writes and when it runs: the paths [OUT_HTML] and [BIB_DIR],
    and the year of the clock. *)
Record Site := {
  OUT_HTML : str;
  BIB_DIR : str;
  tm_year : Z;
}.

(** How a run ends: the exit status, the writes to bibliography files
    (name and content, in the order of the writing; a later write to a name
    replaces the file of an earlier one), the content of the page if the run
    got as far as opening it, and what was printed. *)
Record Run := {
  exit_status : Z;
  bibtex_written : list (str * str);
  page_written : option str;
  printed : list str;
}.

Definition str_of_nat (n : nat) : str := str_of_Z (Z.of_nat n).

(** The progress lines of the loop after [k] turns of [n]: one after every
    twentieth publication. *)
Definition progress_lines (k n : nat) : list str :=
  omap (fun i => if (i mod 20 =? 0)%nat
                 then Some (u8 "Enriched " ++ str_of_nat i ++ u8 "/" ++ str_of_nat n)
                 else None)
       (seq 1 k).

(** How one turn of the loop of [main] ends: with the enriched publication
    and the file it wrote, or with an exception, which nothing catches;
    [created] is the file the turn leaves behind then. *)
Inductive turn_end : Type :=
| Turned (ep : EnrichedPub) (file : str * str)
| TurnRaised (created : option (str * str)).

(** One turn.  [urllib.parse.quote(doi)] stands before the [try] of
    [crossref_bibtex] and raises on a DOI that cannot be encoded;
    [write_bibtex_file] raises when the file cannot be opened, and when the
    content cannot be encoded, the file being empty then. *)
Definition turn (W : World) (p : Pub) : turn_end :=
  let '(ep, (name, content)) := enrich W p in
  if negb (utf8_encodable (default [] (doi ep))) then TurnRaised None
  else if negb (bibtex_opens W name) then TurnRaised None
  else if negb (utf8_encodable content) then TurnRaised (Some (name, []))
  else Turned ep (name, text_written content).

(** The loop: the publications enriched, the files written, and whether
    every turn came to its end. *)
Fixpoint turns (W : World) (pubs : list Pub)
  : list EnrichedPub * list (str * str) * bool :=
  match pubs with
  | [] => ([], [], true)
  | p :: rest =>
      match turn W p with
      | TurnRaised created => ([], option_list created, false)
      | Turned ep file =>
          let '(enriched, files, completed) := turns W rest in
          (ep :: enriched, file :: files, completed)
      end
  end.

(** [main]: an exception that [fetch_scholar_publications], a turn of the
    loop, [build_publications_html] or [write_publications_page] raises is
    not caught. *)
Definition main (W : World) (site : Site) : Run :=
  match fetch_scholar_publications W with
  | None =>
      {| exit_status := 1; bibtex_written := []; page_written := None; printed := [] |}
  | Some pubs =>
      let fetched := u8 "Fetched " ++ str_of_nat (length pubs) ++ u8 " publications from Scholar" in
      let '(enriched, files, completed) := turns W pubs in
      let progress := fetched :: progress_lines (length enriched) (length pubs) in
      let raised (page : option str) :=
        {| exit_status := 1; bibtex_written := files; page_written := page;
           printed := progress |} in
      if negb completed then raised None
      else
        match build_publications_html enriched with
        | None => raised None
        | Some pubs_html =>
            let doc := write_publications_page (tm_year site) pubs_html in
            if negb (page_opens W) then raised None
            else if negb (utf8_encodable doc) then raised (Some [])
            else
              {| exit_status := 0; bibtex_written := files;
                 page_written := Some (text_written doc);
                 printed := progress
                            ++ [ u8 "Wrote " ++ OUT_HTML site;
                                 u8 "Wrote BibTeX files in " ++ BIB_DIR site ] |}
        end
  end.

End WithRuntime.
End Update.

(** ** tools/update_projects.py *)

Module Projects.

Definition FORCE_PAST_COMPETITIVE_TITLES : list str := [
  u8 "ciberseguridad y seguridad en arquitecturas cognitivas para robots"
].

Definition EXCLUDE_COMPETITIVE_TITLES : list str := [
  u8 "grupo de investigación de alto rendimiento en robótica inteligente de la urjc";
  u8 "rld -coresense";
  u8 "rld aiplan4eu - upf4ros";
  u8 "línea de actuación nº 3. departamento. teoría de la señal y comunicaciones";
  u8 "rld -robmosys - center for advanced training on robotics and open source (act-ros)";
  u8 "rld mocap4ros2";
  u8 "robmosys-mros rld"
].

Definition OPEN_SOURCE : list (str * str) := [
  (u8 "EasyNav", u8 "https://easynavigation.github.io/");
  (u8 "NavMap", u8 "https://github.com/fmrico/NavMap");
  (u8 "PlanSys2", u8 "https://plansys2.github.io/");
  (u8 "MOCAP4ROS2", u8 "https://mocap4ros2-project.github.io/");
  (u8 "YAETS", u8 "https://github.com/fmrico/yaets");
  (u8 "cascade_lifecycle", u8 "https://github.com/fmrico/cascade_lifecycle");
  (u8 "Book ROS2", u8 "https://github.com/fmrico/book_ros2")
].

Record CompetitiveProject := {
  title : str;
  start : str;
  end_ : str;
  funder : str;
  pis : list str;
}.

(** [datetime.date] *)
Record date := Date { d_year : Z; d_month : Z; d_day : Z }.

Definition is_leap (y : Z) : bool :=
  ((y mod 4 =? 0) && negb (y mod 100 =? 0) || (y mod 400 =? 0))%Z.

Definition days_in_month (y m : Z) : Z :=
  (if m =? 2 then (if is_leap y then 29 else 28)
   else if (m =? 4) || (m =? 6) || (m =? 9) || (m =? 11) then 30
   else 31)%Z.

(** [dt.date(y, m, d)]; [None] when it raises [ValueError]. *)
Definition mk_date (y m d : Z) : option date :=
  if ((1 <=? y) && (y <=? 9999) && (1 <=? m) && (m <=? 12)
      && (1 <=? d) && (d <=? days_in_month y m))%Z
  then Some (Date y m d) else None.

(** [a < b] on dates *)
Definition date_ltb (a b : date) : bool :=
  ((d_year a <? d_year b)
   || ((d_year a =? d_year b)
       && ((d_month a <? d_month b)
           || ((d_month a =? d_month b) && (d_day a <? d_day b)))))%Z.

(** The result of a call that may raise. *)
Inductive outcome (A : Type) : Type :=
| Returned (a : A)
| Raised.
Arguments Returned {A} a.
Arguments Raised {A}.

(** What a run finds outside: the projects [fetch_competitive_projects]
    reads from the university's page ([Raised] when the request raises), the
    links [load_project_links] reads from [project_links.json] (keyed by
    normalized title; it never raises), the day of the run, and the path
    [OUT_HTML]. *)
Record World := {
  fetch_competitive_projects : outcome (list CompetitiveProject);
  load_project_links : gmap str str;
  today : date;
  OUT_HTML : str;
}.

Section WithRuntime.
Context {R : Runtime}.

Definition _norm_title (s : str) : str :=
  let s := unescape s in
  let s := py_lower (strip s) in
  let s := re_sub_class_plus is_space (u8 " ") s in
  strip_chars (u8 " .,:;" ++ [9; 10; 13]) s.

(** [_parse_date]: [int(y)] stands before the [try]; the calls inside it
    that raise make the function return [None]. *)
Definition _parse_date (s : str) : outcome (option date) :=
  let s := strip s in
  if negb (nonempty s) then Returned None
  else
    match split_on (u8 "/") s with
    | [d; m; y] =>
        match py_int y with
        | None => Raised
        | Some y_i =>
            let y_i := if (y_i <? 100)%Z then (y_i + 2000)%Z else y_i in
            match py_int m, py_int d with
            | Some m_i, Some d_i => Returned (mk_date y_i m_i d_i)
            | _, _ => Returned None
            end
        end
    | _ => Returned None
    end.

Definition forced_past (p : CompetitiveProject) : bool :=
  bool_decide (_norm_title (title p) ∈ FORCE_PAST_COMPETITIVE_TITLES).

(** [split_ongoing_past], [today] being [dt.date.today()]: the pair
    [(ongoing, past)].  The loop appends to the two lists in the order of
    [projects]; the recursion builds them from the front. *)
Fixpoint split_ongoing_past (today : date) (projects : list CompetitiveProject)
  : outcome (list CompetitiveProject * list CompetitiveProject) :=
  match projects with
  | [] => Returned ([], [])
  | p :: rest =>
      if forced_past p
      then match split_ongoing_past today rest with
           | Returned (ongoing, past) => Returned (ongoing, p :: past)
           | Raised => Raised
           end
      else
        match _parse_date (end_ p) with
        | Raised => Raised
        | Returned e =>
            match split_ongoing_past today rest with
            | Raised => Raised
            | Returned (ongoing, past) =>
                match e with
                | Some e' => if date_ltb e' today
                             then Returned (ongoing, p :: past)
                             else Returned (p :: ongoing, past)
                | None => Returned (p :: ongoing, past)
                end
            end
        end
  end.

(** *** Rendering *)

(** [_year_interval]: the two dates are parsed first, the start before the
    end. *)
Definition _year_interval (start end_ : str) : outcome str :=
  match _parse_date start with
  | Raised => Raised
  | Returned s =>
      match _parse_date end_ with
      | Raised => Raised
      | Returned e =>
          Returned
            match s, e with
            | Some s, Some e => str_of_Z (d_year s) ++ u8 "–" ++ str_of_Z (d_year e)
            | Some s, None => str_of_Z (d_year s) ++ u8 "–"
            | None, Some e => u8 "–" ++ str_of_Z (d_year e)
            | None, None => []
            end
      end
  end.

Definition _esc (s : str) : str := html_escape true s.

Definition excluded (p : CompetitiveProject) : bool :=
  bool_decide (_norm_title (title p) ∈ EXCLUDE_COMPETITIVE_TITLES).

Definition title_line (t : str) : str :=
  lit "      <div class=`proj-title`>" ++ _esc t ++ u8 "</div>".

(** The lines of the card of one project that is not excluded. *)
Definition project_card (p : CompetitiveProject) (project_links : gmap str str)
  : outcome (list str) :=
  match _year_interval (start p) (end_ p) with
  | Raised => Raised
  | Returned interval =>
      Returned
        ([ lit "  <article class=`card proj-card`>";
           lit "    <div class=`proj-top`>";
           title_line (title p);
           lit "      <div class=`badges`>" ]
         ++ (if nonempty interval
             then [lit "        <span class=`badge`>" ++ _esc interval ++ u8 "</span>"]
             else [])
         ++ [ u8 "      </div>";
              u8 "    </div>" ]
         ++ (match pis p with
             | [] => []
             | _ => [lit "    <p class=`proj-meta`><strong>Principal Investigators:</strong> "
                     ++ _esc (join (u8 ", ") (pis p)) ++ u8 "</p>"]
             end)
         ++ (if nonempty (funder p)
             then [lit "    <p class=`proj-meta`><strong>Funding entity:</strong> "
                   ++ _esc (funder p) ++ u8 "</p>"]
             else [])
         ++ (match project_links !! _norm_title (title p) with
             | Some (c :: web) =>
                 [ lit "    <div class=`proj-links`>";
                   lit "      <a href=`" ++ html_escape true (c :: web) ++ lit "`>Web</a>";
                   u8 "    </div>" ]
             | _ => []
             end)
         ++ [ u8 "  </article>" ])
  end.

(** The loop of [render_competitive_cards]: the lines between the opening
    and the closing line of the list. *)
Fixpoint card_parts (projects : list CompetitiveProject) (project_links : gmap str str)
  : outcome (list str) :=
  match projects with
  | [] => Returned []
  | p :: rest =>
      if excluded p then card_parts rest project_links
      else
        match project_card p project_links with
        | Raised => Raised
        | Returned card =>
            match card_parts rest project_links with
            | Raised => Raised
            | Returned more => Returned (card ++ more)
            end
        end
  end.

Definition render_competitive_cards (projects : list CompetitiveProject)
    (project_links : gmap str str) : outcome str :=
  match card_parts projects project_links with
  | Raised => Raised
  | Returned parts =>
      Returned (join [10] ([lit "<div class=`proj-list`>"] ++ parts ++ [u8 "</div>"]))
  end.

Definition render_open_source_cards : str :=
  join [10]
    ([lit "<div class=`proj-list`>"]
     ++ flat_map (fun '(name, url) =>
          [ lit "  <article class=`card proj-card`>";
            lit "    <div class=`proj-top`>";
            lit "      <div class=`proj-title`>" ++ _esc name ++ u8 "</div>";
            lit "      <div class=`badges`></div>";
            u8 "    </div>";
            lit "    <div class=`proj-links`>";
            lit "      <a href=`" ++ html_escape true url ++ lit "`>Repo</a>";
            u8 "    </div>";
            u8 "  </article>" ]) OPEN_SOURCE
     ++ [u8 "</div>"]).

(** *** The run *)

(** What [main] hands to [write_projects_page], and what it prints after the
    page is written. *)
Record Run := {
  ongoing_html : str;
  oss_html : str;
  past_html : str;
  printed : list str;
}.

Definition str_of_nat (n : nat) : str := str_of_Z (Z.of_nat n).

Definition main (W : World) : outcome Run :=
  match fetch_competitive_projects W with
  | Raised => Raised
  | Returned projects =>
      match split_ongoing_past (today W) projects with
      | Raised => Raised
      | Returned (ongoing, past) =>
          let project_links := load_project_links W in
          match render_competitive_cards ongoing project_links with
          | Raised => Raised
          | Returned ongoing_html =>
              match render_competitive_cards past project_links with
              | Raised => Raised
              | Returned past_html =>
                  Returned
                    {| ongoing_html := ongoing_html;
                       oss_html := render_open_source_cards;
                       past_html := past_html;
                       printed := [
                         u8 "Wrote " ++ OUT_HTML W;
                         u8 "Competitive: " ++ str_of_nat (length projects)
                           ++ u8 " (ongoing " ++ str_of_nat (length ongoing)
                           ++ u8 ", past " ++ str_of_nat (length past) ++ u8 ")";
                         u8 "Open source: " ++ str_of_nat (length OPEN_SOURCE) ] |}
              end
          end
      end
  end.

End WithRuntime.
End Projects.

(** ** The vocabulary of the statements

    What the statements below say about the definitions above, in terms of
    their own. *)

(** [reaches r st st']: [r] matches the text between the positions of [st]
    and [st'], closing the groups that [st'] has more than [st]. *)
Inductive reaches : Re.re -> Re.mstate -> Re.mstate -> Prop :=
| reaches_eps st : reaches Re.Eps st st
| reaches_chr p c t pos caps :
    p c = true ->
    reaches (Re.Chr p) (Re.MState pos (c :: t) caps) (Re.MState (S pos) t caps)
| reaches_seq a b st1 st2 st3 :
    reaches a st1 st2 -> reaches b st2 st3 -> reaches (Re.Seq a b) st1 st3
| reaches_alt_l a b st st' : reaches a st st' -> reaches (Re.Alt a b) st st'
| reaches_alt_r a b st st' : reaches b st st' -> reaches (Re.Alt a b) st st'
| reaches_star_stop g a st : reaches (Re.Star g a) st st
| reaches_star_step g a st1 st2 st3 :
    reaches a st1 st2 -> reaches (Re.Star g a) st2 st3 ->
    reaches (Re.Star g a) st1 st3
| reaches_group i a st st' :
    reaches a st st' ->
    reaches (Re.Group i a) st
      (Re.MState (Re.m_pos st') (Re.m_rest st')
         ((i, (Re.m_pos st, Re.m_pos st')) :: Re.m_caps st'))
| reaches_bol st : Re.m_pos st = 0%nat -> reaches Re.Bol st st.

(** The loop of a repetition, as [rmatch] runs it. *)
Definition star_loop (g : bool)
    (body : Re.mstate -> (Re.mstate -> option Re.mstate) -> option Re.mstate)
    (k : Re.mstate -> option Re.mstate) : nat -> Re.mstate -> option Re.mstate :=
  fix loop (fuel : nat) (st : Re.mstate) {struct fuel} : option Re.mstate :=
    match fuel with
    | O => k st
    | S fuel' =>
        if g
        then match body st (fun st' =>
                     if Nat.ltb (Re.m_pos st) (Re.m_pos st') then loop fuel' st' else None) with
             | Some x => Some x
             | None => k st
             end
        else match k st with
             | Some x => Some x
             | None => body st (fun st' =>
                     if Nat.ltb (Re.m_pos st) (Re.m_pos st') then loop fuel' st' else None)
             end
    end.

(** A span lies between two positions. *)
Definition span_within (lo hi : nat) (e : nat * (nat * nat)) : Prop :=
  (lo <= e.2.1 /\ e.2.1 <= e.2.2 /\ e.2.2 <= hi)%nat.

(** A pattern without groups closes none. *)
Fixpoint groupless (r : Re.re) : bool :=
  match r with
  | Re.Eps | Re.Chr _ | Re.Bol => true
  | Re.Seq a b | Re.Alt a b => groupless a && groupless b
  | Re.Star _ a => groupless a
  | Re.Group _ _ => false
  end.




(** The first candidate that is there and not empty, or else the
    placeholder. *)
Fixpoint first_available (candidates : list (option str)) (placeholder : str) : str :=
  match candidates with
  | [] => placeholder
  | o :: rest => if truthy o then default [] o else first_available rest placeholder
  end.

(** The generic link is redundant: it is the DOI URL itself, or it points at
    the DOI resolver while the card has a DOI URL. *)
Definition redundant_link (card : Repair.Card) : Prop :=
  Repair.link_url card = Repair.doi_url card
  \/ (Repair.opt_startswith (Repair.link_url card) Repair.DOI_RESOLVER = true
      /\ truthy (Repair.doi_url card) = true).

(** The generic link that remains for the Link entry and for the Paper
    entry: the generic link when it is not empty, unless the card has a DOI
    URL that is not empty and one of these holds: the card has a DOI (the
    link is then the target of the DOI line, or redundant with it), the link
    is the DOI URL up to white space around the two, the link points at the
    DOI resolver. *)
Definition remaining_link (card : Repair.Card) : option str :=
  if truthy (Repair.link_url card)
     && negb (truthy (Repair.doi_url card)
              && (truthy (Repair.doi card)
                  || bool_decide (strip <$> Repair.link_url card
                                  = strip <$> Repair.doi_url card)
                  || Repair.opt_startswith (Repair.link_url card) Repair.DOI_RESOLVER))
  then Repair.link_url card else None.

Section RuntimeVocabulary.
Context {R : Runtime}.

(** The rows of [l] that no earlier row shares its key with, in the order of
    [l]: the first occurrence of a key survives, the later ones are dropped,
    the others are kept in order. *)
Definition first_occurrences (l : list Update.Pub) : list Update.Pub :=
  (filter (fun ip => Forall (fun q => Update.dedup_key q ≠ Update.dedup_key ip.2)
                            (take ip.1 l))
          (imap pair l)).*2.

(** A project is past: its title is forced into the past, or its end date
    parses to a day before today. *)
Definition is_past (today : Projects.date) (p : Projects.CompetitiveProject) : bool :=
  Projects.forced_past p
  || match Projects._parse_date (Projects.end_ p) with
     | Projects.Returned (Some e) => Projects.date_ltb e today
     | _ => false
     end.

(** The cards that reach a year group, in input order. *)
Definition shown_cards (cards : list Repair.Card) : list Repair.Card :=
  List.filter Repair.numeric_year
    (List.filter (fun c => negb (Repair._should_exclude c)) cards).

End RuntimeVocabulary.

(** ** More vocabulary *)

(** Two neighbours that both satisfy [p]. *)
Fixpoint adjacent (p : N -> bool) (s : str) : bool :=
  match s with
  | x :: (y :: _) as t => (p x && p y) || adjacent p t
  | _ => false
  end.

(** The characters of a comparison key: a-z, 0-9 and the space. *)
Definition key_char (c : N) : bool := is_lower_az c || is_digit_09 c || (c =? 32).

(** A comparison key in its normal form: words of a-z and 0-9, one space
    between two words, none at the ends. *)
Definition canonical_key (k : str) : Prop :=
  Forall (fun c => key_char c = true) k
  /\ startswith k (u8 " ") = false
  /\ endswith k (u8 " ") = false
  /\ contains k (u8 "  ") = false.

(** The characters of a slug: a-z, 0-9 and the hyphen. *)
Definition slug_char (c : N) : bool := is_lower_az c || is_digit_09 c || (c =? 45).

(** The characters that open a corrupted sequence of the mojibake table. *)
Definition mojibake_lead : list N := [195; 226; 8730; 224].

Section ProjectVocabulary.
Context {R : Runtime}.

(** A date text that [_parse_date] reads without raising. *)
Definition date_reads (s : str) : Prop :=
  Projects._parse_date s <> Projects.Raised.

(** A line that holds the title of a project card. *)
Definition is_title_line (l : str) : bool :=
  startswith l (lit "      <div class=`proj-title`>").

End ProjectVocabulary.

(** A pattern that matches no empty text. *)
Fixpoint consuming (r : Re.re) : bool :=
  match r with
  | Re.Eps | Re.Bol | Re.Star _ _ => false
  | Re.Chr _ => true
  | Re.Seq a b => consuming a || consuming b
  | Re.Alt a b => consuming a && consuming b
  | Re.Group _ a => consuming a
  end.

(** Every repeated expression of the pattern consumes a character. *)
Fixpoint well_formed (r : Re.re) : bool :=
  match r with
  | Re.Eps | Re.Bol | Re.Chr _ => true
  | Re.Seq a b | Re.Alt a b => well_formed a && well_formed b
  | Re.Star _ a => consuming a && well_formed a
  | Re.Group _ a => well_formed a
  end.

(** The state is a position of the subject [s]: what is left is [s] from
    that position on. *)
Definition at_position (s : str) (st : Re.mstate) : Prop :=
  Re.m_rest st = drop (Re.m_pos st) s.

Section RunVocabulary.
Context {R : Runtime}.

(** What [int] needs of the interpreter to read a year of four decimal
    digits: a decimal digit is no white space, no sign and no underscore, and
    the limit on the digits of an integer, when there is one, is not below
    four.  (In CPython the decimal digits are the characters of category Nd
    and the limit is 0 or at least 640.) *)
Definition int_reads_years : Prop :=
  (forall c, is_decimal c = true ->
     is_space c = false /\ c <> 43 /\ c <> 45 /\ c <> 95)
  /\ (int_max_str_digits = 0%nat \/ (4 <= int_max_str_digits)%nat).

(** A year as the patterns of the scripts capture it: four decimal digits. *)
Definition four_digits (y : str) : Prop :=
  exists c1 c2 c3 c4, y = [c1; c2; c3; c4]
    /\ is_decimal c1 = true /\ is_decimal c2 = true
    /\ is_decimal c3 = true /\ is_decimal c4 = true.

(** The turn of the loop of the profile-fetch script for [p] comes to its
    end: the DOI that was found can be quoted, and the bibliography file can
    be opened and its content encoded. *)
Definition turn_completes (W : Update.World) (p : Update.Pub) : bool :=
  utf8_encodable (default [] (Update.doi (Update.enrich W p).1))
  && Update.bibtex_opens W (Update.enrich W p).2.1
  && utf8_encodable (Update.enrich W p).2.2.

(** The write of the bibliography file of [p]: its name and what the file
    holds. *)
Definition bibtex_file_of (W : Update.World) (p : Update.Pub) : str * str :=
  ((Update.enrich W p).2.1, text_written (Update.enrich W p).2.2).


End RunVocabulary.

(** A rank as the rank page gives it: [Q1] to [Q4], or [Class], white space
    and one of the digits 1 to 3. *)
Definition rank_value (v : str) : Prop :=
  v ∈ [u8 "Q1"; u8 "Q2"; u8 "Q3"; u8 "Q4"]
  \/ exists w d, v = u8 "Class" ++ w ++ [d]
       /\ w <> [] /\ Forall (fun c => is_space c = true) w /\ d ∈ u8 "123".

(** The text of a label of the rank page:
    [Journal\s+Q[1-4]], [Journal] or [Class\s+[1-3]]. *)
Definition label_text (g : str) : Prop :=
  (exists w d, g = u8 "Journal" ++ w ++ [81; d]
     /\ w <> [] /\ Forall (fun c => is_space c = true) w /\ d ∈ u8 "1234")
  \/ g = u8 "Journal"
  \/ (exists w d, g = u8 "Class" ++ w ++ [d]
        /\ w <> [] /\ Forall (fun c => is_space c = true) w /\ d ∈ u8 "123").

(** ** Concrete inputs

    The data the closed statements below are evaluated at.  They are ASCII
    text (and the curly quotes of a citation), on which [ascii_runtime] is
    the interpreter. *)

Module Examples.
Import AsciiRuntime.

Definition mk_item (t : str) (y : Z) : Item :=
  {| it_title := [t]; it_date_parts := [[y]]; it_author := None;
     it_DOI := None; it_link := None |}.

(** A registry answer about other works of the year 2022. *)
Definition unrelated_items : list Item :=
  [mk_item (u8 "Deep learning for protein folding") 2022;
   mk_item (u8 "Quantum error correction codes") 2021].

Definition mk_pub (t y : str) : Update.Pub :=
  {| Update.title := t; Update.authors := u8 "J. Smith"; Update.venue := u8 "Journal X";
     Update.year := y; Update.scholar_url := u8 "https://scholar.google.com/citations?x" |}.

(** Two profile rows of the year 2020 whose titles differ by a final dot. *)
Definition study : Update.Pub := mk_pub (u8 "A Study") (u8 "2020").
Definition study_dot : Update.Pub := mk_pub (u8 "A Study.") (u8 "2020").

(** A profile whose first page has the two rows, whose second page has none,
    and whose other pages cannot be fetched. *)
Definition one_page_profile : Update.World :=
  {| Update.profile_rows := fun cstart =>
       match cstart with
       | O => Some [study; study_dot]
       | 100%nat => Some []
       | _ => None
       end;
     Update.fetch_scholar_external_link := fun _ => None;
     Update.crossref_works := fun _ => None;
     Update.crossref_bibtex_text := fun _ => None;
     Update.bibtex_opens := fun _ => true;
     Update.page_opens := true |}.

(** A profile page with two rows, the second one without a year. *)
Definition profile_page : str :=
  lit "<table><tr class=`gsc_a_tr`><td class=`gsc_a_t`><a href=`/citations?view_op=view_citation&amp;user=5e4` class=`gsc_a_at`>A <b>Study</b></a><div class=`gs_gray`>J Smith</div><div class=`gs_gray`>Journal X 12 (3)</div></td><td class=`gsc_a_y`><span class=`gsc_a_h`>2020</span></td></tr><tr class=`gsc_a_tr`><td class=`gsc_a_t`><a href=`https://scholar.google.com/citations?x` class=`gsc_a_at`>A Talk</a><div class=`gs_gray`>J Smith</div></td><td class=`gsc_a_y`><span class=`gsc_a_h`></span></td></tr></table>".

(** The profile that has this page and then a page without rows. *)
Definition parsed_profile : Update.World :=
  {| Update.profile_rows := fun cstart =>
       match cstart with
       | O => Some (Update._parse_profile_rows profile_page)
       | _ => Some (Update._parse_profile_rows [])
       end;
     Update.fetch_scholar_external_link := fun _ => None;
     Update.crossref_works := fun _ => None;
     Update.crossref_bibtex_text := fun _ => None;
     Update.bibtex_opens := fun _ => true;
     Update.page_opens := true |}.

Definition a_site : Update.Site :=
  {| Update.OUT_HTML := u8 "/site/publications.html"; Update.BIB_DIR := u8 "/site/bibtex";
     Update.tm_year := 2026 |}.

(** A project whose end date has a year that is no number, under a title that
    is not forced into the past. *)
Definition odd_end_project : Projects.CompetitiveProject :=
  {| Projects.title := u8 "Robots for everyone"; Projects.start := u8 "01/01/2024";
     Projects.end_ := u8 "31/12/20xx"; Projects.funder := u8 "AEI"; Projects.pis := [] |}.

Definition a_day : Projects.date := Projects.Date 2026 2 15.

Definition mk_project (t e : str) : Projects.CompetitiveProject :=
  {| Projects.title := t; Projects.start := u8 "01/01/2019"; Projects.end_ := e;
     Projects.funder := u8 "AEI"; Projects.pis := [u8 "F. Martin"] |}.

(** A project that ended, one that goes on, one without an end date, and one
    whose title is on the list of excluded titles. *)
Definition some_projects : list Projects.CompetitiveProject :=
  [mk_project (u8 "Robots of the past") (u8 "31/12/2020");
   mk_project (u8 "Robots of today") (u8 "31/12/2030");
   mk_project (u8 "Robots without end") [];
   mk_project (u8 "RLD MOCAP4ROS2") (u8 "31/12/2021")].

Definition projects_world : Projects.World :=
  {| Projects.fetch_competitive_projects := Projects.Returned some_projects;
     Projects.load_project_links := {[ u8 "robots of today" := u8 "https://example.org/" ]};
     Projects.today := a_day;
     Projects.OUT_HTML := u8 "/site/projects.html" |}.

(** A card of 2022 whose title has a curator override, and a rank map with
    another rank for that title. *)
Definition overridden_card : Repair.Card :=
  {| Repair.year := u8 "2022";
     Repair.where_ := u8 "Autonomous Robots";
     Repair.cite := u8 "S. Macenski, “Regulated pure pursuit for robot path tracking,” Autonomous Robots.";
     Repair.doi := None; Repair.doi_url := None; Repair.scholar_url := None;
     Repair.bibtex_url := None; Repair.link_url := None; Repair.paper_url := None;
     Repair.badge := u8 "Q?" |}.

Definition other_rank_map : gmap str str :=
  {[ u8 "regulated pure pursuit for robot path tracking" := u8 "Q1" ]}.

(** The Record of the concrete scenario: its generic link is its DOI URL. *)
Definition doi_link_card : Repair.Card :=
  {| Repair.year := u8 "2022";
     Repair.where_ := u8 "Journal X";
     Repair.cite := u8 "J. Smith, “A Study,” Journal X.";
     Repair.doi := Some (u8 "10.1000/xyz");
     Repair.doi_url := Some (u8 "https://doi.org/10.1000/xyz");
     Repair.scholar_url := None; Repair.bibtex_url := None;
     Repair.link_url := Some (u8 "https://doi.org/10.1000/xyz");
     Repair.paper_url := None;
     Repair.badge := u8 "Q?" |}.

(** A card with a DOI whose generic link is the landing page of the
    publisher. *)
Definition landing_card : Repair.Card :=
  {| Repair.year := u8 "2022";
     Repair.where_ := u8 "Journal X";
     Repair.cite := u8 "J. Smith, “A Study,” Journal X.";
     Repair.doi := Some (u8 "10.1000/xyz");
     Repair.doi_url := Some (u8 "https://doi.org/10.1000/xyz");
     Repair.scholar_url := None; Repair.bibtex_url := None;
     Repair.link_url := Some (u8 "https://publisher.example/article/42");
     Repair.paper_url := None;
     Repair.badge := u8 "Q?" |}.

(** A card without a DOI whose generic link is the page of the publisher. *)
Definition page_link_card : Repair.Card :=
  {| Repair.year := u8 "2022";
     Repair.where_ := u8 "Journal X";
     Repair.cite := u8 "J. Smith, “A Study,” Journal X.";
     Repair.doi := None; Repair.doi_url := None;
     Repair.scholar_url := None; Repair.bibtex_url := None;
     Repair.link_url := Some (u8 "https://publisher.example/article/42");
     Repair.paper_url := None;
     Repair.badge := u8 "Q?" |}.

(** The block of a card whose DOI anchor has a blank target, and whose
    generic link points at the DOI resolver. *)
Definition blank_doi_target_block : str :=
  join [10] [
    lit "<article class=`card pub-card`>";
    lit "  <div class=`pub-where`>Journal X</div>";
    lit "  <span class=`badge`>2020</span>";
    lit "  <p class=`pub-cite`>J. Smith, “A Study,” Journal X.</p>";
    lit "  <p class=`pub-doi`>DOI: <a href=` `>10.1000/xyz</a></p>";
    lit "  <div class=`pub-links`>";
    lit "    <a href=`https://doi.org/10.1000/xyz`>Link</a>";
    u8 "  </div>";
    u8 "</article>" ].

(** An enriched publication of the profile-fetch path, without a year. *)
Definition enriched_no_year : Update.EnrichedPub :=
  {| Update.pub := {| Update.title := u8 "A Study"; Update.authors := u8 "J. Smith";
                      Update.venue := u8 "Journal X"; Update.year := [];
                      Update.scholar_url := u8 "https://scholar.google.com/citations?x" |};
     Update.link_url := None; Update.doi := None; Update.doi_url := None;
     Update.pdf_url := None; Update.bib_filename := Some (u8 "a-study-noyear-0000000000.bib") |}.

Definition enriched_2020 : Update.EnrichedPub :=
  {| Update.pub := {| Update.title := u8 "Another Study"; Update.authors := u8 "J. Smith";
                      Update.venue := u8 "Journal Y"; Update.year := u8 "2020";
                      Update.scholar_url := u8 "https://scholar.google.com/citations?y" |};
     Update.link_url := None; Update.doi := None; Update.doi_url := None;
     Update.pdf_url := None; Update.bib_filename := Some (u8 "another-study-2020-0000000000.bib") |}.




(** A world that answers nothing: no registry, no bibliography files, an
    empty rank map. *)
Definition silent_world : Repair.World :=
  {| Repair.crossref_works := fun _ => None;
     Repair._authors_from_bibtex_href := fun _ => [];
     Repair.fetch_rank_map := Some ∅;
     Repair.opens_for_writing := true |}.

(** A world whose rank page is empty and whose registry answers a title
    with one record of that title; the family name of its author is a high
    surrogate without its low surrogate, as the JSON text [`\ud800`] decodes
    to. *)
Definition surrogate_author_world : Repair.World :=
  {| Repair.crossref_works := fun title =>
       Some [ {| it_title := [title]; it_date_parts := [[2020%Z]];
                 it_author := Some [Some {| au_given := Some (u8 "J.");
                                            au_family := Some [55296] |}];
                 it_DOI := None; it_link := None |} ];
     Repair._authors_from_bibtex_href := fun _ => [];
     Repair.fetch_rank_map := Some ∅;
     Repair.opens_for_writing := true |}.

(** A page with one card, which has no bibliography link. *)
Definition one_card_page : str :=
  join [10] [
    u8 "<section>";
    u8 "    <h2>List</h2>";
    lit "    <h3 class=`pub-year`>2020</h3>";
    lit "    <div class=`pub-list`>";
    lit "      <article class=`card pub-card`>";
    lit "        <div class=`pub-top`>";
    lit "          <div class=`pub-where`>Journal X</div>";
    lit "          <div class=`badges`>";
    lit "            <span class=`badge`>2020</span>";
    u8 "          </div>";
    u8 "        </div>";
    lit "        <p class=`pub-cite`>J. Smith, “A Study,” Journal X.</p>";
    lit "        <div class=`pub-links`>";
    lit "          <a href=`https://example.org/paper.pdf`>Paper</a>";
    u8 "        </div>";
    u8 "      </article>";
    u8 "    </div>";
    u8 "  </section>";
    [] ].

(** The same page as a file whose lines end with a carriage return and a
    line feed. *)
Definition crlf_page : str := replace [10] [13; 10] one_card_page.

(** A page without the List section. *)
Definition no_list_page : str := u8 "<main><h1>Publications</h1></main>".

End Examples.

(** * Properties *)

Opaque u8 lit.

(** ** The matcher is sound *)

Section Matcher.

Lemma star_loop_S g body k fuel st :
  star_loop g body k (S fuel) st
  = if g
    then match body st (fun st' =>
                 if Nat.ltb (Re.m_pos st) (Re.m_pos st')
                 then star_loop g body k fuel st' else None) with
         | Some x => Some x
         | None => k st
         end
    else match k st with
         | Some x => Some x
         | None => body st (fun st' =>
                 if Nat.ltb (Re.m_pos st) (Re.m_pos st')
                 then star_loop g body k fuel st' else None)
         end.
Proof. reflexivity. Qed.

Lemma rmatch_sound (r : Re.re) :
  forall st k res,
    Re.rmatch r st k = Some res ->
    exists st', reaches r st st' /\ k st' = Some res.
Proof.
  induction r as [|p|a IHa b IHb|a IHa b IHb|g a IHa|i a IHa|]; intros st k res; simpl.
  - intros H. exists st. split; [constructor | exact H].
  - destruct st as [pos [|c t] caps]; simpl; [discriminate|].
    destruct (p c) eqn:Hp; [|discriminate].
    intros H. eexists. split; [by constructor | exact H].
  - intros H. apply IHa in H as (st1 & H1 & H). apply IHb in H as (st2 & H2 & H).
    exists st2. split; [econstructor; eauto | exact H].
  - destruct (Re.rmatch a st k) as [x|] eqn:Ha.
    + intros [= <-]. apply IHa in Ha as (st1 & H1 & H).
      exists st1. split; [by apply reaches_alt_l | exact H].
    + intros H. apply IHb in H as (st1 & H1 & H).
      exists st1. split; [by apply reaches_alt_r | exact H].
  - change (star_loop g (Re.rmatch a) k (length (Re.m_rest st)) st = Some res ->
            exists st', reaches (Re.Star g a) st st' /\ k st' = Some res).
    generalize (length (Re.m_rest st)). intros fuel. revert st res.
    induction fuel as [|fuel IH]; intros st res; [|rewrite star_loop_S].
    + intros H. exists st. split; [constructor | exact H].
    + assert (Hmore : forall res',
                Re.rmatch a st
                  (fun st' => if Nat.ltb (Re.m_pos st) (Re.m_pos st')
                              then star_loop g (Re.rmatch a) k fuel st' else None)
                = Some res' ->
                exists st', reaches (Re.Star g a) st st' /\ k st' = Some res').
      { intros res' H. apply IHa in H as (st1 & H1 & H).
        destruct (Nat.ltb (Re.m_pos st) (Re.m_pos st1)); [|discriminate].
        apply IH in H as (st2 & H2 & H).
        exists st2. split; [econstructor; eauto | exact H]. }
      destruct g.
      * destruct (Re.rmatch a st
                    (fun st' => if Nat.ltb (Re.m_pos st) (Re.m_pos st')
                                then star_loop true (Re.rmatch a) k fuel st' else None))
          as [x|] eqn:Hm.
        -- intros [= <-]. by apply Hmore.
        -- intros H. exists st. split; [constructor | exact H].
      * destruct (k st) as [x|] eqn:Hk.
        -- intros [= <-]. exists st. split; [constructor | exact Hk].
        -- apply Hmore.
  - intros H. apply IHa in H as (st1 & H1 & H).
    eexists. split; [by constructor | exact H].
  - destruct (Nat.eqb_spec (Re.m_pos st) 0) as [Hz|]; [|discriminate].
    intros H. exists st. split; [by constructor | exact H].
Qed.

Lemma reaches_consumes (r : Re.re) (st st' : Re.mstate) :
  reaches r st st' ->
  exists consumed new,
    Re.m_rest st = consumed ++ Re.m_rest st'
    /\ Re.m_pos st' = (Re.m_pos st + length consumed)%nat
    /\ Re.m_caps st' = new ++ Re.m_caps st
    /\ Forall (span_within (Re.m_pos st) (Re.m_pos st')) new.
Proof.
  induction 1 as [st|p c t pos caps Hp|a b st1 st2 st3 _ IH1 _ IH2
                 |a b st st' _ IH|a b st st' _ IH|g a st
                 |g a st1 st2 st3 _ IH1 _ IH2|i a st st' _ IH|st Hz]; simpl.
  - exists [], []. rewrite Nat.add_0_r. auto.
  - exists [c], []. simpl. repeat split; auto. lia.
  - destruct IH1 as (c1 & n1 & E1 & P1 & C1 & F1).
    destruct IH2 as (c2 & n2 & E2 & P2 & C2 & F2).
    exists (c1 ++ c2), (n2 ++ n1).
    rewrite E1, E2, P2, P1, C2, C1, length_app, <- !app_assoc.
    repeat split; auto; [lia|].
    apply Forall_app. split; (eapply Forall_impl; [eassumption|]);
      unfold span_within; intros e; lia.
  - exact IH.
  - exact IH.
  - exists [], []. rewrite Nat.add_0_r. auto.
  - destruct IH1 as (c1 & n1 & E1 & P1 & C1 & F1).
    destruct IH2 as (c2 & n2 & E2 & P2 & C2 & F2).
    exists (c1 ++ c2), (n2 ++ n1).
    rewrite E1, E2, P2, P1, C2, C1, length_app, <- !app_assoc.
    repeat split; auto; [lia|].
    apply Forall_app. split; (eapply Forall_impl; [eassumption|]);
      unfold span_within; intros e; lia.
  - destruct IH as (c1 & n1 & E1 & P1 & C1 & F1).
    exists c1, ((i, (Re.m_pos st, Re.m_pos st')) :: n1).
    rewrite C1. repeat split; auto.
    constructor; [unfold span_within; simpl; lia | exact F1].
  - exists [], []. rewrite Nat.add_0_r. auto.
Qed.

Lemma search_from_sound (r : Re.re) (s : str) :
  forall pos m,
    Re.search_from r pos s = Some m ->
    exists i st',
      (i <= length s)%nat
      /\ reaches (Re.Group 0 r) (Re.MState (pos + i) (drop i s) []) st'
      /\ m = Re.m_caps st'.
Proof.
  induction s as [|c s IH]; intros pos m; cbn [Re.search_from].
  - destruct (Re.rmatch (Re.Group 0 r) (Re.MState pos [] []) Some) as [st|] eqn:E;
      [|discriminate].
    intros [= <-]. apply rmatch_sound in E as (st' & Hr & [= <-]).
    exists 0%nat, st'. rewrite Nat.add_0_r. auto.
  - destruct (Re.rmatch (Re.Group 0 r) (Re.MState pos (c :: s) []) Some) as [st|] eqn:E.
    + intros [= <-]. apply rmatch_sound in E as (st' & Hr & [= <-]).
      exists 0%nat, st'. rewrite Nat.add_0_r. simpl. split; [lia|]. auto.
    + intros H. apply IH in H as (i & st' & Hi & Hr & ->).
      exists (S i), st'. simpl. replace (pos + S i)%nat with (S pos + i)%nat by lia.
      split; [lia|]. auto.
Qed.

(** Every group of a match found by [re.search] lies inside the subject,
    its start not after its end. *)
Lemma search_spans_in_subject (r : Re.re) (s : str) (m : Re.rmatch_obj) (i : nat) :
  Re.search r s = Some m ->
  (Re.m_start m i <= Re.m_end m i /\ Re.m_end m i <= length s)%nat.
Proof.
  intros H. apply search_from_sound in H as (j & st' & Hj & Hr & ->).
  apply reaches_consumes in Hr as (consumed & new & E & P & C & F).
  simpl in *. rewrite app_nil_r in C. rewrite C.
  assert (Hlen : (Re.m_pos st' <= length s)%nat).
  { rewrite P. apply (f_equal length) in E. rewrite length_app, length_drop in E. lia. }
  unfold Re.m_start, Re.m_end. clear C E.
  induction F as [|[k [a b]] new Hx _ IH]; simpl; [lia|].
  destruct (Nat.eqb i k); [|exact IH].
  unfold span_within in Hx. simpl in *. lia.
Qed.

End Matcher.

(** ** The lines of a rebuilt card *)

Section Escape.

Lemma escape_cp_cases (c : N) :
  (c = 38 /\ escape_cp true c = [38; 97; 109; 112; 59])
  \/ (c = 60 /\ escape_cp true c = [38; 108; 116; 59])
  \/ (c = 62 /\ escape_cp true c = [38; 103; 116; 59])
  \/ (c = 34 /\ escape_cp true c = [38; 113; 117; 111; 116; 59])
  \/ (c = 39 /\ escape_cp true c = [38; 35; 120; 50; 55; 59])
  \/ (c <> 38 /\ escape_cp true c = [c]).
Proof.
  unfold escape_cp.
  destruct (N.eqb_spec c 38) as [->|H38]; [left; split; [done | by vm_compute]|].
  destruct (N.eqb_spec c 60) as [->|H60]; [right; left; split; [done | by vm_compute]|].
  destruct (N.eqb_spec c 62) as [->|H62];
    [right; right; left; split; [done | by vm_compute]|].
  destruct (N.eqb_spec c 34) as [->|H34];
    [right; right; right; left; split; [done | by vm_compute]|].
  destruct (N.eqb_spec c 39) as [->|H39];
    [right; right; right; right; left; split; [done | by vm_compute]|].
  repeat right. split; [done | reflexivity].
Qed.

Lemma escape_cp_inj (c d : N) (x y : str) :
  escape_cp true c ++ x = escape_cp true d ++ y -> c = d /\ x = y.
Proof.
  destruct (escape_cp_cases c) as [[Hc ->]|[[Hc ->]|[[Hc ->]|[[Hc ->]|[[Hc ->]|[Hc ->]]]]]];
    destruct (escape_cp_cases d)
      as [[Hd ->]|[[Hd ->]|[[Hd ->]|[[Hd ->]|[[Hd ->]|[Hd ->]]]]]];
    simpl; intros H; simplify_eq; auto.
Qed.

(** [html.escape] loses nothing: the escaped text determines the text. *)
Lemma esc_app_inj (a b x y : str) :
  html_escape true a ++ x = html_escape true b ++ y ->
  length x = length y -> a = b /\ x = y.
Proof.
  unfold html_escape.
  revert b. induction a as [|c a IH]; intros [|d b]; cbn [flat_map]; intros H Hlen.
  - auto.
  - exfalso. apply (f_equal length) in H. rewrite !length_app in H.
    destruct (escape_cp_cases d) as [[_ E]|[[_ E]|[[_ E]|[[_ E]|[[_ E]|[_ E]]]]]];
      rewrite E in H; simpl in H; lia.
  - exfalso. apply (f_equal length) in H. rewrite !length_app in H.
    destruct (escape_cp_cases c) as [[_ E]|[[_ E]|[[_ E]|[[_ E]|[[_ E]|[_ E]]]]]];
      rewrite E in H; simpl in H; lia.
  - rewrite <- !app_assoc in H. apply escape_cp_inj in H as [-> H].
    destruct (IH b H Hlen) as [-> ->]. auto.
Qed.

Lemma esc_inj (a b : str) : html_escape true a = html_escape true b -> a = b.
Proof.
  intros H. apply (esc_app_inj a b [] []); [|reflexivity].
  by rewrite !app_nil_r.
Qed.

End Escape.

(** Two lines that differ within their first [n] characters, or within their
    last [n], are different. *)
Ltac expose_lines H :=
  cbv beta delta [Repair.where_line Repair.year_line Repair.badge_line
                  Repair.cite_out_line Repair.doi_line Repair.link_line
                  Repair.scholar_line Repair.bibtex_line Repair.paper_line] in H;
  repeat match type of H with
         | context [Repair.esc ?x] =>
             let v := fresh "v" in set (v := Repair.esc x) in H; clearbody v
         end.

Ltac differ_at_start n H :=
  apply (f_equal (take n)) in H; vm_compute in H; discriminate H.

Ltac differ_at_end n H :=
  apply (f_equal (fun l => take n (rev l))) in H; cbv beta in H;
  rewrite ?rev_app_distr in H; vm_compute in H; discriminate H.

Ltac lines_differ H :=
  expose_lines H;
  first [ differ_at_start 12%nat H | differ_at_start 34%nat H
        | differ_at_end 6%nat H | differ_at_end 12%nat H ].

Section CardLines.
Context {R : Runtime}.

Lemma link_line_inj (u v : str) : Repair.link_line u = Repair.link_line v -> u = v.
Proof.
  unfold Repair.link_line, Repair.esc. intros H.
  apply app_inv_head in H. by apply esc_app_inj in H as [-> _].
Qed.

Lemma paper_line_inj (u v : str) : Repair.paper_line u = Repair.paper_line v -> u = v.
Proof.
  unfold Repair.paper_line, Repair.esc. intros H.
  apply app_inv_head in H. by apply esc_app_inj in H as [-> _].
Qed.

Lemma badge_line_inj (u v : str) : Repair.badge_line u = Repair.badge_line v -> u = v.
Proof.
  unfold Repair.badge_line, Repair.esc. intros H.
  apply app_inv_head in H. by apply esc_app_inj in H as [-> _].
Qed.

End CardLines.

Section CardLinesElem.
Context {R : Runtime}.

Lemma nonempty_true (s : str) : nonempty s = true <-> s <> [].
Proof. destruct s; simpl; split; congruence. Qed.

Lemma elem_of_when_truthy (o : option str) (f : str -> str) (x : str) :
  x ∈ Repair.when_truthy o f -> truthy o = true /\ x = f (default [] o).
Proof.
  destruct o as [[|c s]|]; simpl; rewrite ?elem_of_nil, ?list_elem_of_singleton;
    intuition congruence.
Qed.

Lemma when_truthy_falsy (o : option str) (f : str -> str) :
  truthy o = false -> Repair.when_truthy o f = [].
Proof. destruct o as [[|c s]|]; simpl; congruence. Qed.

End CardLinesElem.

(** Membership in a list of lines built with [++], [::] and [if], case by
    case. *)
Ltac line_cases H :=
  repeat match type of H with
         | _ ∈ _ ++ _ => apply elem_of_app in H as [H | H]
         | _ ∈ _ :: _ => apply elem_of_cons in H as [H | H]
         | _ ∈ [] => apply elem_of_nil in H; destruct H
         | _ ∈ (if ?b then _ else _) => destruct b eqn:?
         | _ ∈ Repair.when_truthy _ _ => apply elem_of_when_truthy in H as [? H]
         end.

(** The line stands at the head of the segment after [n] segments. *)
Tactic Notation "line_in_segment" integer(n) :=
  do n (apply elem_of_app; right);
  first [ apply list_elem_of_here | apply elem_of_app; left; apply list_elem_of_here ].

(** ** The fuzzy matcher *)

Section Matching.
Context {R : Runtime}.

Lemma max_by_elem {A} (key : A -> spec_float) (best : A) (l : list A) :
  PyDict.max_by key best l ∈ best :: l.
Proof.
  revert best. induction l as [|x l IH]; intros best; simpl.
  - set_solver.
  - pose proof (IH (if PyFloat.ltb (key best) (key x) then x else best)) as IH'.
    destruct (PyFloat.ltb (key best) (key x)); set_solver.
Qed.

Lemma disjoint_jaccard_zero (a b : gset str) (n : nat) :
  a ## b -> PyFloat.truediv (size (a ∩ b)) n = PyFloat.f_zero.
Proof.
  intros Hd. assert (a ∩ b = ∅) as Hempty by set_solver.
  rewrite Hempty, size_empty. reflexivity.
Qed.

(** The three values a score takes when no word is shared all lie below the
    threshold. *)
Lemma low_score_below_threshold (x : spec_float) :
  x = PyFloat.f_zero \/ x = PyFloat.add PyFloat.f_zero PyFloat.f_0_08
  \/ x = PyFloat.add PyFloat.f_zero PyFloat.f_zero ->
  PyFloat.ltb x PyFloat.f_0_35 = true.
Proof. intros [-> | [-> | ->]]; reflexivity. Qed.

Lemma repair_score_disjoint (want : str) (year : option str) (it : Item) :
  word_set want ## word_set (Repair._norm (item_title it)) ->
  PyFloat.ltb (Repair.score want year it) PyFloat.f_0_35 = true.
Proof.
  intros Hd. apply low_score_below_threshold. unfold Repair.score.
  destruct (nonempty (Repair._norm (item_title it))); simpl; [|by left].
  rewrite (disjoint_jaccard_zero _ _ _ Hd).
  destruct (truthy year && bool_decide (Some (item_year it) = year)); auto.
Qed.

Lemma update_score_disjoint (want : str) (year : str) (it : Item) :
  word_set want ## word_set (Update._norm_title (item_title it)) ->
  PyFloat.ltb (Update.score want year it) PyFloat.f_0_35 = true.
Proof.
  intros Hd. apply low_score_below_threshold. unfold Update.score.
  destruct (nonempty (Update._norm_title (item_title it))); simpl; [|by left].
  rewrite (disjoint_jaccard_zero _ _ _ Hd).
  destruct (nonempty year && bool_decide (item_year it = year)); auto.
Qed.

Lemma repair_norm_nil : Repair._norm [] = [].
Proof. unfold Repair._norm. rewrite unescape_nil. reflexivity. Qed.

Lemma update_norm_title_nil : Update._norm_title [] = [].
Proof. reflexivity. Qed.

Lemma word_set_nil : word_set [] = ∅.
Proof. reflexivity. Qed.

(** C4. Threshold property of the fuzzy matcher, for each of the two
    scripts on its own: when the word set of the normalized query shares no
    word with the word set of any candidate's normalized title, the matcher
    returns no match, whatever the query year and the candidates' years are;
    an empty query title and an empty candidate list give no match either.
    Each matcher normalizes with its own function, so the condition of the
    one is not the condition of the other. *)
Theorem fuzzy_match_threshold
    (title : str) (year_r : option str) (year_u : str) (items : list Item) :
  ((forall it, it ∈ items ->
      word_set (Repair._norm title) ## word_set (Repair._norm (item_title it)))
   -> Repair.best_match title year_r items = None)
  /\ ((forall it, it ∈ items ->
         word_set (Update._norm_title title)
           ## word_set (Update._norm_title (item_title it)))
      -> Update.best_match title year_u items = None)
  /\ Repair.best_match [] year_r items = None
  /\ Update.best_match [] year_u items = None
  /\ Repair.best_match title year_r [] = None
  /\ Update.best_match title year_u [] = None.
Proof.
  assert (Hr : forall t, (forall it, it ∈ items ->
                word_set (Repair._norm t) ## word_set (Repair._norm (item_title it)))
              -> Repair.best_match t year_r items = None).
  { intros t Hd. unfold Repair.best_match. destruct items as [|it rest]; [reflexivity|].
    rewrite repair_score_disjoint; [reflexivity|]. apply Hd, max_by_elem. }
  assert (Hu : forall t, (forall it, it ∈ items ->
                word_set (Update._norm_title t)
                  ## word_set (Update._norm_title (item_title it)))
              -> Update.best_match t year_u items = None).
  { intros t Hd. unfold Update.best_match. destruct items as [|it rest]; [reflexivity|].
    rewrite update_score_disjoint; [reflexivity|]. apply Hd, max_by_elem. }
  split; [apply Hr|]. split; [apply Hu|].
  split; [|split; [|split; reflexivity]].
  - apply Hr. intros it _. rewrite repair_norm_nil, word_set_nil. set_solver.
  - apply Hu. intros it _. rewrite update_norm_title_nil, word_set_nil. set_solver.
Qed.

(** The matchers on the registry's answer: a failed request gives no match,
    and so does an answer without a shared word. *)
Corollary crossref_no_shared_word_no_match
    (WR : Repair.World) (WU : Update.World) (title : str)
    (year_r : option str) (year_u : str) :
  ((forall items it, Repair.crossref_works WR title = Some items -> it ∈ items ->
      word_set (Repair._norm title) ## word_set (Repair._norm (item_title it)))
   -> Repair._crossref_best_match WR title year_r = None)
  /\ ((forall items it, Update.crossref_works WU title = Some items -> it ∈ items ->
         word_set (Update._norm_title title)
           ## word_set (Update._norm_title (item_title it)))
      -> Update.crossref_best_match WU title year_u = None).
Proof.
  unfold Repair._crossref_best_match, Update.crossref_best_match. split.
  - intros Hr.
    destruct (Repair.crossref_works WR title) as [items|] eqn:E; [|reflexivity].
    destruct items as [|it rest]; [reflexivity|].
    unfold Repair.best_match. rewrite repair_score_disjoint; [reflexivity|].
    eapply Hr; [reflexivity|]. apply max_by_elem.
  - intros Hu.
    destruct (Update.crossref_works WU title) as [items|] eqn:E; [|reflexivity].
    destruct items as [|it rest]; [reflexivity|].
    unfold Update.best_match. rewrite update_score_disjoint; [reflexivity|].
    eapply Hu; [reflexivity|]. apply max_by_elem.
Qed.

End Matching.

(** A query about robots against an answer about other works, one of them of
    the query's year; and a query that the two scripts normalize differently:
    [it's] is the word [its] for the repair script, which has no word of [It]
    then, and the words [it] and [s] for the profile-fetch script. *)
Lemma fuzzy_match_threshold_witness :
  let R := AsciiRuntime.ascii_runtime in
  Repair.best_match (u8 "Robot navigation") (Some (u8 "2022")) Examples.unrelated_items = None
  /\ Update.best_match (u8 "Robot navigation") (u8 "2022") Examples.unrelated_items = None
  /\ Repair.best_match (u8 "it's") (Some (u8 "2022")) [Examples.mk_item (u8 "It") 2022] = None
  /\ (forall it, it ∈ [Examples.mk_item (u8 "It") 2022] ->
        word_set (Repair._norm (u8 "it's")) ## word_set (Repair._norm (item_title it)))
  /\ bool_decide (word_set (Update._norm_title (u8 "it's"))
                   ## word_set (Update._norm_title (u8 "It"))) = false.
Proof.
  assert (Hitems : forall it, it ∈ Examples.unrelated_items ->
            word_set (Repair._norm (R := AsciiRuntime.ascii_runtime) (u8 "Robot navigation"))
              ## word_set (Repair._norm (R := AsciiRuntime.ascii_runtime) (item_title it))
            /\ word_set (Update._norm_title (R := AsciiRuntime.ascii_runtime)
                           (u8 "Robot navigation"))
                 ## word_set (Update._norm_title (R := AsciiRuntime.ascii_runtime)
                                (item_title it))).
  { intros it Hit. apply list_elem_of_In in Hit. simpl in Hit.
    destruct Hit as [<- | [<- | []]]; split; apply (bool_decide_unpack _);
      vm_compute; exact I. }
  assert (Hits : forall it, it ∈ [Examples.mk_item (u8 "It") 2022] ->
            word_set (Repair._norm (R := AsciiRuntime.ascii_runtime) (u8 "it's"))
              ## word_set (Repair._norm (R := AsciiRuntime.ascii_runtime) (item_title it))).
  { intros it Hit. apply list_elem_of_singleton in Hit as ->.
    apply (bool_decide_unpack _). vm_compute. exact I. }
  split.
  { apply (proj1 (fuzzy_match_threshold (R := AsciiRuntime.ascii_runtime)
                    (u8 "Robot navigation") (Some (u8 "2022")) (u8 "2022")
                    Examples.unrelated_items)).
    intros it Hit. apply (Hitems it Hit). }
  split.
  { apply (proj1 (proj2 (fuzzy_match_threshold (R := AsciiRuntime.ascii_runtime)
                           (u8 "Robot navigation") (Some (u8 "2022")) (u8 "2022")
                           Examples.unrelated_items))).
    intros it Hit. apply (Hitems it Hit). }
  split.
  { apply (proj1 (fuzzy_match_threshold (R := AsciiRuntime.ascii_runtime)
                    (u8 "it's") (Some (u8 "2022")) (u8 "2022")
                    [Examples.mk_item (u8 "It") 2022])).
    exact Hits. }
  split; [exact Hits|]. vm_compute. reflexivity.
Defined.

(** ** Deduplication of the profile rows *)

Section Dedup.
Context {R : Runtime}.

Lemma dedup_from_spec (pre l : list Update.Pub) :
  Update.dedup_from (list_to_set (Update.dedup_key <$> pre)) l
  = (filter (fun ip => Forall (fun q => Update.dedup_key q ≠ Update.dedup_key ip.2)
                              (take ip.1 (pre ++ l)))
            (imap (fun i p => (length pre + i, p)%nat) l)).*2.
Proof.
  revert pre. induction l as [|p l IH]; intros pre; [reflexivity|].
  assert (Hnext : Update.dedup_from
                    ({[Update.dedup_key p]} ∪ list_to_set (Update.dedup_key <$> pre)) l
                  = (filter (fun ip => Forall (fun q => Update.dedup_key q
                                                        ≠ Update.dedup_key ip.2)
                                              (take ip.1 (pre ++ p :: l)))
                            (imap ((fun i p => (length pre + i, p)%nat) ∘ S) l)).*2).
  { specialize (IH (pre ++ [p])).
    rewrite fmap_app, list_to_set_app_L in IH. simpl in IH.
    replace (list_to_set (Update.dedup_key <$> pre) ∪ ({[Update.dedup_key p]} ∪ ∅))
      with ({[Update.dedup_key p]} ∪ (list_to_set (Update.dedup_key <$> pre)
                                       : gset (str * str))) in IH by set_solver.
    rewrite IH. rewrite <- app_assoc. simpl. f_equal. f_equal.
    apply imap_ext. intros i x _. simpl. rewrite length_app. simpl. f_equal. lia. }
  cbn [Update.dedup_from]. rewrite imap_cons.
  assert (Hhead : Forall (fun q => Update.dedup_key q ≠ Update.dedup_key p)
                         (take (length pre + 0) (pre ++ p :: l))
                  <-> Update.dedup_key p ∉ (list_to_set (Update.dedup_key <$> pre)
                                            : gset (str * str))).
  { rewrite Nat.add_0_r, take_app_length.
    rewrite elem_of_list_to_set, list_elem_of_fmap, Forall_forall.
    split.
    - intros H [q [Hq Hin]]. by apply (H q Hin).
    - intros H q Hin Heq. apply H. exists q. auto. }
  case_bool_decide as Hseen.
  - rewrite filter_cons_False by (simpl; rewrite Hhead; auto).
    assert ({[Update.dedup_key p]} ∪ list_to_set (Update.dedup_key <$> pre)
            = (list_to_set (Update.dedup_key <$> pre) : gset (str * str))) as Heq
      by (apply subseteq_union_1_L, singleton_subseteq_l; exact Hseen).
    rewrite Heq in Hnext. exact Hnext.
  - rewrite filter_cons_True by (simpl; rewrite Hhead; auto).
    simpl. f_equal. exact Hnext.
Qed.

(** C5 (as amended). Profile-fetch deduplication: of the rows that share
    their case-folded title and their year, the first one in input order
    survives and the later ones are dropped; the rows whose key was not met
    before are kept, in order.  The key is the title under [str.casefold]
    alone, not the title normalized by [_norm_title]. *)
Theorem dedup_first_occurrence_wins (all_pubs : list Update.Pub) :
  Update.dedup all_pubs = first_occurrences all_pubs.
Proof. exact (dedup_from_spec [] all_pubs). Qed.

(** What survives is a subsequence of the input without two rows of one key,
    and holds a row for the key of every input row. *)
Lemma dedup_keeps_one_per_key (all_pubs : list Update.Pub) :
  sublist (Update.dedup all_pubs) all_pubs
  /\ NoDup (Update.dedup_key <$> Update.dedup all_pubs)
  /\ forall p, p ∈ all_pubs ->
       Update.dedup_key p ∈ Update.dedup_key <$> Update.dedup all_pubs.
Proof.
  unfold Update.dedup.
  assert (forall l (seen : gset (str * str)),
            sublist (Update.dedup_from seen l) l
            /\ NoDup (Update.dedup_key <$> Update.dedup_from seen l)
            /\ (forall k, k ∈ Update.dedup_key <$> Update.dedup_from seen l -> k ∉ seen)
            /\ forall p, p ∈ l -> Update.dedup_key p ∉ seen ->
                 Update.dedup_key p ∈ Update.dedup_key <$> Update.dedup_from seen l) as H.
  { induction l as [|p l IH]; intros seen; simpl.
    - repeat split; [constructor | constructor | set_solver | set_solver].
    - case_bool_decide as Hseen.
      + destruct (IH seen) as (Hs & Hn & Hk & Hin). repeat split; auto.
        * by apply sublist_cons.
        * intros q Hq Hq'. apply elem_of_cons in Hq as [-> | Hq]; [done|]. auto.
      + destruct (IH ({[Update.dedup_key p]} ∪ seen)) as (Hs & Hn & Hk & Hin).
        repeat split.
        * by apply sublist_skip.
        * simpl. constructor; [|done]. intros Hp. apply Hk in Hp. set_solver.
        * simpl. intros k Hk'. apply elem_of_cons in Hk' as [-> | Hk']; [done|].
          apply Hk in Hk'. set_solver.
        * simpl. intros q Hq Hq'. apply elem_of_cons in Hq as [-> | Hq]; [left|].
          destruct (decide (Update.dedup_key q = Update.dedup_key p)) as [-> | Hne];
            [left | right; apply Hin; set_solver]. }
  destruct (H all_pubs ∅) as (Hs & Hn & _ & Hin). repeat split; auto.
  intros p Hp. apply Hin; set_solver.
Qed.

End Dedup.

(** C5, the claim as stated fails: two rows with one normalized title and one
    year both survive, their case-folded titles being different. *)
Lemma dedup_normalized_title_counterexample :
  Update._norm_title (R := AsciiRuntime.ascii_runtime) (Update.title Examples.study)
    = Update._norm_title (R := AsciiRuntime.ascii_runtime) (Update.title Examples.study_dot)
  /\ Update.year Examples.study = Update.year Examples.study_dot
  /\ Update.dedup (R := AsciiRuntime.ascii_runtime) [Examples.study; Examples.study_dot]
     = [Examples.study; Examples.study_dot].
Proof. vm_compute. repeat split. Qed.

(** ** Badge precedence *)

Section Badge.
Context {R : Runtime}.

(** Whenever the rank map applies and holds the title, its value is the
    badge, whatever the curator overrides say. *)
Lemma rank_map_hit_is_final (card : Repair.Card) (rank_map : gmap str str) (r : str) :
  rank_map !! Repair._norm (Repair.extract_title_from_cite (Repair.cite card)) = Some r ->
  Repair.resolved_badge card rank_map true = r.
Proof. intros H. unfold Repair.resolved_badge. rewrite H. reflexivity. Qed.

(** Without a rank-map hit, or when the rank map does not apply, the title
    override comes before the DOI override, and both before the badge of the
    card. *)
Lemma title_override_without_rank_map (card : Repair.Card) (rank_map : gmap str str)
    (applies : bool) (c : N) (m : str) :
  Repair.MANUAL_RANKS !! Repair._norm (Repair.extract_title_from_cite (Repair.cite card))
    = Some (c :: m) ->
  applies = false
  \/ rank_map !! Repair._norm (Repair.extract_title_from_cite (Repair.cite card)) = None ->
  Repair.resolved_badge card rank_map applies = c :: m.
Proof.
  intros H Hno. unfold Repair.resolved_badge. rewrite H.
  destruct Hno as [-> | ->]; [reflexivity|]. destruct applies; reflexivity.
Qed.

End Badge.

(** C1, the code at the failing input: a card of 2022 whose normalized title
    has the curator override Q2, and a rank map that gives the same title Q1.
    The rank map is applied after the overrides and replaces them: the card
    is rendered with Q1. *)
Theorem rank_map_overrides_curator_override :
  let R := AsciiRuntime.ascii_runtime in
  let card := Examples.overridden_card in
  let key := Repair._norm (Repair.extract_title_from_cite (Repair.cite card)) in
  Repair.MANUAL_RANKS !! key = Some (u8 "Q2")
  /\ Examples.other_rank_map !! key = Some (u8 "Q1")
  /\ Repair.rank_applies (Repair.year card) = Some true
  /\ Repair.badge_value (Repair.fix_card card) Examples.other_rank_map true = u8 "Q1"
  /\ (fun out => contains out (lit "<span class=`badge badge-muted`>Q1</span>"))
       <$> Repair.rebuild_card Examples.silent_world card Examples.other_rank_map
     = Some true.
Proof. vm_compute. repeat split. Qed.

(** ** Running the repair twice *)

(** C3, the code at the failing input: a page with one card that has no
    bibliography link, in a world that answers nothing.  Both runs succeed,
    and the second run writes a different page: the placeholder
    [<a href=`#`>BibTeX</a>] of the first run is read back as a bibliography
    link and written with [download]; and the white space around the list,
    which the pattern of the section keeps, grows by the indentation and the
    final newline of the new list on every run. *)
Theorem repair_is_not_idempotent :
  let R := AsciiRuntime.ascii_runtime in
  let W := Examples.silent_world in
  let run1 := Repair.main W Examples.one_card_page in
  let run2 := Repair.main W (Repair.file_after run1) in
  let list1 := Repair._render_list W (Repair.parse_cards Examples.one_card_page) ∅ in
  let list2 := Repair._render_list W (Repair.parse_cards (default [] list1)) ∅ in
  Repair.exit_status run1 = 0%Z /\ Repair.exit_status run2 = 0%Z
  /\ bool_decide (Repair.file_after run2 = Repair.file_after run1) = false
  /\ length (Repair.file_after run2) = (length (Repair.file_after run1) + 14)%nat
  /\ bool_decide (list2 = list1) = false
  /\ (fun l => contains l Repair.no_bibtex_line) <$> list1 = Some true
  /\ (fun l => contains l Repair.no_bibtex_line) <$> list2 = Some false
  /\ (fun l => contains l (Repair.bibtex_line (u8 "#"))) <$> list2 = Some true.
Proof. vm_compute. repeat split. Qed.

(** ** The sentinel badge *)

Section Sentinel.
Context {R : Runtime}.

Lemma badge_value_not_sentinel (c : Repair.Card) (rank_map : gmap str str) (applies : bool) :
  Repair.badge_value c rank_map applies <> Repair.UNKNOWN_BADGE.
Proof.
  unfold Repair.badge_value, str_eqb. case_bool_decide as H; [discriminate | exact H].
Qed.

(** C2 (as amended). In a card rebuilt by the repair script the badge is
    never the sentinel [Q?]: a badge that resolves to the sentinel is made
    empty, and the card has a badge element exactly when the badge is not
    empty, with that badge in it.  (The renderer of the profile-fetch script
    is another matter: it writes the sentinel badge on every card.) *)
Theorem sentinel_badge_not_rendered (W : Repair.World) (card : Repair.Card)
    (rank_map : gmap str str) (applies : bool) :
  let c := Repair.fix_card card in
  let lines := Repair.card_lines W c rank_map applies in
  let b := Repair.badge_value c rank_map applies in
  b <> Repair.UNKNOWN_BADGE
  /\ (Repair.resolved_badge c rank_map applies = Repair.UNKNOWN_BADGE -> b = [])
  /\ (forall x, Repair.badge_line x ∈ lines <-> x = b /\ b <> [])
  /\ Repair.badge_line Repair.UNKNOWN_BADGE ∉ lines.
Proof.
  intros c lines b.
  assert (Hns : b <> Repair.UNKNOWN_BADGE) by apply badge_value_not_sentinel.
  assert (Hlines : forall x, Repair.badge_line x ∈ lines <-> x = b /\ b <> []).
  { intros x. subst lines. unfold Repair.card_lines.
    fold b. destruct (Repair.resolve_links c) as [durl link].
    split.
    - intros Hin. line_cases Hin;
        first [ exfalso; lines_differ Hin
              | apply badge_line_inj in Hin; split; [exact Hin | by apply nonempty_true] ].
    - intros [-> Hb]. apply nonempty_true in Hb. rewrite Hb.
      destruct (nonempty (Repair.year c)); line_in_segment 2. }
  split; [exact Hns|]. split; [|split; [exact Hlines|]].
  - intros Hr. subst b. unfold Repair.badge_value. rewrite Hr. reflexivity.
  - intros Hin. apply Hlines in Hin as [Heq _]. by apply Hns.
Qed.

End Sentinel.

(** C2, the claim as stated fails on the profile-fetch path: every card
    [build_publications_html] writes carries the sentinel badge. *)
Lemma sentinel_rendered_by_update_counterexample :
  let R := AsciiRuntime.ascii_runtime in
  Update.badge_line = lit "            <span class=`badge badge-muted`>Q?</span>"
  /\ bool_decide (Update.badge_line ∈ Update.card_lines Examples.enriched_2020) = true
  /\ (fun out => contains out (lit "<span class=`badge badge-muted`>Q?</span>"))
       <$> Update.build_publications_html [Examples.enriched_2020]
     = Some true.
Proof. vm_compute. repeat split. Qed.
(** ** The repaired card *)

Section RepairedCard.
Context {R : Runtime}.

Lemma replace_nonempty (old new s : str) : s <> [] -> new <> [] -> replace old new s <> [].
Proof.
  intros Hs Hnew. unfold replace. destruct old as [|a old].
  - destruct new; [done | discriminate].
  - destruct s as [|c s]; [done|]. cbn [replace_go].
    destruct (startswith (c :: s) (a :: old)); [|discriminate].
    destruct new; [done | discriminate].
Qed.

Lemma fix_mojibake_nonempty (s : str) : s <> [] -> Repair._fix_mojibake s <> [].
Proof.
  unfold Repair._fix_mojibake.
  assert (Hgood : Forall (fun bg : str * str => bg.2 <> []) Repair._MOJIBAKE_REPL).
  { unfold Repair._MOJIBAKE_REPL.
    repeat (constructor; [intros H; vm_compute in H; discriminate H|]). constructor. }
  revert s. induction Hgood as [|[bad good] table Hg _ IH]; intros s Hs; [exact Hs|].
  cbn [foldl]. apply IH. by apply replace_nonempty.
Qed.

Lemma truthy_Some (o : option str) : truthy o = true <-> exists c s, o = Some (c :: s).
Proof.
  destruct o as [[|c s]|]; simpl; split; try discriminate; eauto;
    intros (? & ? & ?); discriminate.
Qed.

Lemma fix_card_doi_truthy (card : Repair.Card) :
  truthy (Repair.doi card) = true -> truthy (Repair.doi (Repair.fix_card card)) = true.
Proof.
  intros H. cbn [Repair.fix_card Repair.doi]. rewrite H.
  apply truthy_Some in H as (c & s & ->). simpl.
  pose proof (fix_mojibake_nonempty (c :: s) ltac:(discriminate)) as Hne.
  by destruct (Repair._fix_mojibake (c :: s)).
Qed.

Lemma fix_card_doi_truthy_eq (card : Repair.Card) :
  truthy (Repair.doi (Repair.fix_card card)) = truthy (Repair.doi card).
Proof.
  destruct (truthy (Repair.doi card)) eqn:H; [by apply fix_card_doi_truthy|].
  cbn [Repair.fix_card Repair.doi]. by rewrite H.
Qed.

End RepairedCard.

(** ** Link redundancy *)

Section Links.
Context {R : Runtime}.

Lemma resolve_paper_order (c : Repair.Card) (link : option str) :
  Repair.resolve_paper c link
  = first_available [Repair.paper_url c; link; Repair.doi_url c; Repair.scholar_url c]
      (u8 "#").
Proof.
  unfold Repair.resolve_paper, first_available, or_else.
  destruct (truthy (Repair.paper_url c)); [reflexivity|].
  destruct (truthy link); [reflexivity|].
  destruct (truthy (Repair.doi_url c)); [reflexivity|].
  destruct (truthy (Repair.scholar_url c)); reflexivity.
Qed.

Lemma redundant_link_dropped (c : Repair.Card) :
  redundant_link c -> truthy (Repair.resolve_links c).2 = false.
Proof.
  unfold redundant_link, Repair.resolve_links.
  destruct (Repair.link_url c) as [[|a l]|] eqn:El;
    destruct (Repair.doi_url c) as [[|b d]|] eqn:Ed;
    destruct (truthy (Repair.doi c));
    cbn [truthy andb negb fst snd Repair.opt_startswith];
    intros [H | [Hs Ht]]; try discriminate; try reflexivity;
    try (injection H as -> ->);
    repeat (case_bool_decide || case_match); simplify_eq; try reflexivity;
    cbn [truthy andb negb fst snd Repair.opt_startswith] in *;
    try congruence.
Qed.

(** The link that the rules of the code leave is the remaining link, up
    to an empty one. *)
Lemma resolve_links_remaining (card : Repair.Card) :
  let link := (Repair.resolve_links (Repair.fix_card card)).2 in
  (truthy link = true -> link = remaining_link card)
  /\ (truthy link = false -> remaining_link card = None).
Proof.
  unfold Repair.resolve_links, remaining_link.
  rewrite fix_card_doi_truthy_eq.
  change (Repair.link_url (Repair.fix_card card)) with (Repair.link_url card).
  change (Repair.doi_url (Repair.fix_card card)) with (Repair.doi_url card).
  destruct (Repair.link_url card) as [[|a l]|] eqn:El;
    destruct (Repair.doi_url card) as [[|b d]|] eqn:Ed;
    destruct (truthy (Repair.doi card));
    cbn [truthy andb orb negb fst snd Repair.opt_startswith];
    try (split; [discriminate || reflexivity | reflexivity || discriminate]);
    repeat (case_bool_decide || case_match); simplify_eq;
    cbn [truthy andb orb negb fst snd Repair.opt_startswith] in *;
    split; intros; try congruence.
  all: repeat match goal with
              | H : negb _ = false |- _ => apply negb_false_iff in H
              | H : negb _ = true |- _ => apply negb_true_iff in H
              end; congruence.
Qed.

(** C6 (as amended). Link redundancy.  The text of a rebuilt card is its
    lines joined by line feeds (when the year can be read), and on these
    lines: the card has a Link entry exactly for the generic link that
    remains, and the Paper entry points at the first that is there of the
    explicit full-text link, the remaining generic link, the DOI URL, the
    profile URL, and the placeholder [#].  The card of a Record whose generic
    link is textually its DOI URL, or points at the DOI resolver while the
    Record has a DOI URL that is not empty, has no generic link left and no
    Link entry. *)
Theorem link_redundancy (W : Repair.World) (card : Repair.Card)
    (rank_map : gmap str str) :
  Repair.rebuild_card W card rank_map
  = (fun applies => join Repair.NL
                      (Repair.card_lines W (Repair.fix_card card) rank_map applies))
      <$> Repair.rank_applies (Repair.year card)
  /\ forall applies,
       let lines := Repair.card_lines W (Repair.fix_card card) rank_map applies in
       (forall u, Repair.link_line u ∈ lines <-> remaining_link card = Some u)
       /\ (forall u, Repair.paper_line u ∈ lines <->
             u = first_available
                   [Repair.paper_url card; remaining_link card; Repair.doi_url card;
                    Repair.scholar_url card]
                   (u8 "#"))
       /\ (redundant_link card ->
           remaining_link card = None /\ forall u, Repair.link_line u ∉ lines).
Proof.
  split.
  { unfold Repair.rebuild_card.
    change (Repair.year (Repair.fix_card card)) with (Repair.year card).
    by destruct (Repair.rank_applies (Repair.year card)). }
  intros applies lines. subst lines.
  destruct (resolve_links_remaining card) as [Hkeep Hdrop]. cbv zeta in Hkeep, Hdrop.
  set (c := Repair.fix_card card) in *.
  assert (Hpaper : Repair.resolve_paper c (Repair.resolve_links c).2
                   = first_available
                       [Repair.paper_url card; remaining_link card; Repair.doi_url card;
                        Repair.scholar_url card] (u8 "#")).
  { rewrite resolve_paper_order.
    change (Repair.paper_url c) with (Repair.paper_url card).
    change (Repair.doi_url c) with (Repair.doi_url card).
    change (Repair.scholar_url c) with (Repair.scholar_url card).
    unfold first_available.
    destruct (truthy (Repair.paper_url card)); [reflexivity|].
    destruct (truthy (Repair.resolve_links c).2) eqn:Ht.
    - by rewrite <- (Hkeep eq_refl), Ht.
    - by rewrite (Hdrop eq_refl). }
  assert (Hlink : forall u, Repair.link_line u ∈ Repair.card_lines W c rank_map applies
                            <-> remaining_link card = Some u).
  { intros u. unfold Repair.card_lines.
    destruct (Repair.resolve_links c) as [durl link] eqn:Elinks. cbn [snd] in *.
    destruct (truthy link) eqn:Ht.
    - rewrite <- (Hkeep eq_refl).
      apply truthy_Some in Ht as (a & l & ->). cbn [Repair.when_truthy]. split.
      + intros Hin. line_cases Hin;
          first [ exfalso; lines_differ Hin | by rewrite (link_line_inj _ _ Hin) ].
      + intros [= <-]. line_in_segment 6.
    - rewrite (Hdrop eq_refl), (when_truthy_falsy link _ Ht). split; [|discriminate].
      intros Hin. exfalso. line_cases Hin; lines_differ Hin. }
  split; [exact Hlink|]. split.
  - intros u. rewrite <- Hpaper. unfold Repair.card_lines.
    destruct (Repair.resolve_links c) as [durl link] eqn:Elinks. cbn [snd]. split.
    + intros Hin. line_cases Hin;
        first [ exfalso; lines_differ Hin | exact (paper_line_inj _ _ Hin) ].
    + intros ->. line_in_segment 9.
  - intros Hr.
    assert (Hnone : remaining_link card = None).
    { apply Hdrop. by apply (redundant_link_dropped c). }
    split; [exact Hnone|]. intros u Hin. apply Hlink in Hin. congruence.
Qed.

End Links.

(** The Record of the concrete scenario of the specification, and a Record
    with a landing page and no DOI, which keeps its Link entry and has the
    Paper entry point at it. *)
Lemma link_redundancy_witness :
  let R := AsciiRuntime.ascii_runtime in
  let W := Examples.silent_world in
  (redundant_link Examples.doi_link_card
   /\ remaining_link Examples.doi_link_card = None
   /\ forall u, Repair.link_line u
               ∉ Repair.card_lines W (Repair.fix_card Examples.doi_link_card) ∅ true)
  /\ Repair.link_line (u8 "https://publisher.example/article/42")
       ∈ Repair.card_lines W (Repair.fix_card Examples.page_link_card) ∅ true
  /\ Repair.paper_line (u8 "https://publisher.example/article/42")
       ∈ Repair.card_lines W (Repair.fix_card Examples.page_link_card) ∅ true.
Proof.
  intros R W.
  pose proof (proj2 (link_redundancy (R := AsciiRuntime.ascii_runtime) W
                       Examples.doi_link_card ∅) true) as (_ & _ & Hred).
  pose proof (proj2 (link_redundancy (R := AsciiRuntime.ascii_runtime) W
                       Examples.page_link_card ∅) true) as (Hlink & Hpaper & _).
  split.
  - split; [left; reflexivity|]. exact (Hred (or_introl eq_refl)).
  - split; [apply Hlink | apply Hpaper]; vm_compute; reflexivity.
Defined.

(** C6, the claim as stated fails on a Record that has a DOI and an empty
    DOI URL, as [parse_cards] reads it from a card whose DOI anchor has a
    blank target: its generic link points at the DOI resolver and a DOI is
    present, and the rebuilt card keeps the Link entry (and has no DOI
    line). *)
Lemma resolver_link_kept_counterexample :
  let R := AsciiRuntime.ascii_runtime in
  let card := Repair.parse_block Examples.blank_doi_target_block in
  Repair.doi card = Some (u8 "10.1000/xyz")
  /\ Repair.doi_url card = Some []
  /\ Repair.link_url card = Some (u8 "https://doi.org/10.1000/xyz")
  /\ Repair.opt_startswith (Repair.link_url card) Repair.DOI_RESOLVER = true
  /\ (fun out => contains out (Repair.link_line (u8 "https://doi.org/10.1000/xyz")))
       <$> Repair.rebuild_card Examples.silent_world card ∅ = Some true
  /\ (fun out => contains out (lit "<p class=`pub-doi`>"))
       <$> Repair.rebuild_card Examples.silent_world card ∅ = Some false.
Proof. vm_compute. repeat split. Qed.

(** ** Grouping and ordering *)

Section Grouping.
Context {A : Type}.


Lemma keys_setdefault_append (k : str) (v : A) (d : PyDict.odict (list A)) :
  PyDict.keys (PyDict.setdefault_append k v d)
  = if bool_decide (k ∈ PyDict.keys d) then PyDict.keys d else PyDict.keys d ++ [k].
Proof.
  unfold PyDict.keys. induction d as [|[k0 vs] d IH]; [reflexivity|].
  cbn [PyDict.setdefault_append fmap list_fmap fst].
  destruct (decide (k = k0)) as [->|Hne].
  - rewrite !bool_decide_true; [reflexivity | apply list_elem_of_here | done].
  - rewrite (bool_decide_false (k = k0)) by done.
    cbn [fmap list_fmap fst]. rewrite IH.
    destruct (decide (k ∈ d.*1)) as [Hin|Hin].
    + rewrite !bool_decide_true; [reflexivity | by apply list_elem_of_further | done].
    + rewrite !bool_decide_false; [reflexivity | | done].
      intros H. apply elem_of_cons in H as [?|?]; done.
Qed.

Lemma get_Some_keys (d : PyDict.odict (list A)) (k : str) :
  is_Some (PyDict.get d k) <-> k ∈ PyDict.keys d.
Proof.
  unfold PyDict.keys. induction d as [|[k0 vs] d IH]; simpl.
  - rewrite elem_of_nil. split; [intros [? ?]; discriminate | tauto].
  - rewrite elem_of_cons. case_bool_decide; [split; eauto|].
    rewrite IH. tauto.
Qed.


Lemma keys_group_pairs (pairs : list (str * A)) (d : PyDict.odict (list A)) :
  NoDup (PyDict.keys d) ->
  NoDup (PyDict.keys (PyDict.group_pairs d pairs))
  /\ forall k, k ∈ PyDict.keys (PyDict.group_pairs d pairs)
               <-> k ∈ PyDict.keys d \/ k ∈ pairs.*1.
Proof.
  unfold PyDict.group_pairs.
  revert d. induction pairs as [|[k0 v0] pairs IH]; intros d Hd; simpl.
  - split; [exact Hd|]. intros k. rewrite elem_of_nil. tauto.
  - assert (Hd' : NoDup (PyDict.keys (PyDict.setdefault_append k0 v0 d))
                  /\ forall k, k ∈ PyDict.keys (PyDict.setdefault_append k0 v0 d)
                               <-> k ∈ PyDict.keys d \/ k = k0).
    { rewrite keys_setdefault_append. case_bool_decide as Hin.
      - split; [exact Hd|]. intros k. split; [tauto|]. intros [?| ->]; auto.
      - split.
        + apply NoDup_app. repeat split; auto.
          * intros x Hx Hx'. apply list_elem_of_singleton in Hx'. by subst.
          * apply NoDup_singleton.
        + intros k. rewrite elem_of_app, list_elem_of_singleton. tauto. }
    destruct Hd' as [Hnd Hk]. destruct (IH _ Hnd) as [IH1 IH2].
    split; [exact IH1|]. intros k. rewrite IH2, Hk, elem_of_cons. simpl. tauto.
Qed.


End Grouping.

Section Ordering.










Lemma sorted_keys_total (key : str -> option Z) (ys : list str) :
  Forall (fun y => is_Some (key y)) ys -> is_Some (PyDict.sorted_keys key ys).
Proof.
  intros H. unfold PyDict.sorted_keys.
  assert (is_Some (mapM (fun y => (fun n => (n, y)) <$> key y) ys)) as [keyed ->].
  { apply mapM_is_Some. eapply Forall_impl; [exact H|].
    intros y [n Hn]. simpl. rewrite Hn. simpl. eauto. }
  simpl. eauto.
Qed.

End Ordering.

(** ** The year groups of the two renderers *)

Section GroupedDesc.
Context {A : Type}.


End GroupedDesc.

Section Renderers.
Context {R : Runtime}.

Lemma fill_by_year_eq (W : Repair.World) (rank_map : gmap str str)
    (kept : list Repair.Card) (d0 : PyDict.odict (list str)) :
  Repair.fill_by_year W rank_map kept d0
  = (fun items => PyDict.group_pairs d0
                    (zip (Repair.year <$> List.filter Repair.numeric_year kept) items))
      <$> mapM (fun c => Repair.rebuild_card W c rank_map)
               (List.filter Repair.numeric_year kept).
Proof.
  revert d0. induction kept as [|c kept IH]; intros d0; simpl; [reflexivity|].
  destruct (Repair.numeric_year c); simpl; [|apply IH].
  destruct (Repair.rebuild_card W c rank_map) as [item|]; simpl; [|reflexivity].
  rewrite IH.
  destruct (mapM _ (List.filter Repair.numeric_year kept)); reflexivity.
Qed.

Lemma rebuild_card_is_Some (W : Repair.World) (rank_map : gmap str str) (c : Repair.Card) :
  is_Some (Repair.rebuild_card W c rank_map) <-> is_Some (Repair.rank_applies (Repair.year c)).
Proof.
  unfold Repair.rebuild_card. simpl.
  destruct (Repair.rank_applies (Repair.year c)); simpl; split; intros [? ?]; eauto;
    discriminate.
Qed.

Lemma numeric_rank_applies (c : Repair.Card) :
  Repair.numeric_year c = true -> is_Some (py_int (Repair.year c)) ->
  is_Some (Repair.rank_applies (Repair.year c)).
Proof.
  unfold Repair.numeric_year, Repair.rank_applies.
  intros H [n ->]. destruct (isdigit (Repair.year c)); simpl; eauto.
Qed.

Lemma fst_zip_fmap {B C} (f : B -> str) (l : list B) (items : list C) :
  length items = length l -> (zip (f <$> l) items).*1 = f <$> l.
Proof.
  intros H. apply fst_zip. rewrite length_fmap. lia.
Qed.

End Renderers.

(** ** The List section *)

Section Anchor.
Context {R : Runtime}.

Lemma reaches_groupless (r : Re.re) (st st' : Re.mstate) :
  reaches r st st' -> groupless r = true -> Re.m_caps st' = Re.m_caps st.
Proof.
  induction 1; simpl; intros Hg; try reflexivity;
    try (apply andb_true_iff in Hg as [Hg1 Hg2]); try discriminate; auto.
  - rewrite IHreaches2, IHreaches1; auto.
  - rewrite IHreaches2, IHreaches1; auto.
Qed.

Lemma groupless_text (s : str) : groupless (Re.text s) = true.
Proof. induction s; simpl; auto. Qed.

(** A match of the pattern of the List section has its second group, inside
    the document. *)
Lemma list_section_group (doc : str) (m : Re.rmatch_obj) :
  Re.search Repair.list_section_re doc = Some m ->
  exists a b, Re.span m 2 = Some (a, b) /\ (a <= b /\ b <= length doc)%nat.
Proof.
  intros H. pose proof (search_spans_in_subject _ _ _ 2 H) as Hb.
  apply search_from_sound in H as (i & st' & _ & Hr & ->).
  inversion Hr as [| | | | | | |? ? ? st0 Hr0| ]; subst. clear Hr.
  unfold Repair.list_section_re, Re.seqs in Hr0.
  inversion Hr0 as [| |? ? ? st1 ? Hg1 Hr1| | | | | | ]; subst. clear Hr0.
  inversion Hr1 as [| |? ? ? st2 ? Hg2 Hg3| | | | | | ]; subst. clear Hr1.
  inversion Hg3 as [| | | | | | |? ? ? st3 Hin3| ]; subst. clear Hg3.
  inversion Hg2 as [| | | | | | |? ? ? st4 Hin2| ]; subst. clear Hg2.
  apply reaches_groupless in Hin3;
    [|by (cbn [groupless Re.seqs Re.star Re.ws]; rewrite groupless_text)].
  simpl in Hin3. simpl in Hb. unfold Re.m_start, Re.m_end in Hb. simpl in Hb.
  simpl. rewrite Hin3. simpl. rewrite Hin3 in Hb. simpl in Hb.
  eexists _, _. split; [reflexivity | exact Hb].
Qed.

End Anchor.

(** ** Ongoing and past projects *)

Section Split.
Context {R : Runtime}.

Lemma split_ongoing_past_returned today projects ongoing past :
  Projects.split_ongoing_past today projects = Projects.Returned (ongoing, past) ->
  past = List.filter (is_past today) projects
  /\ ongoing = List.filter (fun p => negb (is_past today p)) projects.
Proof.
  revert ongoing past. induction projects as [|p l IH]; intros ongoing past; simpl.
  - intros [= <- <-]. auto.
  - unfold is_past. destruct (Projects.forced_past p); simpl.
    + destruct (Projects.split_ongoing_past today l) as [[o pa]|]; [|discriminate].
      intros [= <- <-]. destruct (IH o pa eq_refl) as [-> ->]. auto.
    + destruct (Projects._parse_date (Projects.end_ p)) as [e|]; [|discriminate].
      destruct (Projects.split_ongoing_past today l) as [[o pa]|]; [|discriminate].
      destruct (IH o pa eq_refl) as [-> ->].
      destruct e as [e|]; [destruct (Projects.date_ltb e today)|];
        intros [= <- <-]; auto.
Qed.

(** It returns unless the year of some end date that is looked at is no
    integer. *)
Lemma split_ongoing_past_returns today projects :
  Forall (fun p => Projects.forced_past p = true
                   \/ Projects._parse_date (Projects.end_ p) <> Projects.Raised) projects ->
  exists ongoing past,
    Projects.split_ongoing_past today projects = Projects.Returned (ongoing, past).
Proof.
  induction 1 as [|p l Hp _ IH]; simpl; [eauto|].
  destruct IH as (o & pa & ->).
  destruct (Projects.forced_past p); [eauto|].
  destruct Hp as [Hp | Hp]; [discriminate|].
  destruct (Projects._parse_date (Projects.end_ p)) as [[e|]|]; [| |done]; [|eauto].
  destruct (Projects.date_ltb e today); eauto.
Qed.

End Split.

(** C9, the code at the failing input: the end date [31/12/20xx] has three
    parts and a year that [int] rejects; [int(y)] stands outside the [try] of
    [_parse_date], so the date is not "unparseable, hence ongoing": the call
    raises, and so does the whole split. *)
Theorem split_raises_on_malformed_year :
  Projects.forced_past (R := AsciiRuntime.ascii_runtime) Examples.odd_end_project = false
  /\ Projects._parse_date (R := AsciiRuntime.ascii_runtime)
       (Projects.end_ Examples.odd_end_project) = Projects.Raised
  /\ Projects.split_ongoing_past (R := AsciiRuntime.ascii_runtime) Examples.a_day
       [Examples.odd_end_project] = Projects.Raised.
Proof. vm_compute. repeat split. Qed.

(** ** Bibliography file names *)

Section Filenames.
Context {R : Runtime}.





End Filenames.

(** ** Facts about strings *)

Section Strings.

Lemma startswith_spec (s p : str) : startswith s p = true <-> exists t, s = p ++ t.
Proof.
  revert s. induction p as [|a p IH]; intros [|b s]; simpl.
  - split; eauto.
  - split; eauto.
  - split; [discriminate | intros [t Ht]; discriminate].
  - rewrite andb_true_iff, IH, N.eqb_eq. split.
    + intros [-> [t ->]]. eauto.
    + intros [t [= -> ->]]. eauto.
Qed.

Lemma startswith_absent (s p : str) (c : N) :
  c ∈ p -> c ∉ s -> startswith s p = false.
Proof.
  intros Hp Hs. destruct (startswith s p) eqn:E; [|reflexivity].
  apply startswith_spec in E as [t ->]. exfalso. apply Hs, elem_of_app. by left.
Qed.

(** A text that lacks a character of [old] has no occurrence of [old]. *)
Lemma replace_absent (old new s : str) (c : N) :
  c ∈ old -> c ∉ s -> replace old new s = s.
Proof.
  intros Hold Hs. unfold replace. destruct old as [|a old']; [by apply elem_of_nil in Hold|].
  induction s as [|x s IH]; [reflexivity|]. cbn [replace_go].
  rewrite (startswith_absent _ _ c Hold Hs). f_equal. apply IH.
  intros H. apply Hs. by right.
Qed.

Lemma startswith_nil (s : str) : startswith s [] = true.
Proof. by destruct s. Qed.

(** Replacing one character by one character touches nothing else. *)
Lemma replace_char (a b : N) (s : str) :
  replace [a] [b] s = map (fun c => if c =? a then b else c) s.
Proof.
  unfold replace. induction s as [|x s IH]; [reflexivity|]. cbn [replace_go startswith map].
  rewrite startswith_nil, andb_true_r, N.eqb_sym.
  destruct (x =? a); simpl; f_equal; exact IH.
Qed.

Lemma lstrip_by_split (p : N -> bool) (s : str) :
  exists pre, s = pre ++ lstrip_by p s /\ Forall (fun c => p c = true) pre.
Proof.
  induction s as [|c s (pre & E & F)]; simpl.
  - exists []. auto.
  - destruct (p c) eqn:Hp.
    + exists (c :: pre). simpl. split; [by f_equal | by constructor].
    + exists []. auto.
Qed.

Lemma lstrip_by_head (p : N -> bool) (s : str) (c : N) :
  head (lstrip_by p s) = Some c -> p c = false.
Proof.
  induction s as [|x s IH]; simpl; [discriminate|].
  destruct (p x) eqn:Hp; [exact IH|]. simpl. by intros [= <-].
Qed.

Lemma lstrip_by_id (p : N -> bool) (s : str) :
  (forall c, head s = Some c -> p c = false) -> lstrip_by p s = s.
Proof.
  destruct s as [|x s]; simpl; [reflexivity|]. intros H. by rewrite (H x eq_refl).
Qed.

Lemma rstrip_by_split (p : N -> bool) (s : str) :
  exists suf, s = rstrip_by p s ++ suf /\ Forall (fun c => p c = true) suf.
Proof.
  unfold rstrip_by. destruct (lstrip_by_split p (rev s)) as (pre & E & F).
  exists (rev pre). split.
  - rewrite <- rev_app_distr, <- E. by rewrite rev_involutive.
  - by apply Forall_rev.
Qed.

Lemma last_rev_head {A} (l : list A) : last (rev l) = head l.
Proof. destruct l as [|x l]; [reflexivity|]. simpl. by rewrite last_snoc. Qed.

Lemma head_rev_last {A} (l : list A) : head (rev l) = last l.
Proof. rewrite <- (rev_involutive l) at 2. by rewrite last_rev_head. Qed.

Lemma rstrip_by_last (p : N -> bool) (s : str) (c : N) :
  last (rstrip_by p s) = Some c -> p c = false.
Proof. unfold rstrip_by. rewrite last_rev_head. apply lstrip_by_head. Qed.

Lemma rstrip_by_id (p : N -> bool) (s : str) :
  (forall c, last s = Some c -> p c = false) -> rstrip_by p s = s.
Proof.
  intros H. unfold rstrip_by. rewrite lstrip_by_id; [apply rev_involutive|].
  intros c. rewrite head_rev_last. apply H.
Qed.

Lemma head_app_nonempty {A} (l k : list A) : l <> [] -> head (l ++ k) = head l.
Proof. destruct l; [done | reflexivity]. Qed.

Lemma rstrip_by_head (p : N -> bool) (s : str) (c : N) :
  (forall c, head s = Some c -> p c = false) ->
  head (rstrip_by p s) = Some c -> p c = false.
Proof.
  intros Hs. destruct (rstrip_by_split p s) as (suf & E & F).
  destruct (rstrip_by p s) as [|x r] eqn:Er; [discriminate|].
  simpl. intros [= <-]. apply Hs. rewrite E. reflexivity.
Qed.

(** What [strip] leaves: the text between the stripped ends, which neither
    starts nor ends with a stripped character. *)
Lemma strip_by_split (p : N -> bool) (s : str) :
  exists pre suf, s = pre ++ strip_by p s ++ suf
    /\ Forall (fun c => p c = true) pre /\ Forall (fun c => p c = true) suf.
Proof.
  unfold strip_by. destruct (lstrip_by_split p s) as (pre & E & F).
  destruct (rstrip_by_split p (lstrip_by p s)) as (suf & E' & F').
  exists pre, suf. split; [|auto]. by rewrite <- E', <- E.
Qed.

Lemma strip_by_ends (p : N -> bool) (s : str) (c : N) :
  head (strip_by p s) = Some c \/ last (strip_by p s) = Some c -> p c = false.
Proof.
  unfold strip_by. intros [H | H].
  - eapply rstrip_by_head; [|exact H]. intros x. apply lstrip_by_head.
  - by apply rstrip_by_last in H.
Qed.

Lemma strip_by_id (p : N -> bool) (s : str) :
  (forall c, head s = Some c \/ last s = Some c -> p c = false) -> strip_by p s = s.
Proof.
  intros H. unfold strip_by. rewrite lstrip_by_id by auto. apply rstrip_by_id. auto.
Qed.

Lemma strip_by_idemp (p : N -> bool) (s : str) : strip_by p (strip_by p s) = strip_by p s.
Proof. apply strip_by_id. apply strip_by_ends. Qed.

Lemma Forall_strip_by (P : N -> Prop) (p : N -> bool) (s : str) :
  Forall P s -> Forall P (strip_by p s).
Proof.
  intros H. destruct (strip_by_split p s) as (pre & suf & E & _).
  rewrite E in H. apply Forall_app in H as [_ H]. by apply Forall_app in H as [H _].
Qed.

Lemma strip_by_nil_iff (p : N -> bool) (s : str) :
  strip_by p s = [] <-> Forall (fun c => p c = true) s.
Proof.
  split.
  - intros H. destruct (strip_by_split p s) as (pre & suf & E & F1 & F2).
    rewrite H in E. rewrite E. apply Forall_app. auto.
  - intros H. unfold strip_by.
    assert (lstrip_by p s = []) as ->; [|reflexivity].
    induction H as [|c s Hc _ IH]; simpl; [reflexivity|]. by rewrite Hc.
Qed.

Lemma adjacent_app (p : N -> bool) (a b : str) :
  adjacent p (a ++ b) = false -> adjacent p a = false /\ adjacent p b = false.
Proof.
  induction a as [|x a IH]; simpl; [auto|].
  destruct a as [|y a]; simpl in *.
  - destruct b as [|z b]; [auto|]. intros H. apply orb_false_iff in H as [_ H]. auto.
  - intros H. apply orb_false_iff in H as [H1 H2]. rewrite H1. simpl.
    apply IH in H2. exact H2.
Qed.

Lemma sub_runs_not_adjacent (p : N -> bool) (r : N) (s : str) (in_run : bool) :
  adjacent p (sub_runs p [r] s in_run) = false
  /\ (in_run = true -> forall c, head (sub_runs p [r] s in_run) = Some c -> p c = false).
Proof.
  revert in_run. induction s as [|c s IH]; intros in_run; simpl;
    [split; [reflexivity | discriminate]|].
  destruct (p c) eqn:Hp.
  - destruct (IH true) as [Ha Hh]. destruct in_run; simpl.
    + auto.
    + split; [|discriminate].
      destruct (sub_runs p [r] s true) as [|y t] eqn:E; [reflexivity|].
      rewrite (Hh eq_refl y eq_refl), andb_false_r. simpl. exact Ha.
  - destruct (IH false) as [Ha _]. split.
    + destruct (sub_runs p [r] s false) as [|y t] eqn:E; [reflexivity|].
      simpl. rewrite Hp. simpl. exact Ha.
    + intros _ x [= <-]. exact Hp.
Qed.

Lemma sub_runs_elem (p : N -> bool) (repl s : str) (in_run : bool) (c : N) :
  c ∈ sub_runs p repl s in_run -> (c ∈ s /\ p c = false) \/ c ∈ repl.
Proof.
  revert in_run. induction s as [|x s IH]; intros in_run; simpl.
  - intros H. by apply elem_of_nil in H.
  - destruct (p x) eqn:Hp.
    + intros H. apply elem_of_app in H as [H | H].
      * destruct in_run; [by apply elem_of_nil in H | by right].
      * apply IH in H as [[H1 H2] | H]; [left | by right]. split; [by right | done].
    + intros H. apply elem_of_cons in H as [-> | H].
      * left. split; [by left | done].
      * apply IH in H as [[H1 H2] | H]; [left | by right]. split; [by right | done].
Qed.

(** Where no character is in the class, the substitution changes nothing. *)
Lemma sub_runs_id (p : N -> bool) (repl s : str) :
  Forall (fun c => p c = false) s -> sub_runs p repl s false = s.
Proof.
  induction 1 as [|c s Hc _ IH]; simpl; [reflexivity|]. rewrite Hc. by f_equal.
Qed.

Lemma contains_pair (p : N -> bool) (x y : N) (s : str) :
  adjacent p s = false -> p x = true -> p y = true -> contains s [x; y] = false.
Proof.
  intros Ha Hx Hy. induction s as [|c s IH]; [reflexivity|].
  cbn [contains]. destruct s as [|d s].
  - simpl. by rewrite andb_false_r.
  - simpl in Ha. apply orb_false_iff in Ha as [Hcd Ha].
    rewrite (IH Ha), orb_false_r. cbn [startswith].
    destruct (N.eqb_spec x c) as [<-|]; [|reflexivity].
    destruct (N.eqb_spec y d) as [<-|]; [|reflexivity].
    by rewrite Hx, Hy in Hcd.
Qed.

Lemma startswith_char (s : str) (x : N) : startswith s [x] = false <-> head s <> Some x.
Proof.
  destruct s as [|c s]; simpl; [split; [discriminate | reflexivity]|].
  rewrite startswith_nil, andb_true_r, N.eqb_neq. split; congruence.
Qed.

Lemma endswith_char (s : str) (x : N) : endswith s [x] = false <-> last s <> Some x.
Proof. unfold endswith. cbn [rev app]. by rewrite startswith_char, head_rev_last. Qed.

Lemma mem_elem_of (c : N) (cs : str) : mem c cs = true <-> c ∈ cs.
Proof.
  unfold mem. induction cs as [|x cs IH]; simpl.
  - split; [discriminate | intros H; by apply elem_of_nil in H].
  - rewrite orb_true_iff, IH, N.eqb_eq, elem_of_cons. reflexivity.
Qed.

End Strings.

(** ** Comparison keys and slugs *)

Section Keys.
Context {R : Runtime}.

Lemma u8_space : u8 " " = [32].
Proof. reflexivity. Qed.

Lemma adjacent_infix (p : N -> bool) (pre s suf : str) :
  adjacent p (pre ++ s ++ suf) = false -> adjacent p s = false.
Proof.
  intros H. apply adjacent_app in H as [_ H]. by apply adjacent_app in H as [H _].
Qed.

Lemma adjacent_strip_by (p q : N -> bool) (s : str) :
  adjacent p s = false -> adjacent p (strip_by q s) = false.
Proof.
  intros H. destruct (strip_by_split q s) as (pre & suf & E & _).
  rewrite E in H. by apply adjacent_infix in H.
Qed.

(** What the two substitutions and the final [strip] of a normalization
    leave, whatever the text was. *)
Lemma normalized_canonical (t : str) :
  canonical_key
    (strip (re_sub_class_plus is_space (u8 " ")
              (re_sub_class_plus (fun c => negb (is_lower_az c || is_digit_09 c))
                 (u8 " ") t))).
Proof.
  unfold canonical_key, re_sub_class_plus, strip. rewrite !u8_space.
  replace (u8 "  ") with [32; 32] by reflexivity.
  set (s4 := sub_runs _ [32] t false).
  set (s5 := sub_runs is_space [32] s4 false).
  assert (Hends : forall c, head (strip_by is_space s5) = Some c
                            \/ last (strip_by is_space s5) = Some c -> c <> 32).
  { intros c Hc. apply strip_by_ends in Hc. intros ->. discriminate Hc. }
  repeat split.
  - apply Forall_strip_by, Forall_forall. intros c Hc.
    apply sub_runs_elem in Hc as [[Hc _] | Hc].
    + apply sub_runs_elem in Hc as [[_ Hc] | Hc].
      * apply negb_false_iff in Hc. unfold key_char. by rewrite Hc.
      * apply list_elem_of_singleton in Hc as ->. reflexivity.
    + apply list_elem_of_singleton in Hc as ->. reflexivity.
  - apply startswith_char. intros H. by apply (Hends 32); [left|].
  - apply endswith_char. intros H. by apply (Hends 32); [right|].
  - apply (contains_pair is_space); [|reflexivity..].
    apply adjacent_strip_by, sub_runs_not_adjacent.
Qed.

(** X1. The comparison keys of both scripts are in normal form, whatever the
    title and whatever the interpreter's Unicode tables: a key consists of
    the characters a-z, 0-9 and the space only, has no space at either end
    and no two spaces in a row. *)
Theorem title_keys_are_canonical (title : str) :
  canonical_key (Repair._norm title) /\ canonical_key (Update._norm_title title).
Proof. split; apply normalized_canonical. Qed.

Lemma adjacent_map (p q : N -> bool) (f : N -> N) (s : str) :
  (forall c, c ∈ s -> q (f c) = true -> p c = true) ->
  adjacent p s = false -> adjacent q (map f s) = false.
Proof.
  induction s as [|x s IH]; [reflexivity|]. destruct s as [|y s]; [reflexivity|].
  intros Hf H.
  change (adjacent p (x :: y :: s)) with ((p x && p y) || adjacent p (y :: s)) in H.
  change (adjacent q (map f (x :: y :: s)))
    with ((q (f x) && q (f y)) || adjacent q (map f (y :: s))).
  apply orb_false_iff in H as [Hxy H].
  rewrite (IH (fun c Hc => Hf c (list_elem_of_further _ _ _ Hc)) H), orb_false_r.
  destruct (q (f x)) eqn:Hx; [|reflexivity].
  destruct (q (f y)) eqn:Hy; [|reflexivity].
  assert (p x = true) as Hpx by (apply Hf; [left | done]).
  assert (p y = true) as Hpy by (apply Hf; [right; left | done]).
  by rewrite Hpx, Hpy in Hxy.
Qed.

Lemma contains_adjacent (p : N -> bool) (x : N) (s : str) :
  contains s [x; x] = false -> (forall c, p c = true -> c = x) -> adjacent p s = false.
Proof.
  intros H Hp. induction s as [|c s IH]; [reflexivity|]. destruct s as [|d s]; [reflexivity|].
  cbn [contains] in H. apply orb_false_iff in H as [Hs H].
  change (adjacent p (c :: d :: s)) with ((p c && p d) || adjacent p (d :: s)).
  rewrite (IH H), orb_false_r.
  destruct (p c) eqn:Hc; [|reflexivity]. destruct (p d) eqn:Hd; [|reflexivity].
  apply Hp in Hc as ->. apply Hp in Hd as ->.
  cbn [startswith] in Hs. by rewrite N.eqb_refl, startswith_nil in Hs.
Qed.

(** X2. The slug of a title, the stem of a fallback file name: never empty,
    at most 80 characters, of a-z, 0-9 and hyphens only, with no hyphen at
    either end and no two hyphens in a row. *)
Theorem slug_shape (title : str) :
  Update._slug title <> []
  /\ (length (Update._slug title) <= 80)%nat
  /\ Forall (fun c => slug_char c = true) (Update._slug title)
  /\ startswith (Update._slug title) (u8 "-") = false
  /\ endswith (Update._slug title) (u8 "-") = false
  /\ contains (Update._slug title) (u8 "--") = false.
Proof.
  unfold Update._slug.
  destruct (normalized_canonical (casefold title)) as (Hchars & _ & _ & Hpair).
  fold (Update._norm_title title) in Hchars, Hpair.
  set (k := Update._norm_title title) in *.
  replace (u8 " ") with [32] by reflexivity.
  replace (u8 "-") with [45] by reflexivity.
  replace (u8 "--") with [45; 45] by reflexivity.
  replace (u8 "  ") with [32; 32] in Hpair by reflexivity.
  rewrite replace_char. unfold strip_chars.
  set (q := fun c => mem c [45]).
  set (s2 := map (fun c => if c =? 32 then 45 else c) k).
  set (s3 := strip_by q (take 80 s2)).
  assert (Hq : forall c, q c = true -> c = 45).
  { intros c. unfold q. simpl. rewrite orb_false_r. apply N.eqb_eq. }
  assert (Hlen : (length s3 <= 80)%nat).
  { destruct (strip_by_split q (take 80 s2)) as (pre & suf & E & _).
    apply (f_equal length) in E. rewrite !length_app, length_take in E. fold s3 in E. lia. }
  assert (Hs2 : Forall (fun c => slug_char c = true) s2).
  { apply Forall_forall. intros c Hc. apply list_elem_of_fmap in Hc as (x & -> & Hx).
    rewrite Forall_forall in Hchars. apply Hchars in Hx. unfold key_char in Hx.
    unfold slug_char. destruct (N.eqb_spec x 32); [reflexivity|].
    rewrite orb_false_r in Hx. by rewrite Hx. }
  assert (Hs3 : Forall (fun c => slug_char c = true) s3).
  { apply Forall_strip_by, Forall_take, Hs2. }
  assert (Hadj : adjacent q s3 = false).
  { apply adjacent_strip_by.
    assert (adjacent q s2 = false) as Hadj2.
    { apply (adjacent_map (fun c => c =? 32)).
      - intros c Hc Hqc. apply Hq in Hqc. destruct (N.eqb_spec c 32) as [|Hne]; [done|].
        subst c. rewrite Forall_forall in Hchars. apply Hchars in Hc. discriminate Hc.
      - apply (contains_adjacent _ 32); [exact Hpair|]. intros c. apply N.eqb_eq. }
    rewrite <- (take_drop 80 s2) in Hadj2. by apply adjacent_app in Hadj2 as [Hadj2 _]. }
  assert (Hends : forall c, head s3 = Some c \/ last s3 = Some c -> c <> 45).
  { intros c Hc. apply strip_by_ends in Hc. intros ->. discriminate Hc. }
  destruct (nonempty s3) eqn:Hne.
  - apply nonempty_true in Hne. repeat split; auto.
    + apply startswith_char. intros H. by apply (Hends 45); [left|].
    + apply endswith_char. intros H. by apply (Hends 45); [right|].
    + by apply (contains_pair q).
  - split; [intros H; vm_compute in H; discriminate H|].
    split; [vm_compute; lia|].
    split; [by vm_compute; repeat constructor|].
    repeat split; reflexivity.
Qed.

End Keys.

(** ** Corrupted characters *)

Section Mojibake.

Ltac find_char :=
  solve [ apply list_elem_of_here
        | apply list_elem_of_further; find_char
        | apply elem_of_app; left; find_char
        | apply elem_of_app; right; find_char ].

(** X3. The repair of corrupted characters leaves alone every text that has
    none of the four characters a corrupted sequence of the table starts
    with or goes through; in particular every ASCII text. *)
Theorem fix_mojibake_keeps_clean_text (s : str)
    (Hclean : Forall (fun c => c ∉ mojibake_lead) s) :
  Repair._fix_mojibake s = s.
Proof.
  assert (Hno : forall c, c ∈ mojibake_lead -> c ∉ s).
  { intros c Hc Hs. rewrite Forall_forall in Hclean. by apply (Hclean c Hs). }
  assert (H195 : 195 ∉ s) by (apply Hno; unfold mojibake_lead; find_char).
  assert (H226 : 226 ∉ s) by (apply Hno; unfold mojibake_lead; find_char).
  assert (H8730 : 8730 ∉ s) by (apply Hno; unfold mojibake_lead; find_char).
  assert (H224 : 224 ∉ s) by (apply Hno; unfold mojibake_lead; find_char).
  unfold Repair._fix_mojibake, Repair._MOJIBAKE_REPL. cbn [foldl].
  rewrite !(replace_absent _ _ s 195) by (first [exact H195 | find_char]).
  rewrite !(replace_absent _ _ s 226) by (first [exact H226 | find_char]).
  rewrite !(replace_absent _ _ s 195) by (first [exact H195 | find_char]).
  rewrite (replace_absent _ _ s 8730) by (first [exact H8730 | find_char]).
  rewrite (replace_absent _ _ s 195) by (first [exact H195 | find_char]).
  rewrite (replace_absent _ _ s 224) by (first [exact H224 | find_char]).
  reflexivity.
Qed.

End Mojibake.

Lemma fix_mojibake_keeps_clean_text_witness :
  Forall (fun c => c ∉ mojibake_lead) (u8 "Martin, F. and Rico, J.")
  /\ Repair._fix_mojibake (u8 "Martin, F. and Rico, J.") = u8 "Martin, F. and Rico, J.".
Proof.
  assert (H : Forall (fun c => c ∉ mojibake_lead) (u8 "Martin, F. and Rico, J.")).
  { apply Forall_forall. intros c Hc Hm. apply list_elem_of_In in Hc, Hm.
    vm_compute in Hc, Hm. intuition congruence. }
  split; [exact H | exact (fix_mojibake_keeps_clean_text _ H)].
Defined.

(** ** Reading the profile *)

Section Fetch.
Context {R : Runtime}.

Lemma dedup_from_fresh (seen : gset (str * str)) (l : list Update.Pub) :
  NoDup (Update.dedup_key <$> l) ->
  (forall p, p ∈ l -> Update.dedup_key p ∉ seen) ->
  Update.dedup_from seen l = l.
Proof.
  revert seen. induction l as [|p l IH]; intros seen Hnd Hseen; [reflexivity|].
  cbn [Update.dedup_from]. rewrite fmap_cons in Hnd. apply NoDup_cons in Hnd as [Hp Hnd].
  rewrite bool_decide_eq_false_2 by (apply Hseen; left).
  f_equal. apply IH; [exact Hnd|].
  intros q Hq Hin. apply elem_of_union in Hin as [Hin | Hin].
  - apply elem_of_singleton in Hin. apply Hp. rewrite <- Hin.
    apply list_elem_of_fmap. eauto.
  - apply (Hseen q); [by right | exact Hin].
Qed.

(** X4. Deduplicating twice is deduplicating once: what survives has no two
    rows of one key, so a second pass over it drops nothing. *)
Theorem dedup_is_idempotent (all_pubs : list Update.Pub) :
  Update.dedup (Update.dedup all_pubs) = Update.dedup all_pubs
  /\ NoDup (Update.dedup_key <$> Update.dedup all_pubs).
Proof.
  destruct (dedup_keeps_one_per_key all_pubs) as (_ & Hnd & _).
  split; [|exact Hnd].
  apply dedup_from_fresh; [exact Hnd|]. intros p _. apply not_elem_of_empty.
Qed.

Lemma mapM_seq_S {A} (f : nat -> option A) (a k : nat) :
  mapM f (seq (S a) k) = mapM (fun j => f (S j)) (seq a k).
Proof.
  revert a. induction k as [|k IH]; intros a; [reflexivity|].
  cbn [seq mapM]. by rewrite IH.
Qed.

Lemma fetch_pages_prefix (W : Update.World) (n c k : nat) :
  (k <= n)%nat ->
  k = n \/ Update.profile_rows W (c + k * Update.PAGESIZE) = Some [] ->
  (forall j, (j < k)%nat -> Update.profile_rows W (c + j * Update.PAGESIZE) <> Some []) ->
  Update.fetch_pages W n c
  = (fun pages => concat pages) <$> mapM (fun j => Update.profile_rows W (c + j * Update.PAGESIZE)) (seq 0 k).
Proof.
  revert n c. induction k as [|k IH]; intros n c Hk Hlast Hbefore.
  - destruct n as [|n]; [reflexivity|]. destruct Hlast as [? | Hlast]; [lia|].
    cbn [Update.fetch_pages]. rewrite Nat.add_0_r in Hlast. by rewrite Hlast.
  - destruct n as [|n]; [lia|]. cbn [Update.fetch_pages seq mapM].
    rewrite mapM_seq_S. rewrite Nat.add_0_r.
    pose proof (Hbefore 0%nat ltac:(lia)) as H0. rewrite Nat.add_0_r in H0.
    destruct (Update.profile_rows W c) as [[|p ps]|]; [done| |reflexivity].
    cbn [mbind option_bind].
    rewrite (IH n (c + Update.PAGESIZE)%nat).
    + assert (forall j, (c + Update.PAGESIZE + j * Update.PAGESIZE
                         = c + S j * Update.PAGESIZE)%nat) as E by (intros; lia).
      erewrite (mapM_ext _ (fun j => Update.profile_rows W (c + S j * Update.PAGESIZE)));
        [|intros j; by rewrite E].
      destruct (mapM _ (seq 0 k)); reflexivity.
    + lia.
    + destruct Hlast as [Hlast | Hlast]; [left; lia | right].
      rewrite <- Hlast. f_equal. lia.
    + intros j Hj. replace (c + Update.PAGESIZE + j * Update.PAGESIZE)%nat
        with (c + S j * Update.PAGESIZE)%nat by lia.
      apply Hbefore. lia.
Qed.

(** X5. The profile is read page by page, fifty pages at most, and the
    reading stops at the first page without rows: the result is the
    deduplicated rows of the pages before it, in order; a page after it is
    never asked for, and a request that fails on the way makes the whole
    call fail. *)
Theorem fetch_stops_at_first_empty_page (W : Update.World) (k : nat)
    (Hk : (k <= 50)%nat)
    (Hlast : k = 50%nat \/ Update.profile_rows W (k * Update.PAGESIZE) = Some [])
    (Hbefore : forall j, (j < k)%nat ->
                 Update.profile_rows W (j * Update.PAGESIZE) <> Some []) :
  Update.fetch_scholar_publications W
  = (fun pages => Update.dedup (concat pages))
      <$> mapM (fun j => Update.profile_rows W (j * Update.PAGESIZE)) (seq 0 k).
Proof.
  unfold Update.fetch_scholar_publications.
  rewrite (fetch_pages_prefix W 50 0 k Hk Hlast Hbefore). simpl.
  destruct (mapM _ (seq 0 k)); reflexivity.
Qed.

End Fetch.

(** A profile of one page: the second page has no rows, the others are not
    there to be read. *)
Lemma fetch_stops_at_first_empty_page_witness :
  let R := AsciiRuntime.ascii_runtime in
  let W := Examples.one_page_profile in
  ((1 <= 50)%nat
   /\ Update.profile_rows W (1 * Update.PAGESIZE) = Some []
   /\ Update.profile_rows W (2 * Update.PAGESIZE) = None)
  /\ Update.fetch_scholar_publications W
     = (fun pages => Update.dedup (concat pages))
         <$> mapM (fun j => Update.profile_rows W (j * Update.PAGESIZE)) (seq 0 1).
Proof.
  split; [repeat split; lia|].
  apply (fetch_stops_at_first_empty_page (R := AsciiRuntime.ascii_runtime)
           Examples.one_page_profile 1).
  - lia.
  - right. reflexivity.
  - intros j Hj. assert (j = 0%nat) as -> by lia. discriminate.
Defined.

(** ** The projects page *)

Section ProjectsPage.
Context {R : Runtime}.

Lemma filter_partition_perm {A} (f : A -> bool) (l : list A) :
  List.filter (fun x => negb (f x)) l ++ List.filter f l ≡ₚ l.
Proof.
  induction l as [|x l IH]; simpl; [reflexivity|].
  destruct (f x); simpl.
  - rewrite <- Permutation_middle. by constructor.
  - by constructor.
Qed.

Lemma filter_partition_length {A} (f : A -> bool) (l : list A) :
  (length (List.filter (fun x => negb (f x)) l) + length (List.filter f l)
   = length l)%nat.
Proof. rewrite <- length_app. apply Permutation_length, filter_partition_perm. Qed.

(** X6. Whenever the split of the projects returns, it is the partition of
    the projects by [is_past]: the past ones are the projects whose title
    is forced into the past or whose end date is a day before today, the
    ongoing ones are all the others, both in the order of the input; every
    project is in exactly one of the two lists, and the two counts that the
    run prints add up to the number of projects. *)
Theorem split_partitions_projects (today : Projects.date)
    (projects ongoing past : list Projects.CompetitiveProject)
    (Hret : Projects.split_ongoing_past today projects = Projects.Returned (ongoing, past)) :
  past = List.filter (is_past today) projects
  /\ ongoing = List.filter (fun p => negb (is_past today p)) projects
  /\ ongoing ++ past ≡ₚ projects
  /\ (length ongoing + length past = length projects)%nat.
Proof.
  apply split_ongoing_past_returned in Hret as [-> ->].
  repeat split; [apply filter_partition_perm | apply filter_partition_length].
Qed.

Lemma split_returns_iff (today : Projects.date) (projects : list Projects.CompetitiveProject) :
  (exists r, Projects.split_ongoing_past today projects = Projects.Returned r)
  <-> Forall (fun p => Projects.forced_past p = true \/ date_reads (Projects.end_ p))
             projects.
Proof.
  split.
  - intros [r Hr]. revert r Hr. induction projects as [|p l IH]; intros r; simpl;
      [constructor|].
    destruct (Projects.forced_past p) eqn:Hf.
    + destruct (Projects.split_ongoing_past today l) as [r'|]; [|discriminate].
      intros _. constructor; [by left | by eapply IH].
    + unfold date_reads.
      destruct (Projects._parse_date (Projects.end_ p)) as [e|] eqn:He; [|discriminate].
      destruct (Projects.split_ongoing_past today l) as [r'|]; [|discriminate].
      intros _. constructor; [right; by rewrite He | by eapply IH].
  - intros H. apply (split_ongoing_past_returns today) in H as (o & pa & ->). eauto.
Qed.

Lemma year_interval_returns_iff (s e : str) :
  (exists i, Projects._year_interval s e = Projects.Returned i)
  <-> date_reads s /\ date_reads e.
Proof.
  unfold Projects._year_interval, date_reads.
  destruct (Projects._parse_date s) as [ds|]; destruct (Projects._parse_date e) as [de|];
    split; try (intros [i Hi]; discriminate); try (intros [? ?]; done); eauto.
Qed.

Lemma project_card_returns_iff (p : Projects.CompetitiveProject) (links : gmap str str) :
  (exists c, Projects.project_card p links = Projects.Returned c)
  <-> date_reads (Projects.start p) /\ date_reads (Projects.end_ p).
Proof.
  rewrite <- year_interval_returns_iff. unfold Projects.project_card.
  destruct (Projects._year_interval (Projects.start p) (Projects.end_ p));
    split; intros [? ?]; try discriminate; eauto.
Qed.

Lemma card_parts_returns_iff (projects : list Projects.CompetitiveProject)
    (links : gmap str str) :
  (exists parts, Projects.card_parts projects links = Projects.Returned parts)
  <-> Forall (fun p => Projects.excluded p = true
                       \/ (date_reads (Projects.start p) /\ date_reads (Projects.end_ p)))
             projects.
Proof.
  induction projects as [|p l IH]; simpl.
  - split; [constructor | eauto].
  - rewrite Forall_cons, <- IH, <- (project_card_returns_iff p links).
    destruct (Projects.excluded p).
    + split; [intros H; split; [by left | exact H] | intros [_ H]; exact H].
    + destruct (Projects.project_card p links) as [c|].
      * destruct (Projects.card_parts l links) as [m|].
        -- split; eauto.
        -- split; [intros [? ?]; discriminate | intros [_ [? ?]]; discriminate].
      * split; [intros [? ?]; discriminate | intros [[? | [? ?]] _]; discriminate].
Qed.

Lemma render_returns_iff (projects : list Projects.CompetitiveProject)
    (links : gmap str str) :
  (exists h, Projects.render_competitive_cards projects links = Projects.Returned h)
  <-> Forall (fun p => Projects.excluded p = true
                       \/ (date_reads (Projects.start p) /\ date_reads (Projects.end_ p)))
             projects.
Proof.
  rewrite <- (card_parts_returns_iff projects links).
  unfold Projects.render_competitive_cards.
  destruct (Projects.card_parts projects links) as [parts|].
  - split; intros _; eauto.
  - split; intros [? ?]; discriminate.
Qed.

Lemma title_line_is_title (t : str) : is_title_line (Projects.title_line t) = true.
Proof. apply startswith_spec. eexists. reflexivity. Qed.

(** Filtering the title lines out of a list of lines built with [++], [::]
    and conditionals: [Ht] is the one title line, the other lines differ
    from a title line in their first characters. *)
Ltac filter_title_lines Ht :=
  repeat first
    [ rewrite List.filter_app
    | rewrite Ht
    | match goal with
      | |- context [is_title_line ?l] =>
          let H := fresh in
          assert (is_title_line l = false) as H by (vm_compute; reflexivity);
          rewrite H; clear H
      end
    | progress cbn [List.filter app]
    | case_match ].

Lemma project_card_titles (p : Projects.CompetitiveProject) (links : gmap str str)
    (card : list str) :
  Projects.project_card p links = Projects.Returned card ->
  List.filter is_title_line card = [Projects.title_line (Projects.title p)].
Proof.
  unfold Projects.project_card.
  destruct (Projects._year_interval _ _) as [interval|]; [|discriminate].
  intros [= <-].
  generalize (Projects._esc interval) (Projects._esc (join (u8 ", ") (Projects.pis p)))
    (Projects._esc (Projects.funder p)).
  intros v1 v2 v3.
  pose proof (title_line_is_title (Projects.title p)) as Ht.
  set (tl := Projects.title_line (Projects.title p)) in *. clearbody tl.
  filter_title_lines Ht; reflexivity.
Qed.

Lemma card_parts_titles (projects : list Projects.CompetitiveProject)
    (links : gmap str str) (parts : list str) :
  Projects.card_parts projects links = Projects.Returned parts ->
  List.filter is_title_line parts
  = (fun p => Projects.title_line (Projects.title p))
      <$> List.filter (fun p => negb (Projects.excluded p)) projects.
Proof.
  revert parts. induction projects as [|p l IH]; intros parts; simpl.
  - by intros [= <-].
  - destruct (Projects.excluded p); simpl; [apply IH|].
    destruct (Projects.project_card p links) as [card|] eqn:Hc; [|discriminate].
    destruct (Projects.card_parts l links) as [more|]; [|discriminate].
    intros [= <-]. rewrite List.filter_app, (project_card_titles _ _ _ Hc), (IH more eq_refl).
    reflexivity.
Qed.

(** The loop of the cards goes through the projects that are not excluded,
    and appends the card of each. *)
Lemma card_parts_cards (projects : list Projects.CompetitiveProject)
    (links : gmap str str) (parts : list str) :
  Projects.card_parts projects links = Projects.Returned parts ->
  exists cards,
    Forall2 (fun p card => Projects.project_card p links = Projects.Returned card)
            (List.filter (fun p => negb (Projects.excluded p)) projects) cards
    /\ parts = concat cards.
Proof.
  revert parts. induction projects as [|p l IH]; intros parts; simpl.
  - intros [= <-]. exists []. split; [constructor | reflexivity].
  - destruct (Projects.excluded p); simpl; [apply IH|].
    destruct (Projects.project_card p links) as [card|] eqn:Hc; [|discriminate].
    destruct (Projects.card_parts l links) as [more|]; [|discriminate].
    intros [= <-]. destruct (IH more eq_refl) as (cards & Hcards & ->).
    exists (card :: cards). split; [by constructor | reflexivity].
Qed.

Lemma title_line_inj (t u : str) :
  Projects.title_line t = Projects.title_line u -> t = u.
Proof.
  unfold Projects.title_line, Projects._esc. intros H.
  apply app_inv_head in H. by apply esc_app_inj in H as [? _].
Qed.

(** The title line of an excluded project is no line of the cards. *)
Lemma excluded_title_not_written (projects : list Projects.CompetitiveProject)
    (links : gmap str str) (parts : list str) (p : Projects.CompetitiveProject) :
  Projects.card_parts projects links = Projects.Returned parts ->
  Projects.excluded p = true ->
  Projects.title_line (Projects.title p) ∉ parts.
Proof.
  intros Hparts Hex Hin.
  assert (Projects.title_line (Projects.title p) ∈ List.filter is_title_line parts) as Ht.
  { apply list_elem_of_In, filter_In. split; [by apply list_elem_of_In|].
    apply title_line_is_title. }
  rewrite (card_parts_titles _ _ _ Hparts) in Ht.
  apply list_elem_of_fmap in Ht as (q & Hq & Hkept).
  apply title_line_inj in Hq.
  apply list_elem_of_In, filter_In in Hkept as [_ Hkept].
  unfold Projects.excluded in Hex, Hkept. rewrite <- Hq in Hkept.
  rewrite Hex in Hkept. discriminate Hkept.
Qed.

(** X8. The cards of a list of projects: when the rendering returns, the
    text is the opening line, then the lines of the card of every project
    whose normalized title is not on the list of excluded titles, card after
    card in the order of the input, then the closing line, and nothing else.
    An excluded project leaves no card: its title line is no line of the
    text. *)
Theorem rendered_cards_are_the_kept_projects
    (projects : list Projects.CompetitiveProject) (links : gmap str str) (html : str)
    (Hret : Projects.render_competitive_cards projects links = Projects.Returned html) :
  exists cards,
    Forall2 (fun p card => Projects.project_card p links = Projects.Returned card)
            (List.filter (fun p => negb (Projects.excluded p)) projects) cards
    /\ html = join [10] ([lit "<div class=`proj-list`>"] ++ concat cards ++ [u8 "</div>"])
    /\ Forall (fun p => Projects.excluded p = true ->
                        Projects.title_line (Projects.title p) ∉ concat cards) projects.
Proof.
  unfold Projects.render_competitive_cards in Hret.
  destruct (Projects.card_parts projects links) as [parts|] eqn:Hp; [|discriminate].
  injection Hret as <-.
  destruct (card_parts_cards projects links parts Hp) as (cards & Hcards & ->).
  exists cards. split; [exact Hcards|]. split; [reflexivity|].
  apply Forall_forall. intros p _ Hex.
  exact (excluded_title_not_written projects links (concat cards) p Hp Hex).
Qed.

Lemma Forall_filter_both {A} (P : A -> Prop) (f : A -> bool) (l : list A) :
  Forall P (List.filter (fun x => negb (f x)) l) /\ Forall P (List.filter f l)
  <-> Forall P l.
Proof.
  rewrite <- Forall_app. split; intros H; eapply Permutation_Forall; try exact H.
  - apply filter_partition_perm.
  - symmetry. apply filter_partition_perm.
Qed.

(** X7. When the run of the projects script completes.  It reaches the
    writing of the page exactly when the projects could be fetched and, of
    every project, the end date is read without raising unless the title is
    forced into the past (the split), and both dates are read without
    raising unless the title is excluded from the page (the cards).  A
    project forced into the past with an end date that raises passes the
    split and still stops the run at its card. *)
Theorem projects_run_completes (W : Projects.World) :
  (exists run, Projects.main W = Projects.Returned run)
  <-> exists projects,
        Projects.fetch_competitive_projects W = Projects.Returned projects
        /\ Forall (fun p =>
                     (Projects.forced_past p = true \/ date_reads (Projects.end_ p))
                     /\ (Projects.excluded p = true
                         \/ (date_reads (Projects.start p) /\ date_reads (Projects.end_ p))))
                  projects.
Proof.
  unfold Projects.main.
  destruct (Projects.fetch_competitive_projects W) as [pl|];
    [|split; [intros [? ?]; discriminate | intros (? & ? & _); discriminate]].
  set (links := Projects.load_project_links W).
  match goal with
  | |- _ <-> (exists ps, _ = Projects.Returned ps /\ Forall ?P ps) =>
      assert ((exists ps, Projects.Returned pl = Projects.Returned ps /\ Forall P ps)
              <-> Forall P pl) as ->
        by (split; [intros (ps & [= <-] & H); exact H | eauto])
  end.
  rewrite Forall_and.
  rewrite <- (split_returns_iff (Projects.today W)).
  rewrite <- (Forall_filter_both _ (is_past (Projects.today W)) pl).
  rewrite <- !(render_returns_iff _ links).
  destruct (Projects.split_ongoing_past (Projects.today W) pl) as [[o pa]|] eqn:Hs.
  - apply split_ongoing_past_returned in Hs as [-> ->].
    destruct (Projects.render_competitive_cards _ links) as [oh|].
    + destruct (Projects.render_competitive_cards _ links) as [ph|].
      * split; [intros _; eauto 10 | eauto].
      * split; [intros [? ?]; discriminate|].
        intros (_ & _ & [? ?]). discriminate.
    + split; [intros [? ?]; discriminate|].
      intros (_ & [? ?] & _). discriminate.
  - split; [intros [? ?]; discriminate|].
    intros ([? ?] & _). discriminate.
Qed.

Lemma filter_filter_andb {A} (f g : A -> bool) (l : list A) :
  List.filter f (List.filter g l) = List.filter (fun x => f x && g x) l.
Proof.
  induction l as [|x l IH]; simpl; [reflexivity|].
  destruct (g x); simpl; [destruct (f x); simpl; by rewrite IH | by rewrite andb_false_r].
Qed.

(** X17. The sections of the projects page.  When the run completes, the
    section of the ongoing projects is the opening line, the cards of the
    projects that are neither excluded nor past, and the closing line; the
    section of the past projects is the same with the cards of those that
    are not excluded and past; each section has its cards in the order of
    the fetched list and nothing else.  So every project that is not
    excluded has its card in exactly one of the two sections, and the third
    section is the list of the open source projects. *)
Theorem projects_page_sections (W : Projects.World) (run : Projects.Run)
    (Hrun : Projects.main W = Projects.Returned run) :
  exists projects ongoing_cards past_cards,
    Projects.fetch_competitive_projects W = Projects.Returned projects
    /\ Forall2 (fun p card => Projects.project_card p (Projects.load_project_links W)
                              = Projects.Returned card)
               (List.filter (fun p => negb (Projects.excluded p)
                                      && negb (is_past (Projects.today W) p)) projects)
               ongoing_cards
    /\ Forall2 (fun p card => Projects.project_card p (Projects.load_project_links W)
                              = Projects.Returned card)
               (List.filter (fun p => negb (Projects.excluded p)
                                      && is_past (Projects.today W) p) projects)
               past_cards
    /\ Projects.ongoing_html run
       = join [10] ([lit "<div class=`proj-list`>"] ++ concat ongoing_cards
                    ++ [u8 "</div>"])
    /\ Projects.past_html run
       = join [10] ([lit "<div class=`proj-list`>"] ++ concat past_cards ++ [u8 "</div>"])
    /\ Projects.oss_html run = Projects.render_open_source_cards.
Proof.
  unfold Projects.main in Hrun.
  destruct (Projects.fetch_competitive_projects W) as [projects|]; [|discriminate].
  destruct (Projects.split_ongoing_past (Projects.today W) projects) as [[o pa]|] eqn:Hs;
    [|discriminate].
  apply split_ongoing_past_returned in Hs as [-> ->].
  unfold Projects.render_competitive_cards in Hrun.
  destruct (Projects.card_parts _ (Projects.load_project_links W)) as [po|] eqn:Ho;
    [|discriminate].
  destruct (Projects.card_parts (List.filter (is_past _) _) _) as [pp|] eqn:Hp;
    [|discriminate].
  injection Hrun as <-. cbn [Projects.ongoing_html Projects.past_html Projects.oss_html].
  destruct (card_parts_cards _ _ _ Ho) as (oc & Hoc & ->).
  destruct (card_parts_cards _ _ _ Hp) as (pc & Hpc & ->).
  rewrite filter_filter_andb in Hoc, Hpc.
  exists projects, oc, pc. repeat split; assumption.
Qed.

End ProjectsPage.

(** Three projects on 15 February 2026, and a fourth that is excluded from
    the page later. *)
Lemma split_partitions_projects_witness :
  let R := AsciiRuntime.ascii_runtime in
  let ps := Examples.some_projects in
  exists ongoing past,
    Projects.split_ongoing_past Examples.a_day ps = Projects.Returned (ongoing, past)
    /\ past = List.filter (is_past Examples.a_day) ps
    /\ ongoing ++ past ≡ₚ ps
    /\ (length ongoing = 2 /\ length past = 2)%nat.
Proof.
  intros R ps.
  destruct (Projects.split_ongoing_past Examples.a_day ps) as [[o pa]|] eqn:E;
    [|vm_compute in E; discriminate E].
  exists o, pa.
  destruct (split_partitions_projects (R := AsciiRuntime.ascii_runtime) _ _ _ _ E)
    as (Hp & Ho & Hperm & Hlen).
  split; [reflexivity|]. split; [exact Hp|]. split; [exact Hperm|].
  vm_compute in E. injection E as <- <-. split; reflexivity.
Defined.

(** The four projects: the card of the excluded one is not written. *)
Lemma rendered_cards_are_the_kept_projects_witness :
  let R := AsciiRuntime.ascii_runtime in
  let ps := Examples.some_projects in
  let links := Projects.load_project_links Examples.projects_world in
  exists html cards,
    Projects.render_competitive_cards ps links = Projects.Returned html
    /\ html = join [10] ([lit "<div class=`proj-list`>"] ++ concat cards ++ [u8 "</div>"])
    /\ length cards = 3%nat
    /\ Projects.title_line (u8 "RLD MOCAP4ROS2") ∉ concat cards.
Proof.
  intros R ps links.
  destruct (Projects.render_competitive_cards ps links) as [html|] eqn:E;
    [|vm_compute in E; discriminate E].
  destruct (rendered_cards_are_the_kept_projects (R := AsciiRuntime.ascii_runtime) _ _ _ E)
    as (cards & Hcards & Hh & Hex).
  exists html, cards. split; [reflexivity|]. split; [exact Hh|]. split.
  - apply Forall2_length in Hcards. rewrite <- Hcards. vm_compute. reflexivity.
  - rewrite Forall_forall in Hex.
    apply (Hex (Examples.mk_project (u8 "RLD MOCAP4ROS2") (u8 "31/12/2021"))).
    + subst ps. unfold Examples.some_projects. do 3 apply list_elem_of_further.
      apply list_elem_of_here.
    + vm_compute. reflexivity.
Defined.

(** The run on the four projects: two cards in the first section, one in
    the last. *)
Lemma projects_page_sections_witness :
  let R := AsciiRuntime.ascii_runtime in
  exists run ongoing_cards past_cards,
    Projects.main Examples.projects_world = Projects.Returned run
    /\ Projects.ongoing_html run
       = join [10] ([lit "<div class=`proj-list`>"] ++ concat ongoing_cards
                    ++ [u8 "</div>"])
    /\ Projects.past_html run
       = join [10] ([lit "<div class=`proj-list`>"] ++ concat past_cards ++ [u8 "</div>"])
    /\ length ongoing_cards = 2%nat /\ length past_cards = 1%nat.
Proof.
  intros R.
  destruct (Projects.main Examples.projects_world) as [run|] eqn:E;
    [|vm_compute in E; discriminate E].
  destruct (projects_page_sections (R := AsciiRuntime.ascii_runtime) _ _ E)
    as (ps & oc & pc & Hf & Hoc & Hpc & Ho & Hp & _).
  unfold Examples.projects_world in Hf. cbn [Projects.fetch_competitive_projects] in Hf.
  injection Hf as <-.
  exists run, oc, pc. split; [reflexivity|]. split; [exact Ho|]. split; [exact Hp|].
  apply Forall2_length in Hoc, Hpc. rewrite <- Hoc, <- Hpc.
  split; vm_compute; reflexivity.
Defined.

(** ** The matcher finds a match when there is one *)

Section MatcherComplete.

Lemma reaches_position (r : Re.re) (st st' : Re.mstate) :
  reaches r st st' ->
  (Re.m_pos st <= Re.m_pos st'
   /\ length (Re.m_rest st) = length (Re.m_rest st') + (Re.m_pos st' - Re.m_pos st))%nat.
Proof.
  intros H. apply reaches_consumes in H as (c & n & E & P & _).
  rewrite E, P, length_app. lia.
Qed.

Lemma reaches_consuming (r : Re.re) (st st' : Re.mstate) :
  reaches r st st' -> consuming r = true -> (Re.m_pos st < Re.m_pos st')%nat.
Proof.
  induction 1 as [st|p c t pos caps Hp|a b st1 st2 st3 H1 IH1 H2 IH2
                 |a b st st' _ IH|a b st st' _ IH|g a st
                 |g a st1 st2 st3 _ IH1 _ IH2|i a st st' _ IH|st Hz]; simpl;
    try discriminate.
  - lia.
  - intros Hc. apply reaches_position in H1 as [? _]. apply reaches_position in H2 as [? _].
    apply orb_true_iff in Hc as [Hc | Hc]; [apply IH1 in Hc | apply IH2 in Hc]; lia.
  - intros Hc. apply andb_true_iff in Hc as [Hc _]. auto.
  - intros Hc. apply andb_true_iff in Hc as [_ Hc]. auto.
  - exact IH.
Qed.

Lemma reaches_chr_inv (p : N -> bool) (st st' : Re.mstate) :
  reaches (Re.Chr p) st st' ->
  exists c, p c = true /\ Re.m_rest st = c :: Re.m_rest st'
            /\ Re.m_pos st' = S (Re.m_pos st) /\ Re.m_caps st' = Re.m_caps st.
Proof. inversion 1; subst. simpl. eauto. Qed.

Lemma star_loop_complete (g : bool) (a : Re.re)
    (k : Re.mstate -> option Re.mstate) :
  consuming a = true ->
  (forall st st' k', reaches a st st' -> is_Some (k' st') -> is_Some (Re.rmatch a st k')) ->
  forall st st', reaches (Re.Star g a) st st' ->
  forall fuel, (length (Re.m_rest st) <= fuel)%nat -> is_Some (k st') ->
  is_Some (star_loop g (Re.rmatch a) k fuel st).
Proof.
  intros Hc IHa st st' H. remember (Re.Star g a) as r eqn:Er.
  induction H as [| | | | |g' a' st|g' a' st1 st2 st3 H1 _ H2 IH2| |]; try discriminate.
  - injection Er as -> ->. intros fuel _ Hk. destruct fuel as [|fuel]; [exact Hk|].
    rewrite star_loop_S. destruct g.
    + destruct (Re.rmatch a st _); [eauto | exact Hk].
    + destruct (k st); [eauto | by destruct Hk].
  - injection Er as -> ->. intros fuel Hfuel Hk.
    pose proof (reaches_consuming _ _ _ H1 Hc) as Hlt.
    pose proof (reaches_position _ _ _ H1) as [_ Hlen].
    destruct fuel as [|fuel]; [lia|]. rewrite star_loop_S.
    assert (is_Some (Re.rmatch a st1
                       (fun st' => if Nat.ltb (Re.m_pos st1) (Re.m_pos st')
                                   then star_loop g (Re.rmatch a) k fuel st' else None)))
      as Hbody.
    { apply (IHa st1 st2); [exact H1|].
      rewrite (proj2 (Nat.ltb_lt _ _) Hlt). apply IH2; [reflexivity | lia | exact Hk]. }
    destruct g.
    + destruct Hbody as [x ->]. eauto.
    + destruct (k st1); [eauto | exact Hbody].
Qed.

Lemma rmatch_complete (r : Re.re) :
  well_formed r = true ->
  forall st st' k, reaches r st st' -> is_Some (k st') -> is_Some (Re.rmatch r st k).
Proof.
  induction r as [|p|a IHa b IHb|a IHa b IHb|g a IHa|i a IHa|]; simpl; intros Hwf st st' k H Hk.
  - inversion H; subst. exact Hk.
  - apply reaches_chr_inv in H as (c & Hp & E & P & C).
    destruct st as [pos rest caps], st' as [pos' rest' caps']. simpl in *. subst.
    rewrite Hp. exact Hk.
  - apply andb_true_iff in Hwf as [Ha Hb]. inversion H; subst.
    eapply IHa; [exact Ha | eassumption|]. eapply IHb; eassumption.
  - apply andb_true_iff in Hwf as [Ha Hb].
    destruct (Re.rmatch a st k) as [x|] eqn:E; [eauto|].
    inversion H as [| | |? ? ? ? Hl|? ? ? ? Hr| | | |]; subst.
    + destruct (IHa Ha _ _ k Hl Hk) as [x Hx]. congruence.
    + eapply IHb; eassumption.
  - apply andb_true_iff in Hwf as [Hc Ha].
    change (is_Some (star_loop g (Re.rmatch a) k (length (Re.m_rest st)) st)).
    eapply star_loop_complete; eauto.
  - inversion H; subst. eapply IHa; [exact Hwf | eassumption|]. exact Hk.
  - inversion H as [| | | | | | | |? Hz]; subst. rewrite Hz. exact Hk.
Qed.

(** A match that starts somewhere in the subject makes the search succeed. *)
Lemma search_from_complete (r : Re.re) (s : str) :
  well_formed r = true ->
  forall pos i st',
    (i <= length s)%nat ->
    reaches (Re.Group 0 r) (Re.MState (pos + i) (drop i s) []) st' ->
    is_Some (Re.search_from r pos s).
Proof.
  intros Hwf. induction s as [|c s IH]; intros pos i st' Hi Hr; cbn [Re.search_from].
  - assert (i = 0%nat) as -> by (simpl in Hi; lia). rewrite Nat.add_0_r in Hr. simpl in Hr.
    destruct (rmatch_complete (Re.Group 0 r) Hwf _ _ Some Hr) as [x ->]; eauto.
  - destruct (Re.rmatch (Re.Group 0 r) (Re.MState pos (c :: s) []) Some) as [x|] eqn:E;
      [eauto|].
    destruct i as [|i].
    + rewrite Nat.add_0_r in Hr. simpl in Hr.
      destruct (rmatch_complete (Re.Group 0 r) Hwf _ _ Some Hr) as [x Hx]; eauto.
      congruence.
    + apply (IH (S pos) i st'); [simpl in Hi; lia|].
      replace (S pos + i)%nat with (pos + S i)%nat by lia. exact Hr.
Qed.

End MatcherComplete.

(** ** Reading a match *)

Section Inversion.

Lemma reaches_at_position (s : str) (r : Re.re) (st st' : Re.mstate) :
  reaches r st st' -> at_position s st -> at_position s st'.
Proof.
  unfold at_position. intros H Hrest.
  apply reaches_consumes in H as (c & n & E & P & _).
  rewrite P, <- drop_drop, <- Hrest, E. by rewrite drop_app_length.
Qed.

(** The text between two positions of the subject is what was consumed
    between them. *)
Lemma substr_consumed (s : str) (st : Re.mstate) (c t : str) :
  at_position s st -> Re.m_rest st = c ++ t ->
  Re.substr s (Re.m_pos st, (Re.m_pos st + length c)%nat) = c.
Proof.
  unfold at_position. intros Hrest E. unfold Re.substr. simpl.
  replace (Re.m_pos st + length c - Re.m_pos st)%nat with (length c) by lia.
  rewrite <- Hrest, E. apply take_app_length.
Qed.

Lemma at_position_start (s : str) (i : nat) (caps : list (nat * (nat * nat))) :
  at_position s (Re.MState i (drop i s) caps).
Proof. reflexivity. Qed.

Lemma reaches_seq_inv (a b : Re.re) (st st' : Re.mstate) :
  reaches (Re.Seq a b) st st' -> exists mid, reaches a st mid /\ reaches b mid st'.
Proof. inversion 1; subst. eauto. Qed.

Lemma reaches_group_inv (i : nat) (a : Re.re) (st st' : Re.mstate) :
  reaches (Re.Group i a) st st' ->
  exists st1, reaches a st st1
    /\ st' = Re.MState (Re.m_pos st1) (Re.m_rest st1)
               ((i, (Re.m_pos st, Re.m_pos st1)) :: Re.m_caps st1).
Proof. inversion 1; subst. eauto. Qed.

Lemma reaches_text_inv (s : str) (st st' : Re.mstate) :
  reaches (Re.text s) st st' ->
  Re.m_rest st = s ++ Re.m_rest st'
  /\ Re.m_pos st' = (Re.m_pos st + length s)%nat
  /\ Re.m_caps st' = Re.m_caps st.
Proof.
  revert st. induction s as [|c s IH]; intros st; simpl.
  - inversion 1; subst. rewrite Nat.add_0_r. auto.
  - intros H. apply reaches_seq_inv in H as (mid & Hc & Hs).
    apply reaches_chr_inv in Hc as (x & Hx & E & P & C).
    apply N.eqb_eq in Hx as <-. apply IH in Hs as (E' & P' & C').
    rewrite E, E', P', P, C', C. repeat split; auto; lia.
Qed.

Lemma reaches_star_chr_inv (g : bool) (p : N -> bool) (st st' : Re.mstate) :
  reaches (Re.Star g (Re.Chr p)) st st' ->
  exists w, Forall (fun c => p c = true) w
    /\ Re.m_rest st = w ++ Re.m_rest st'
    /\ Re.m_pos st' = (Re.m_pos st + length w)%nat
    /\ Re.m_caps st' = Re.m_caps st.
Proof.
  intros H. remember (Re.Star g (Re.Chr p)) as r eqn:Er.
  induction H as [| | | | |g' a' st|g' a' st1 st2 st3 H1 _ H2 IH2| |]; try discriminate.
  - exists []. rewrite Nat.add_0_r. auto.
  - injection Er as -> ->. destruct (IH2 eq_refl) as (w & F & E & P & C).
    apply reaches_chr_inv in H1 as (x & Hx & E1 & P1 & C1).
    exists (x :: w). rewrite E1, E, P, P1, C, C1. simpl. repeat split; auto; lia.
Qed.

Lemma reaches_text_intro (s t : str) (pos : nat) (caps : list (nat * (nat * nat))) :
  reaches (Re.text s) (Re.MState pos (s ++ t) caps)
    (Re.MState (pos + length s) t caps).
Proof.
  revert pos. induction s as [|c s IH]; intros pos; simpl.
  - rewrite Nat.add_0_r. constructor.
  - econstructor; [constructor; apply N.eqb_refl|].
    replace (pos + S (length s))%nat with (S pos + length s)%nat by lia. apply IH.
Qed.

Lemma reaches_star_chr_intro (g : bool) (p : N -> bool) (w t : str) (pos : nat)
    (caps : list (nat * (nat * nat))) :
  Forall (fun c => p c = true) w ->
  reaches (Re.Star g (Re.Chr p)) (Re.MState pos (w ++ t) caps)
    (Re.MState (pos + length w) t caps).
Proof.
  intros F. revert pos. induction F as [|c w Hc _ IH]; intros pos; simpl.
  - rewrite Nat.add_0_r. constructor.
  - econstructor; [by constructor|].
    replace (pos + S (length w))%nat with (S pos + length w)%nat by lia. apply IH.
Qed.

End Inversion.

(** ** The years of the cards *)

Section Years.
Context {R : Runtime}.

(** Patterns one after the other, then [r]. *)
Lemma reaches_prefixed (pres : list Re.re) (r : Re.re) (s : str) (st st' : Re.mstate) :
  Forall (fun a => groupless a = true) pres ->
  reaches (foldr Re.Seq r pres) st st' -> at_position s st ->
  exists mid, reaches r mid st' /\ at_position s mid /\ Re.m_caps mid = Re.m_caps st.
Proof.
  intros Hg. revert st. induction Hg as [|a pres Ha _ IH]; intros st; simpl.
  - eauto.
  - intros H Hpos. apply reaches_seq_inv in H as (st1 & H1 & H2).
    destruct (IH st1 H2 (reaches_at_position s _ _ _ H1 Hpos)) as (mid & Hr & Hp & Hc).
    exists mid. split; [exact Hr|]. split; [exact Hp|].
    rewrite Hc. by apply reaches_groupless in H1.
Qed.

(** A year is captured by [(\d{4})] after patterns without groups: the
    first group of a match is four decimal digits. *)
Lemma year_group_after (pres : list Re.re) (post : Re.re) (s : str) (m : Re.rmatch_obj) :
  Forall (fun a => groupless a = true) pres -> groupless post = true ->
  Re.search
    (foldr Re.Seq
       (Re.Seq (Re.Group 1 (Re.Seq Repair.digit
                              (Re.Seq Repair.digit (Re.Seq Repair.digit Repair.digit))))
               post)
       pres) s = Some m ->
  exists y, Re.group s m 1 = Some y /\ four_digits y.
Proof.
  intros Hpres Hpost H. apply search_from_sound in H as (i & st' & Hi & Hr & ->).
  pose proof (at_position_start s i []) as Hpos. simpl in Hr.
  apply reaches_group_inv in Hr as (st1 & Hr & ->).
  apply (reaches_prefixed pres _ s) in Hr as (mid & Hr & Hmid & Hcaps); [|exact Hpres|exact Hpos].
  apply reaches_seq_inv in Hr as (st2 & Hg & Hp).
  apply reaches_groupless in Hp; [|exact Hpost].
  apply reaches_group_inv in Hg as (st3 & Hd & ->).
  unfold Repair.digit in Hd.
  apply reaches_seq_inv in Hd as (d1 & H1 & Hd). apply reaches_chr_inv in H1 as (c1 & D1 & E1 & P1 & _).
  apply reaches_seq_inv in Hd as (d2 & H2 & Hd). apply reaches_chr_inv in H2 as (c2 & D2 & E2 & P2 & _).
  apply reaches_seq_inv in Hd as (d3 & H3 & H4). apply reaches_chr_inv in H3 as (c3 & D3 & E3 & P3 & _).
  apply reaches_chr_inv in H4 as (c4 & D4 & E4 & P4 & _).
  simpl in *. rewrite Hp. exists [c1; c2; c3; c4]. split; [|exists c1, c2, c3, c4; auto].
  unfold Re.group. simpl.
  replace (Re.m_pos st3) with (Re.m_pos mid + length [c1; c2; c3; c4])%nat by (simpl; lia).
  f_equal. apply (substr_consumed s mid _ (Re.m_rest st3) Hmid).
  rewrite E1, E2, E3, E4. reflexivity.
Qed.

Lemma year_re_group (block : str) (m : Re.rmatch_obj) :
  Re.search Repair.year_re block = Some m ->
  exists y, Re.group block m 1 = Some y /\ four_digits y.
Proof.
  apply (year_group_after [Re.text (lit "<span class=`badge`>")] (Re.text (u8 "</span>"))).
  - constructor; [apply groupless_text | constructor].
  - apply groupless_text.
Qed.

Lemma parse_block_year (block : str) :
  Repair.year (Repair.parse_block block) = []
  \/ four_digits (Repair.year (Repair.parse_block block)).
Proof.
  unfold Repair.parse_block. cbn [Repair.year].
  destruct (Re.search Repair.year_re block) as [m|] eqn:Hm; [|by left].
  apply year_re_group in Hm as (y & Hy & H4). right.
  unfold Repair.group_of. simpl. rewrite Hy. exact H4.
Qed.

Lemma sign_of_unsigned (c : N) (t : str) :
  c <> 45 -> c <> 43 ->
  match c :: t with
  | 45 :: b => (true, b)
  | 43 :: b => (false, b)
  | _ => (false, c :: t)
  end = (false, c :: t).
Proof.
  intros H45 H43. destruct c as [|p]; [reflexivity|].
  do 7 (try (destruct p as [p|p|]; try reflexivity)); congruence.
Qed.

Lemma py_int_four_digits (y : str) :
  int_reads_years -> four_digits y -> is_Some (py_int y).
Proof.
  intros [Hd Hmax] (c1 & c2 & c3 & c4 & -> & H1 & H2 & H3 & H4).
  destruct (Hd c1 H1) as (Hs1 & Hp1 & Hm1 & Hu1).
  destruct (Hd c2 H2) as (_ & _ & _ & Hu2).
  destruct (Hd c3 H3) as (_ & _ & _ & Hu3).
  destruct (Hd c4 H4) as (Hs4 & _ & _ & Hu4).
  unfold py_int.
  assert (strip [c1; c2; c3; c4] = [c1; c2; c3; c4]) as ->.
  { apply strip_by_id. intros c [[= <-] | [= <-]]; assumption. }
  rewrite (sign_of_unsigned c1 _ Hm1 Hp1).
  unfold is_decimal in H1, H2, H3, H4. cbn [digits_val].
  rewrite (proj2 (N.eqb_neq _ _) Hu1), (proj2 (N.eqb_neq _ _) Hu2),
    (proj2 (N.eqb_neq _ _) Hu3), (proj2 (N.eqb_neq _ _) Hu4).
  destruct (cp_decimal c1); [|discriminate]. destruct (cp_decimal c2); [|discriminate].
  destruct (cp_decimal c3); [|discriminate]. destruct (cp_decimal c4); [|discriminate].
  assert (negb (Nat.eqb int_max_str_digits 0) && Nat.ltb int_max_str_digits 4 = false)
    as ->; [|eauto].
  destruct Hmax as [-> | Hmax]; [reflexivity|].
  rewrite (proj2 (Nat.ltb_ge _ _) Hmax). apply andb_false_r.
Qed.

Lemma parse_cards_years (doc : str) :
  Forall (fun c => Repair.year c = [] \/ four_digits (Repair.year c))
         (Repair.parse_cards doc).
Proof.
  unfold Repair.parse_cards. apply Forall_forall. intros c Hc.
  apply list_elem_of_In, in_map_iff in Hc as (m & <- & _). apply parse_block_year.
Qed.

(** The list is rendered whenever the years that are looked at can be read
    as numbers. *)
Lemma render_list_returns (W : Repair.World) (cards : list Repair.Card)
    (rank_map : gmap str str) :
  (forall c, c ∈ cards -> Repair.numeric_year c = true ->
     is_Some (py_int (Repair.year c))) ->
  is_Some (Repair._render_list W cards rank_map).
Proof.
  intros Hcards.
  assert (Hshown : forall c, c ∈ shown_cards cards ->
                     c ∈ cards /\ Repair.numeric_year c = true).
  { intros c Hc. unfold shown_cards in Hc.
    apply list_elem_of_In, filter_In in Hc as [Hc Hn].
    apply filter_In in Hc as [Hc _]. split; [by apply list_elem_of_In | exact Hn]. }
  assert (is_Some (mapM (fun c => Repair.rebuild_card W c rank_map) (shown_cards cards)))
    as [items Hitems].
  { apply mapM_is_Some, Forall_forall. intros c Hc.
    destruct (Hshown c Hc) as [Hin Hn].
    apply rebuild_card_is_Some, numeric_rank_applies; auto. }
  assert (Hlen : length items = length (shown_cards cards)).
  { apply length_mapM in Hitems. lia. }
  set (pairs := zip (Repair.year <$> shown_cards cards) items).
  assert (Hfst : pairs.*1 = Repair.year <$> shown_cards cards)
    by (by apply fst_zip_fmap).
  assert (Hfill : Repair.fill_by_year W rank_map
                    (List.filter (fun c => negb (Repair._should_exclude c)) cards) []
                  = Some (PyDict.group_pairs [] pairs)).
  { rewrite fill_by_year_eq. fold (shown_cards cards). rewrite Hitems. reflexivity. }
  assert (is_Some (Repair.years_sorted (PyDict.keys (PyDict.group_pairs [] pairs))))
    as [ys Hys].
  { apply sorted_keys_total, Forall_forall. intros y Hy.
    apply (proj2 (keys_group_pairs pairs [] (NoDup_nil_2 : NoDup (PyDict.keys [])))) in Hy
      as [Hy|Hy]; [by apply elem_of_nil in Hy|].
    rewrite Hfst in Hy. apply list_elem_of_fmap in Hy as (c & -> & Hc).
    destruct (Hshown c Hc). auto. }
  unfold Repair._render_list, Repair.render_groups. rewrite Hfill. simpl.
  rewrite Hys. simpl. eauto.
Qed.

End Years.

Lemma ascii_int_reads_years : int_reads_years (R := AsciiRuntime.ascii_runtime).
Proof.
  split; [|right; simpl; lia].
  intros c Hc. unfold is_decimal in Hc. simpl in Hc. unfold AsciiRuntime.decimal_ascii in Hc.
  destruct (is_digit_09 c) eqn:Hd; [|discriminate].
  unfold is_digit_09 in Hd. apply andb_true_iff in Hd as [Hlo Hhi].
  apply N.leb_le in Hlo, Hhi.
  assert (c = 48 \/ c = 49 \/ c = 50 \/ c = 51 \/ c = 52 \/ c = 53 \/ c = 54
          \/ c = 55 \/ c = 56 \/ c = 57) as Hcases by lia.
  repeat destruct Hcases as [-> | Hcases]; try subst c; repeat split; done.
Qed.

(** ** The year groups of the two renderers, stated *)

Section RendererGroups.
Context {R : Runtime}.







End RendererGroups.


(** The profile-fetch script does not filter: a publication without a year
    is written under the heading [Unknown], after the numeric years. *)
Example unknown_year_group :
  let R := AsciiRuntime.ascii_runtime in
  let pubs := [Examples.enriched_no_year; Examples.enriched_2020] in
  Update.html_groups pubs
  = Some [(u8 "2020", [Examples.enriched_2020]);
          (u8 "Unknown", [Examples.enriched_no_year])]
  /\ (fun out => contains out (lit "<h3 class=`pub-year`>Unknown</h3>"))
       <$> Update.build_publications_html pubs = Some true.
Proof. vm_compute. repeat split. Qed.
(** ** Text files *)

Section TextFiles.
Context {R : Runtime}.











Lemma utf8_encodable_app (a b : str) :
  utf8_encodable (a ++ b) = utf8_encodable a && utf8_encodable b.
Proof. apply forallb_app. Qed.

End TextFiles.
(** ** The run of the repair script *)

Section AnchorKept.
Context {R : Runtime}.

Lemma list_section_re_well_formed : well_formed Repair.list_section_re = true.
Proof. vm_compute. reflexivity. Qed.

(** A document of this form has the List section. *)
Lemma list_section_found (pre w1 w2 body w3 post : str) :
  Forall (fun c => is_space c = true) w1 ->
  Forall (fun c => is_space c = true) w2 ->
  Forall (fun c => is_space c = true) w3 ->
  is_Some (Re.search Repair.list_section_re
             (pre ++ u8 "<section>" ++ w1 ++ u8 "<h2>List</h2>" ++ w2
              ++ body ++ w3 ++ u8 "</section>" ++ post)).
Proof.
  intros Fw1 Fw2 Fw3. unfold Re.search.
  eapply (search_from_complete _ _ list_section_re_well_formed 0 (length pre)).
  - rewrite length_app. lia.
  - rewrite drop_app_length. simpl.
    unfold Repair.list_section_re, Re.seqs, Re.star, Re.lazy_star, Re.ws, Re.any.
    eapply reaches_group. eapply reaches_seq.
    + eapply reaches_group. eapply reaches_seq; [apply reaches_text_intro|].
      eapply reaches_seq; [by apply reaches_star_chr_intro|].
      eapply reaches_seq; [apply reaches_text_intro|].
      by apply reaches_star_chr_intro.
    + simpl. eapply reaches_seq.
      * eapply reaches_group. apply reaches_star_chr_intro.
        apply Forall_forall. reflexivity.
      * simpl. eapply reaches_group.
        eapply reaches_seq; [by apply reaches_star_chr_intro|].
        apply reaches_text_intro.
Qed.




(** The ways the run of the repair script ends. *)
Lemma repair_main_cases (W : Repair.World) (file : str) :
  let doc := universal_newlines file in
  Repair.main W file = Repair.aborted file
  \/ exists rank_map new_list m,
       Repair.fetch_rank_map W = Some rank_map
       /\ Repair._render_list W (Repair.parse_cards doc) rank_map = Some new_list
       /\ Re.search Repair.list_section_re doc = Some m
       /\ Repair.opens_for_writing W = true
       /\ ((utf8_encodable (Repair.spliced doc m new_list) = false
            /\ Repair.main W file = Repair.failed_write)
           \/ (utf8_encodable (Repair.spliced doc m new_list) = true
               /\ Repair.exit_status (Repair.main W file) = 0%Z
               /\ Repair.file_after (Repair.main W file)
                  = text_written (Repair.spliced doc m new_list))).
Proof.
  intros doc. unfold Repair.main. fold doc.
  destruct (Repair.fetch_rank_map W) as [rank_map|]; [|by left].
  destruct (Repair._render_list W (Repair.parse_cards doc) rank_map) as [new_list|] eqn:Hl;
    [|by left].
  destruct (Re.search Repair.list_section_re doc) as [m|]; [|by left].
  destruct (Repair.opens_for_writing W); [|by left].
  right. exists rank_map, new_list, m.
  split; [reflexivity|]. split; [exact Hl|]. split; [reflexivity|]. split; [reflexivity|].
  destruct (utf8_encodable (Repair.spliced doc m new_list)); simpl.
  - right. repeat split; reflexivity.
  - left. split; reflexivity.
Qed.

(** X9. The repair run and the years: with an interpreter whose [int] reads
    four decimal digits, no card that [parse_cards] reads can make the
    rendering raise, whatever the file is.  So the run ends with status 0
    exactly when the rank page could be fetched, the text read from the file
    has the List section, the file can be opened for writing and the new
    document can be encoded.  In every other case the status is 1, and the
    file is as it was, unless the new document could not be encoded: the
    file was opened by then and is left empty. *)
Theorem repair_run_completes (Hint : int_reads_years) (W : Repair.World) (file : str) :
  let doc := universal_newlines file in
  let run := Repair.main W file in
  (forall rank_map,
     is_Some (Repair._render_list W (Repair.parse_cards doc) rank_map))
  /\ (Repair.exit_status run = 0%Z
      <-> exists rank_map new_list m,
            Repair.fetch_rank_map W = Some rank_map
            /\ Repair._render_list W (Repair.parse_cards doc) rank_map = Some new_list
            /\ Re.search Repair.list_section_re doc = Some m
            /\ Repair.opens_for_writing W = true
            /\ utf8_encodable (Repair.spliced doc m new_list) = true)
  /\ (Repair.exit_status run = 0%Z
      \/ run = Repair.aborted file
      \/ (run = Repair.failed_write
          /\ exists rank_map new_list m,
               Repair.fetch_rank_map W = Some rank_map
               /\ Repair._render_list W (Repair.parse_cards doc) rank_map = Some new_list
               /\ Re.search Repair.list_section_re doc = Some m
               /\ Repair.opens_for_writing W = true
               /\ utf8_encodable (Repair.spliced doc m new_list) = false))
  /\ (Repair.fetch_rank_map W = None \/ Re.search Repair.list_section_re doc = None
      \/ Repair.opens_for_writing W = false
      -> run = Repair.aborted file).
Proof.
  intros doc run.
  assert (Hrender : forall rank_map,
            is_Some (Repair._render_list W (Repair.parse_cards doc) rank_map)).
  { intros rank_map. apply render_list_returns. intros c Hc Hn.
    pose proof (parse_cards_years doc) as Hy. rewrite Forall_forall in Hy.
    destruct (Hy c Hc) as [Hnil | H4]; [|by apply py_int_four_digits].
    unfold Repair.numeric_year in Hn. rewrite Hnil in Hn. discriminate Hn. }
  split; [exact Hrender|].
  split; [|split].
  - split.
    + intros Hok.
      destruct (repair_main_cases W file)
        as [Ha | (rank_map & new_list & m & Hf & Hl & Hm & Ho & Hend)].
      * subst run. rewrite Ha in Hok. discriminate Hok.
      * exists rank_map, new_list, m. repeat (split; [assumption|]).
        destruct Hend as [[_ Hw] | [He _]]; [|exact He].
        subst run. rewrite Hw in Hok. discriminate Hok.
    + intros (rank_map & new_list & m & Hf & Hl & Hm & Ho & He).
      subst run. unfold Repair.main. fold doc. rewrite Hf, Hl, Hm, Ho, He. reflexivity.
  - destruct (repair_main_cases W file)
      as [Ha | (rank_map & new_list & m & Hf & Hl & Hm & Ho & Hend)]; [by right; left|].
    destruct Hend as [[He Hw] | [_ [Hok _]]]; [|by left].
    right. right. split; [exact Hw|]. exists rank_map, new_list, m. auto.
  - subst run. unfold Repair.main. fold doc. intros [Hf | [Hm | Ho]].
    + by rewrite Hf.
    + destruct (Repair.fetch_rank_map W); [|reflexivity].
      destruct (Repair._render_list _ _ _); [|reflexivity]. by rewrite Hm.
    + destruct (Repair.fetch_rank_map W); [|reflexivity].
      destruct (Repair._render_list _ _ _); [|reflexivity].
      destruct (Re.search _ _); [|reflexivity]. by rewrite Ho.
Qed.


Lemma page_form (head mid tail body pre s w1 h w2 w3 e rest : str) :
  head = pre ++ s ++ w1 ++ h ++ w2 -> mid = w3 ++ e ++ rest ->
  head ++ body ++ mid ++ tail
  = pre ++ s ++ w1 ++ h ++ w2 ++ body ++ w3 ++ e ++ rest ++ tail.
Proof. intros -> ->. by rewrite <- !app_assoc. Qed.

(** X11. The page the profile-fetch script writes is a page the repair
    script can work on: whatever the list of publications is, the document
    of [write_publications_page] has the List section, with the list as the
    text between the heading and the closing tag of the section (and the
    newline and the indentation around it). *)
Theorem written_page_has_the_list_section (tm_year : Z) (pubs_html : str) :
  (exists pre post,
      Update.write_publications_page tm_year pubs_html
      = pre ++ u8 "<section>" ++ [10; 32; 32; 32; 32] ++ u8 "<h2>List</h2>" ++ [10]
        ++ pubs_html ++ [32; 32] ++ u8 "</section>" ++ post)
  /\ is_Some (Re.search Repair.list_section_re
               (Update.write_publications_page tm_year pubs_html)).
Proof.
  assert (Hhead : Update.page_head
                  = take 2427 Update.page_head ++ u8 "<section>" ++ [10; 32; 32; 32; 32]
                    ++ u8 "<h2>List</h2>" ++ [10]) by (vm_compute; reflexivity).
  assert (Hmid : Update.page_mid
                 = [32; 32] ++ u8 "</section>" ++ drop 12 Update.page_mid)
    by (vm_compute; reflexivity).
  pose proof (page_form _ _ (str_of_Z tm_year ++ Update.page_tail) pubs_html
                _ _ _ _ _ _ _ _ Hhead Hmid) as Hpage.
  unfold Update.write_publications_page.
  split.
  - exists (take 2427 Update.page_head),
      (drop 12 Update.page_mid ++ str_of_Z tm_year ++ Update.page_tail).
    exact Hpage.
  - rewrite Hpage. apply list_section_found; repeat constructor.
Qed.

End AnchorKept.

(** The page with one card. *)
(** The page with one card, in the world that answers nothing. *)
Lemma repair_run_completes_witness :
  let R := AsciiRuntime.ascii_runtime in
  int_reads_years
  /\ Repair.exit_status (Repair.main Examples.silent_world Examples.one_card_page) = 0%Z
  /\ forall rank_map,
       is_Some (Repair._render_list Examples.silent_world
                  (Repair.parse_cards (universal_newlines Examples.one_card_page)) rank_map).
Proof.
  split; [exact ascii_int_reads_years|].
  split; [vm_compute; reflexivity|].
  exact (proj1 (repair_run_completes (R := AsciiRuntime.ascii_runtime)
                  ascii_int_reads_years Examples.silent_world Examples.one_card_page)).
Defined.

(** ** The run and the List section *)

(** C8, the code at the failing input: the page with one card, which has the
    List section, in a world where the rank page is fetched and the registry
    answers the title of the card with a record whose author has a lone
    surrogate in the family name.  The new list holds that name, so the new
    document cannot be encoded: the file is opened for writing, which
    empties it, and the write raises.  The run ends with status 1 and the
    whole document is lost.  A second input shows what passes through when
    the run succeeds: of a file whose lines end with a carriage return and a
    line feed, the carriage returns outside the List section are gone as
    well. *)
Theorem anchor_present_document_lost :
  let R := AsciiRuntime.ascii_runtime in
  let file := Examples.one_card_page in
  let run := Repair.main Examples.surrogate_author_world file in
  let run_crlf := Repair.main Examples.silent_world Examples.crlf_page in
  (fun m => Re.span m 2) <$> Re.search Repair.list_section_re (universal_newlines file)
  = Some (Some (32, 512)%nat)
  /\ Repair.exit_status run = 1%Z
  /\ Repair.file_after run = []
  /\ length file = 526%nat
  /\ (fun new_list => contains new_list [55296])
       <$> Repair._render_list Examples.surrogate_author_world
             (Repair.parse_cards (universal_newlines file)) ∅
     = Some true
  /\ Repair.exit_status run_crlf = 0%Z
  /\ startswith Examples.crlf_page (u8 "<section>" ++ [13; 10]) = true
  /\ startswith (Repair.file_after run_crlf) (u8 "<section>" ++ [10]) = true
  /\ contains (Repair.file_after run_crlf) [13] = false.
Proof. vm_compute. repeat split. Qed.

(** The other cases at work: a page without the section, and the page with
    it in a world that answers nothing. *)
Example list_section_anchor_absent :
  let R := AsciiRuntime.ascii_runtime in
  Re.search Repair.list_section_re (universal_newlines Examples.no_list_page) = None
  /\ Repair.main Examples.silent_world Examples.no_list_page
     = Repair.aborted Examples.no_list_page.
Proof. vm_compute. split; reflexivity. Qed.

Example list_section_anchor_present :
  let R := AsciiRuntime.ascii_runtime in
  (fun m => Re.span m 2) <$> Re.search Repair.list_section_re Examples.one_card_page
  = Some (Some (32, 512)%nat)
  /\ Repair.exit_status (Repair.main Examples.silent_world Examples.one_card_page) = 0%Z.
Proof. vm_compute. split; reflexivity. Qed.

(** ** The run of the profile-fetch script *)

Section ProfileRows.
Context {R : Runtime}.

Lemma row_year_group (row y : str) :
  Update._extract_first Update.row_year_re row = Some y -> four_digits y.
Proof.
  unfold Update._extract_first.
  destruct (Re.search Update.row_year_re row) as [m|] eqn:Hm; [|discriminate]. simpl.
  apply (year_group_after
           [Re.text (lit "class=`gsc_a_y`"); Re.star (Re.none_of (u8 ">")); Re.chr 62;
            Re.star Re.ws; Re.text (u8 "<span"); Re.star (Re.none_of (u8 ">")); Re.chr 62]
           (Re.text (u8 "</span>"))) in Hm as (y' & Hy & H4).
  - rewrite Hy. by intros [= <-].
  - repeat (constructor; [first [apply groupless_text | reflexivity]|]). constructor.
  - apply groupless_text.
Qed.

Lemma abs_scholar_url_http (href : str) :
  startswith (Update._abs_scholar_url href) (u8 "http") = true.
Proof.
  unfold Update._abs_scholar_url.
  set (h := replace (u8 "&amp;") (u8 "&") href).
  destruct (startswith h (u8 "http")) eqn:E; [exact E|].
  assert (u8 "https://scholar.google.com"
          = u8 "http" ++ drop 4 (u8 "https://scholar.google.com")) as Hlit
    by (vm_compute; reflexivity).
  apply startswith_spec. exists (drop 4 (u8 "https://scholar.google.com") ++ h).
  by rewrite app_assoc, <- Hlit.
Qed.

Lemma parse_row_shape (row : str) (p : Update.Pub) :
  Update.parse_row row = Some p ->
  (Update.year p = [] \/ four_digits (Update.year p))
  /\ startswith (Update.scholar_url p) (u8 "http") = true.
Proof.
  unfold Update.parse_row.
  destruct (Update._extract_first Update.a_tag_re row) as [[|c a]|]; try discriminate.
  destruct (Update._extract_first Update.href_re (c :: a)) as [[|h href]|]; try discriminate.
  destruct (Update._extract_first Update.a_text_re (c :: a)) as [title|]; [|discriminate].
  intros [= <-]. cbn [Update.year Update.scholar_url]. split; [|apply abs_scholar_url_http].
  destruct (Update._extract_first Update.row_year_re row) as [[|d y]|] eqn:Hy;
    [by left | right | by left].
  by apply row_year_group in Hy.
Qed.

Lemma parsed_rows_are_well_formed_aux (profile_html : str) :
  Forall (fun p => (Update.year p = [] \/ four_digits (Update.year p))
                   /\ startswith (Update.scholar_url p) (u8 "http") = true)
         (Update._parse_profile_rows profile_html).
Proof.
  apply Forall_forall. intros p Hp. unfold Update._parse_profile_rows in Hp.
  apply list_elem_of_omap in Hp as (row & _ & Hrow). by apply parse_row_shape in Hrow.
Qed.

(** X12. The rows read from a profile page: whatever the page is, every
    publication [_parse_profile_rows] gives has a year that is empty or four
    decimal digits, and a profile URL that starts with [http] (an absolute
    URL, relative ones being completed with the address of the profile
    service). *)
Theorem parsed_rows_are_well_formed (profile_html : str) :
  Forall (fun p => (Update.year p = [] \/ four_digits (Update.year p))
                   /\ startswith (Update.scholar_url p) (u8 "http") = true)
         (Update._parse_profile_rows profile_html).
Proof. apply parsed_rows_are_well_formed_aux. Qed.

Lemma fetch_pages_elem (W : Update.World) (n c : nat) (l : list Update.Pub) (p : Update.Pub) :
  Update.fetch_pages W n c = Some l -> p ∈ l ->
  exists cstart rows, Update.profile_rows W cstart = Some rows /\ p ∈ rows.
Proof.
  revert c l. induction n as [|n IH]; intros c l; simpl.
  - intros [= <-] Hp. by apply elem_of_nil in Hp.
  - destruct (Update.profile_rows W c) as [[|q rows]|] eqn:Hc; simpl; try discriminate.
    + intros [= <-] Hp. by apply elem_of_nil in Hp.
    + destruct (Update.fetch_pages W n (c + Update.PAGESIZE)) as [rest|] eqn:Hrest;
        simpl; [|discriminate].
      intros [= <-] Hp. change (p ∈ (q :: rows) ++ rest) in Hp.
      apply elem_of_app in Hp as [Hp | Hp]; eauto.
Qed.

Lemma year_key_read (y : str) :
  int_reads_years -> isdigit (u8 "Unknown") = false ->
  y = [] \/ four_digits y ->
  is_Some (Update.year_key (if nonempty y then y else u8 "Unknown")).
Proof.
  intros Hint Hunk [-> | H4]; unfold Update.year_key.
  - simpl. rewrite Hunk. eauto.
  - assert (nonempty y = true) as -> by (destruct H4 as (? & ? & ? & ? & -> & _); done).
    destruct (isdigit y); [by apply py_int_four_digits | eauto].
Qed.

(** The page is built whenever the years that are looked at can be read as
    numbers. *)
Lemma build_html_returns (pubs : list Update.EnrichedPub) :
  (forall ep, ep ∈ pubs -> is_Some (Update.year_key (Update.group_year ep))) ->
  is_Some (Update.build_publications_html pubs).
Proof.
  intros Hpubs.
  set (pairs := (fun ep => (Update.group_year ep, ep)) <$> pubs).
  assert (Hfst : pairs.*1 = Update.group_year <$> pubs).
  { unfold pairs. rewrite <- list_fmap_compose. reflexivity. }
  assert (is_Some (PyDict.sorted_keys Update.year_key
                     (PyDict.keys (PyDict.group_pairs [] pairs)))) as [ys Hys].
  { apply sorted_keys_total, Forall_forall. intros y Hy.
    apply (proj2 (keys_group_pairs pairs [] (NoDup_nil_2 : NoDup (PyDict.keys [])))) in Hy
      as [Hy|Hy]; [by apply elem_of_nil in Hy|].
    rewrite Hfst in Hy. apply list_elem_of_fmap in Hy as (ep & -> & Hep). auto. }
  unfold Update.build_publications_html, Update.html_groups, Update.pub_groups.
  fold pairs. cbv zeta. rewrite Hys. simpl. eauto.
Qed.

Lemma enrich_pub (W : Update.World) (p : Update.Pub) :
  Update.pub (Update.enrich W p).1 = p.
Proof.
  unfold Update.enrich.
  destruct (truthy _); reflexivity.
Qed.

Lemma turn_cases (W : Update.World) (p : Update.Pub) :
  (turn_completes W p = true
   /\ Update.turn W p = Update.Turned (Update.enrich W p).1 (bibtex_file_of W p))
  \/ (turn_completes W p = false /\ exists created, Update.turn W p = Update.TurnRaised created).
Proof.
  unfold turn_completes, bibtex_file_of, Update.turn.
  destruct (Update.enrich W p) as [ep [name content]]. cbn [fst snd].
  destruct (utf8_encodable (default [] (Update.doi ep))); simpl; [|right; eauto].
  destruct (Update.bibtex_opens W name); simpl; [|right; eauto].
  destruct (utf8_encodable content); simpl; [left; auto | right; eauto].
Qed.

(** The loop comes to its end exactly when every turn does; it has then
    enriched every publication and written every file, in order. *)
Lemma turns_completed (W : Update.World) (pubs : list Update.Pub) :
  (Update.turns W pubs).2 = forallb (turn_completes W) pubs
  /\ (forallb (turn_completes W) pubs = true ->
      Update.turns W pubs
      = ((Update.enrich W <$> pubs).*1, bibtex_file_of W <$> pubs, true)).
Proof.
  induction pubs as [|p pubs [IH1 IH2]]; [split; reflexivity|].
  cbn [Update.turns forallb].
  destruct (turn_cases W p) as [[Hc ->] | [Hc [created ->]]]; rewrite Hc; simpl.
  - destruct (Update.turns W pubs) as [[enriched files] completed] eqn:Ht.
    cbn [snd] in *. split; [exact IH1|]. intros Hall.
    specialize (IH2 Hall). injection IH2 as -> -> ->. reflexivity.
  - split; [reflexivity | discriminate].
Qed.

(** X13. The run of the profile-fetch script and the years: with an
    interpreter whose [int] reads four decimal digits, and profile pages read
    by [_parse_profile_rows], no row can make the rendering raise.  The run
    ends with status 0 exactly when the profile could be fetched, the turn
    of every publication came to its end (its DOI could be quoted, its
    bibliography file opened and encoded), and the page could be opened and
    encoded.  It has then made one write of a bibliography file for every
    publication that survived the deduplication, in their order, and written
    the page with their list.  When a turn does not come to its end, the
    status is 1 and no page is written. *)
Theorem update_run_completes (Hint : int_reads_years)
    (Hunknown : isdigit (u8 "Unknown") = false)
    (W : Update.World) (site : Update.Site)
    (Hrows : forall cstart rows, Update.profile_rows W cstart = Some rows ->
               exists profile_html, rows = Update._parse_profile_rows profile_html) :
  let run := Update.main W site in
  (Update.fetch_scholar_publications W = None ->
   Update.exit_status run = 1%Z /\ Update.bibtex_written run = []
   /\ Update.page_written run = None)
  /\ forall pubs, Update.fetch_scholar_publications W = Some pubs ->
       exists pubs_html,
         Update.build_publications_html (Update.enrich W <$> pubs).*1 = Some pubs_html
         /\ (Update.exit_status run = 0%Z
             <-> forallb (turn_completes W) pubs = true
                 /\ Update.page_opens W = true
                 /\ utf8_encodable
                      (Update.write_publications_page (Update.tm_year site) pubs_html)
                    = true)
         /\ (Update.exit_status run = 0%Z ->
             Update.bibtex_written run = bibtex_file_of W <$> pubs
             /\ Update.page_written run
                = Some (text_written
                          (Update.write_publications_page (Update.tm_year site) pubs_html)))
         /\ (forallb (turn_completes W) pubs = false ->
             Update.exit_status run = 1%Z /\ Update.page_written run = None).
Proof.
  intros run.
  assert (Hbuild : forall pubs, Update.fetch_scholar_publications W = Some pubs ->
            is_Some (Update.build_publications_html (Update.enrich W <$> pubs).*1)).
  { intros pubs Hf. apply build_html_returns. intros ep Hep.
    apply list_elem_of_fmap in Hep as (x & -> & Hep).
    apply list_elem_of_fmap in Hep as (p & -> & Hin).
    unfold Update.group_year. rewrite enrich_pub.
    apply year_key_read; [exact Hint | exact Hunknown|].
    unfold Update.fetch_scholar_publications in Hf.
    destruct (Update.fetch_pages W 50 0) as [all|] eqn:Hall; [|discriminate].
    injection Hf as <-.
    destruct (dedup_keeps_one_per_key all) as (Hsub & _ & _).
    apply (fun H => elem_of_sublist _ _ _ H Hsub) in Hin.
    destruct (fetch_pages_elem W _ _ _ _ Hall Hin) as (c & rows & Hc & Hprow).
    destruct (Hrows c rows Hc) as (html & ->).
    pose proof (parsed_rows_are_well_formed_aux html) as Hwf.
    rewrite Forall_forall in Hwf. by destruct (Hwf p Hprow). }
  subst run. unfold Update.main. split.
  { intros ->. auto. }
  intros pubs Hf. rewrite Hf.
  destruct (Hbuild pubs Hf) as [h Hh]. exists h. split; [exact Hh|].
  destruct (turns_completed W pubs) as [Hc Hall].
  destruct (forallb (turn_completes W) pubs) eqn:Hforall.
  - rewrite (Hall eq_refl). cbn [negb]. rewrite Hh.
    destruct (Update.page_opens W); cbn [negb];
      [|by (split; [split; [discriminate | intros (_ & ? & _); discriminate]
                   | split; [discriminate | discriminate]])].
    destruct (utf8_encodable (Update.write_publications_page (Update.tm_year site) h));
      cbn [negb Update.exit_status Update.bibtex_written Update.page_written].
    + split; [split; auto|]. split; [auto | discriminate].
    + split; [split; [discriminate | intros (_ & _ & ?); discriminate]|].
      split; discriminate.
  - destruct (Update.turns W pubs) as [[enriched files] completed].
    cbn [snd] in Hc. subst completed.
    cbn [negb Update.exit_status Update.bibtex_written Update.page_written].
    split; [split; [discriminate | intros (? & _); discriminate]|].
    split; [discriminate | auto].
Qed.

End ProfileRows.

Lemma ascii_unknown_is_no_digit :
  isdigit (R := AsciiRuntime.ascii_runtime) (u8 "Unknown") = false.
Proof. vm_compute. reflexivity. Qed.

Lemma parsed_profile_rows (cstart : nat) (rows : list Update.Pub) :
  Update.profile_rows Examples.parsed_profile cstart = Some rows ->
  exists profile_html,
    rows = Update._parse_profile_rows (R := AsciiRuntime.ascii_runtime) profile_html.
Proof.
  unfold Examples.parsed_profile. cbn [Update.profile_rows].
  destruct cstart; intros H; apply (inj Some) in H; subst rows;
    [by exists Examples.profile_page | by exists []].
Qed.

(** One page of the profile, read by [_parse_profile_rows]. *)
Lemma update_run_completes_witness :
  (int_reads_years (R := AsciiRuntime.ascii_runtime)
   /\ isdigit (R := AsciiRuntime.ascii_runtime) (u8 "Unknown") = false)
  /\ Update.exit_status
       (Update.main (R := AsciiRuntime.ascii_runtime) Examples.parsed_profile
          Examples.a_site) = 0%Z
  /\ Update.bibtex_written
       (Update.main (R := AsciiRuntime.ascii_runtime) Examples.parsed_profile
          Examples.a_site)
     = bibtex_file_of (R := AsciiRuntime.ascii_runtime) Examples.parsed_profile
         <$> Update._parse_profile_rows (R := AsciiRuntime.ascii_runtime)
               Examples.profile_page.
Proof.
  destruct (update_run_completes (R := AsciiRuntime.ascii_runtime) ascii_int_reads_years
              ascii_unknown_is_no_digit Examples.parsed_profile Examples.a_site
              parsed_profile_rows) as [_ Hrun].
  destruct (Hrun (Update._parse_profile_rows (R := AsciiRuntime.ascii_runtime)
                    Examples.profile_page))
    as (pubs_html & _ & _ & Hfiles & _); [vm_compute; reflexivity|].
  assert (Hok : Update.exit_status
                  (Update.main (R := AsciiRuntime.ascii_runtime) Examples.parsed_profile
                     Examples.a_site) = 0%Z) by (vm_compute; reflexivity).
  split; [split; [exact ascii_int_reads_years | exact ascii_unknown_is_no_digit]|].
  split; [exact Hok|]. exact (proj1 (Hfiles Hok)).
Defined.

(** ** The rank page *)

Section Finditer.

Lemma finditer_go_sound (r : Re.re) (s : str) (fuel pos : nat) (m : Re.rmatch_obj) :
  m ∈ Re.finditer_go fuel r pos (drop pos s) ->
  exists i st',
    reaches (Re.Group 0 r) (Re.MState i (drop i s) []) st' /\ m = Re.m_caps st'.
Proof.
  revert pos. induction fuel as [|fuel IH]; intros pos; simpl.
  - intros H. by apply elem_of_nil in H.
  - destruct (Re.search_from r pos (drop pos s)) as [m0|] eqn:Hs;
      [|intros H; by apply elem_of_nil in H].
    intros H. apply elem_of_cons in H as [-> | H].
    + apply search_from_sound in Hs as (i & st' & _ & Hr & ->).
      rewrite drop_drop in Hr. eauto.
    + rewrite drop_drop in H.
      replace (pos + (Nat.max (Re.m_end m0 0) (S pos) - pos))%nat
        with (Nat.max (Re.m_end m0 0) (S pos)) in H by lia.
      by apply IH in H.
Qed.

(** Every match [re.finditer] gives is a match of the pattern somewhere in
    the subject. *)
Lemma finditer_sound (r : Re.re) (s : str) (m : Re.rmatch_obj) :
  m ∈ Re.finditer r s ->
  exists i st',
    reaches (Re.Group 0 r) (Re.MState i (drop i s) []) st' /\ m = Re.m_caps st'.
Proof. unfold Re.finditer. apply (finditer_go_sound r s _ 0). Qed.

End Finditer.

Section RankPage.
Context {R : Runtime}.

Lemma reaches_alt_inv (a b : Re.re) (st st' : Re.mstate) :
  reaches (Re.Alt a b) st st' -> reaches a st st' \/ reaches b st st'.
Proof. inversion 1; subst; auto. Qed.

Lemma reaches_plus_chr_inv (p : N -> bool) (st st' : Re.mstate) :
  reaches (Re.plus (Re.Chr p)) st st' ->
  exists w, w <> [] /\ Forall (fun c => p c = true) w
    /\ Re.m_rest st = w ++ Re.m_rest st'
    /\ Re.m_pos st' = (Re.m_pos st + length w)%nat
    /\ Re.m_caps st' = Re.m_caps st.
Proof.
  unfold Re.plus. intros H. apply reaches_seq_inv in H as (mid & H1 & H2).
  apply reaches_chr_inv in H1 as (c & Hc & E1 & P1 & C1).
  apply reaches_star_chr_inv in H2 as (w & F & E & P & C).
  exists (c :: w). rewrite E1, E, P, P1, C, C1. simpl. repeat split; auto; lia.
Qed.

(** What a match of the label pattern consumes. *)
Lemma label_re_text (st st' : Re.mstate) :
  reaches Repair.label_re st st' ->
  exists g, label_text g
    /\ Re.m_rest st = g ++ Re.m_rest st'
    /\ Re.m_pos st' = (Re.m_pos st + length g)%nat
    /\ Re.m_caps st' = Re.m_caps st.
Proof.
  unfold Repair.label_re, Re.seqs, Re.ws, Re.one_of. intros H.
  apply reaches_alt_inv in H as [H | H]; [|apply reaches_alt_inv in H as [H | H]].
  - apply reaches_seq_inv in H as (s1 & HJ & H). apply reaches_text_inv in HJ as (EJ & PJ & CJ).
    apply reaches_seq_inv in H as (s2 & Hw & H).
    apply reaches_plus_chr_inv in Hw as (w & Hne & Fw & Ew & Pw & Cw).
    apply reaches_seq_inv in H as (s3 & HQ & Hd).
    apply reaches_chr_inv in HQ as (q & Hq & EQ & PQ & CQ). apply N.eqb_eq in Hq as <-.
    apply reaches_chr_inv in Hd as (d & Hd & Ed & Pd & Cd).
    exists (u8 "Journal" ++ w ++ [81; d]). split.
    + left. exists w, d. repeat split; auto.
      by apply mem_elem_of.
    + rewrite EJ, Ew, EQ, Ed, Pd, PQ, Pw, PJ, Cd, CQ, Cw, CJ, !length_app, <- !app_assoc.
      simpl. repeat split; auto; lia.
  - apply reaches_text_inv in H as (EJ & PJ & CJ).
    exists (u8 "Journal"). split; [right; by left | auto].
  - apply reaches_seq_inv in H as (s1 & HC & H). apply reaches_text_inv in HC as (EC & PC & CC).
    apply reaches_seq_inv in H as (s2 & Hw & Hd).
    apply reaches_plus_chr_inv in Hw as (w & Hne & Fw & Ew & Pw & Cw).
    apply reaches_chr_inv in Hd as (d & Hd & Ed & Pd & Cd).
    exists (u8 "Class" ++ w ++ [d]). split.
    + right; right. exists w, d. repeat split; auto.
      by apply mem_elem_of.
    + rewrite EC, Ew, Ed, Pd, Pw, PC, Cd, Cw, CC, !length_app, <- !app_assoc.
      simpl. repeat split; auto; lia.
Qed.

Lemma strip_between (c d : N) (mid : str) :
  is_space c = false -> is_space d = false -> strip (c :: mid ++ [d]) = c :: mid ++ [d].
Proof.
  intros Hc Hd. apply strip_by_id. intros x [[= <-] | Hx]; [exact Hc|].
  change (c :: mid ++ [d]) with ((c :: mid) ++ [d]) in Hx. rewrite last_snoc in Hx.
  by injection Hx as <-.
Qed.

Lemma startswith_app_same (p s q : str) : startswith (p ++ s) (p ++ q) = startswith s q.
Proof. induction p as [|c p IH]; simpl; [reflexivity|]. by rewrite N.eqb_refl. Qed.

Lemma digit_not_space (d : N) (ds : str) :
  d ∈ ds -> Forall (fun c => is_space c = false) ds -> is_space d = false.
Proof. intros Hd F. rewrite Forall_forall in F. auto. Qed.

(** The badge of a label of the page. *)
Lemma badge_of_label_text (g : str) :
  label_text g ->
  Repair.badge_of_label (strip g) = Repair.UNKNOWN_BADGE
  \/ rank_value (Repair.badge_of_label (strip g)).
Proof.
  assert (HJ : u8 "Journal" = [74; 111; 117; 114; 110; 97; 108]) by (vm_compute; reflexivity).
  assert (HJQ : u8 "Journal Q" = [74; 111; 117; 114; 110; 97; 108] ++ [32; 81])
    by (vm_compute; reflexivity).
  assert (HC : u8 "Class" = [67; 108; 97; 115; 115]) by (vm_compute; reflexivity).
  intros [(w & d & -> & Hne & Fw & Hd) | [-> | (w & d & -> & Hne & Fw & Hd)]].
  - assert (Hsd : is_space d = false).
    { apply (digit_not_space d (u8 "1234") Hd). vm_compute. repeat constructor. }
    assert (Hstrip : strip (u8 "Journal" ++ w ++ [81; d]) = u8 "Journal" ++ w ++ [81; d]).
    { rewrite HJ. change [81; d] with ([81] ++ [d]). rewrite (app_assoc w).
      apply (strip_between 74 d ([111; 117; 114; 110; 97; 108] ++ w ++ [81])); done. }
    rewrite Hstrip. unfold Repair.badge_of_label.
    rewrite HJ, HJQ, startswith_app_same.
    destruct w as [|x w]; [done|]. apply Forall_cons in Fw as [Hx Fw].
    destruct (N.eqb_spec 32 x) as [<- | Hx32].
    + destruct w as [|y w].
      * right. left.
        apply list_elem_of_In in Hd. vm_compute in Hd.
        destruct Hd as [<- | [<- | [<- | [<- | []]]]]; vm_compute;
          [ | apply list_elem_of_further | do 2 apply list_elem_of_further
            | do 3 apply list_elem_of_further ]; apply list_elem_of_here.
      * left. apply Forall_cons in Fw as [Hy _].
        assert ((81 =? y) = false) as Hq by (apply N.eqb_neq; intros <-; discriminate Hy).
        cbn [app startswith]. rewrite Hq, N.eqb_refl. reflexivity.
    + left. cbn [app startswith]. rewrite (proj2 (N.eqb_neq _ _) Hx32). reflexivity.
  - left. vm_compute. reflexivity.
  - assert (Hsd : is_space d = false).
    { apply (digit_not_space d (u8 "123") Hd). vm_compute. repeat constructor. }
    assert (Hstrip : strip (u8 "Class" ++ w ++ [d]) = u8 "Class" ++ w ++ [d]).
    { rewrite HC. apply (strip_between 67 d ([108; 97; 115; 115] ++ w)); done. }
    rewrite Hstrip. right. unfold Repair.badge_of_label.
    assert (startswith (u8 "Class" ++ w ++ [d]) (u8 "Journal Q") = false) as ->.
    { rewrite HC, HJQ. reflexivity. }
    assert (startswith (u8 "Class" ++ w ++ [d]) (u8 "Class") = true) as ->.
    { apply startswith_spec. eauto. }
    right. exists w, d. auto.
Qed.

(** The first group of a match of the entry pattern is a label. *)
Lemma entry_re_label (t : str) (m : Re.rmatch_obj) :
  m ∈ Re.finditer Repair.entry_re t ->
  exists g, Re.group t m 1 = Some g /\ label_text g.
Proof.
  intros H. apply finditer_sound in H as (i & st' & Hr & ->).
  pose proof (at_position_start t i []) as Hpos.
  unfold Repair.entry_re, Re.seqs in Hr.
  apply reaches_group_inv in Hr as (st1 & Hr & ->).
  apply reaches_seq_inv in Hr as (sa & Ha & Hr).
  pose proof (reaches_at_position t _ _ _ Ha Hpos) as Hsa.
  apply reaches_chr_inv in Ha as (_ & _ & _ & _ & Ca).
  apply reaches_seq_inv in Hr as (sb & Hg1 & Hr).
  pose proof (reaches_at_position t _ _ _ Hg1 Hsa) as Hsb.
  apply reaches_group_inv in Hg1 as (sl & Hl & ->).
  apply label_re_text in Hl as (g & Hg & El & Pl & Cl).
  change (reaches
            (foldr Re.Seq
               (Re.Seq (Re.Group 2 (Re.lazy_star Re.any))
                  (Re.Seq (Re.star Re.ws)
                     (Re.Seq Repair.quote_re
                        (Re.Seq (Re.star Re.ws) (Re.text (u8 "</b>"))))))
               [Re.chr 93; Re.lazy_star Re.any; Re.text (u8 "<b>"); Re.star Re.ws;
                Repair.quote_re; Re.star Re.ws])
            (Re.MState (Re.m_pos sl) (Re.m_rest sl)
               ((1%nat, (Re.m_pos sa, Re.m_pos sl)) :: Re.m_caps sl)) st1) in Hr.
  apply (reaches_prefixed _ _ t) in Hr as (mid & Hr & _ & Cmid); [| |exact Hsb].
  2:{ repeat (constructor; [first [apply groupless_text | reflexivity]|]). constructor. }
  apply reaches_seq_inv in Hr as (sc & Hg2 & Hpost).
  apply reaches_groupless in Hpost;
    [|cbn [groupless Re.star Re.ws Repair.quote_re Re.chr andb]; by rewrite !groupless_text].
  apply reaches_group_inv in Hg2 as (sd & Hd & ->).
  apply reaches_star_chr_inv in Hd as (_ & _ & _ & _ & Cd).
  simpl in *. exists g. split; [|exact Hg].
  rewrite Hpost, Cd, Cmid. unfold Re.group. simpl. rewrite Pl. f_equal.
  by apply (substr_consumed t sa g (Re.m_rest sl)).
Qed.

Lemma rank_entry_values (t : str) (m : Re.rmatch_obj) (key badge : str) :
  m ∈ Re.finditer Repair.entry_re t ->
  Repair.rank_entry t m = Some (key, badge) ->
  key <> [] /\ canonical_key key /\ rank_value badge /\ badge <> Repair.UNKNOWN_BADGE.
Proof.
  intros Hm. apply entry_re_label in Hm as (g & Hg & Hlabel).
  unfold Repair.rank_entry. cbv zeta. rewrite Hg.
  change (default [] (Some g)) with g.
  pose proof (badge_of_label_text g Hlabel) as Hbadge.
  set (b := Repair.badge_of_label (strip g)) in *.
  match goal with |- context [Repair._norm ?x] => set (title := x) end.
  destruct (nonempty (Repair._norm title)) eqn:Hk; [|discriminate].
  destruct (nonempty b) eqn:Hb; [|discriminate].
  unfold str_eqb. case_bool_decide as Hu; [discriminate|].
  intros [= <- <-]. split; [by apply nonempty_true|].
  split; [apply normalized_canonical|]. split; [|exact Hu].
  by destruct Hbadge.
Qed.

(** X14. What the rank page can give.  Whatever the text of the page is,
    every key of the mapping built from it is a non-empty comparison key in
    normal form, and every value is a rank: [Q1] to [Q4] (from a label
    [Journal Qn] with one space), or a label [Class n] as it stands; never
    the sentinel [Q?] and never empty.  So a card whose title the mapping
    holds, when the rank map applies to its year, is rendered with a badge,
    the one of the mapping. *)
Theorem rank_page_gives_ranks (page : str) (card : Repair.Card) :
  map_Forall (fun key badge =>
                key <> [] /\ canonical_key key /\ rank_value badge
                /\ badge <> Repair.UNKNOWN_BADGE /\ badge <> [])
             (Repair.rank_map_of_page page)
  /\ match Repair.rank_map_of_page page
             !! Repair._norm (Repair.extract_title_from_cite (Repair.cite card)) with
     | Some badge =>
         Repair.badge_value card (Repair.rank_map_of_page page) true = badge
         /\ badge <> []
     | None => True
     end.
Proof.
  assert (Hall : map_Forall (fun key badge =>
                   key <> [] /\ canonical_key key /\ rank_value badge
                   /\ badge <> Repair.UNKNOWN_BADGE /\ badge <> [])
                 (Repair.rank_map_of_page page)).
  { unfold Repair.rank_map_of_page.
    assert (Hin : forall m, m ∈ Re.finditer Repair.entry_re page ->
                    m ∈ Re.finditer Repair.entry_re page) by auto.
    revert Hin. generalize (Re.finditer Repair.entry_re page) at 1 3. intros ms.
    assert (Hinit : map_Forall (fun key badge =>
                      key <> [] /\ canonical_key key /\ rank_value badge
                      /\ badge <> Repair.UNKNOWN_BADGE /\ badge <> [])
                    (∅ : gmap str str)) by apply map_Forall_empty.
    revert Hinit. generalize (∅ : gmap str str).
    induction ms as [|m ms IH]; intros mapping Hinit Hin; simpl; [exact Hinit|].
    apply IH; [|intros m' Hm'; apply Hin; by right].
    destruct (Repair.rank_entry page m) as [[key badge]|] eqn:He; [|exact Hinit].
    apply map_Forall_insert_2; [|exact Hinit].
    destruct (rank_entry_values page m key badge (Hin m ltac:(left)) He)
      as (Hk & Hc & Hv & Hu).
    split; [exact Hk|]. split; [exact Hc|]. split; [exact Hv|]. split; [exact Hu|].
    destruct Hv as [Hv | (w & d & -> & _)].
    - intros ->. apply list_elem_of_In in Hv. vm_compute in Hv.
      destruct Hv as [Hv | [Hv | [Hv | [Hv | []]]]]; discriminate Hv.
    - intros Hnil. apply app_eq_nil in Hnil as [Hnil _].
      vm_compute in Hnil. discriminate Hnil. }
  split; [exact Hall|].
  destruct (Repair.rank_map_of_page page !! _) as [badge|] eqn:Hhit; [|exact I].
  destruct (Hall _ _ Hhit) as (_ & _ & _ & Hu & Hne).
  split; [|exact Hne].
  unfold Repair.badge_value. rewrite (rank_map_hit_is_final _ _ _ Hhit).
  unfold str_eqb. by rewrite bool_decide_eq_false_2.
Qed.

End RankPage.

(** ** The landing page of a DOI *)

Section Landing.
Context {R : Runtime}.

(** X15. A DOI with a landing page: when a card has a DOI, a DOI URL and a
    generic link that does not point at the DOI resolver, the rebuilt card
    makes the DOI line point at that link, whatever the DOI URL was, and has
    no Link entry. *)
Theorem landing_page_replaces_doi_target (W : Repair.World) (card : Repair.Card)
    (rank_map : gmap str str) (applies : bool)
    (Hdoi : truthy (Repair.doi card) = true)
    (Hurl : truthy (Repair.doi_url card) = true)
    (Hlink : truthy (Repair.link_url card) = true)
    (Hland : Repair.opt_startswith (Repair.link_url card) Repair.DOI_RESOLVER = false) :
  let c := Repair.fix_card card in
  let lines := Repair.card_lines W c rank_map applies in
  Repair.resolve_links c = (Repair.link_url card, None)
  /\ Repair.doi_line (default [] (Repair.link_url card)) (default [] (Repair.doi c)) ∈ lines
  /\ forall u, Repair.link_line u ∉ lines.
Proof.
  intros c lines.
  pose proof (fix_card_doi_truthy card Hdoi) as Hdoi'. fold c in Hdoi'.
  assert (Hres : Repair.resolve_links c = (Repair.link_url card, None)).
  { unfold Repair.resolve_links.
    change (Repair.link_url c) with (Repair.link_url card).
    change (Repair.doi_url c) with (Repair.doi_url card).
    rewrite Hdoi', Hurl, Hlink, Hland. simpl. by rewrite Hlink. }
  split; [exact Hres|].
  subst lines. unfold Repair.card_lines. rewrite Hres.
  rewrite Hdoi', Hlink. cbn [andb Repair.when_truthy]. split.
  - line_in_segment 4.
  - intros u Hin. line_cases Hin; lines_differ Hin.
Qed.

End Landing.

(** A card with a DOI whose generic link is the page of the publisher. *)
Lemma landing_page_replaces_doi_target_witness :
  let R := AsciiRuntime.ascii_runtime in
  let card := Examples.landing_card in
  let c := Repair.fix_card card in
  (truthy (Repair.doi card) = true /\ truthy (Repair.doi_url card) = true
   /\ truthy (Repair.link_url card) = true
   /\ Repair.opt_startswith (Repair.link_url card) Repair.DOI_RESOLVER = false)
  /\ Repair.resolve_links c = (Repair.link_url card, None)
  /\ Repair.doi_line (u8 "https://publisher.example/article/42") (u8 "10.1000/xyz")
       ∈ Repair.card_lines Examples.silent_world c ∅ true.
Proof.
  intros R card c.
  split; [repeat split; vm_compute; reflexivity|].
  destruct (landing_page_replaces_doi_target (R := AsciiRuntime.ascii_runtime)
              Examples.silent_world Examples.landing_card ∅ true
              eq_refl eq_refl eq_refl ltac:(vm_compute; reflexivity))
    as (Hres & Hline & _).
  split; [exact Hres|]. exact Hline.
Defined.

(** ** Enrichment *)

Section Enrichment.
Context {R : Runtime}.

(** The fields of an enriched publication.  The DOI and the DOI URL
    are there together or not at all; a DOI that is there is not empty, is
    the one of the record the matcher chose, and its URL is the DOI behind
    the address of the resolver.  The publication itself is kept as it was
    read, and the generic link is what the detail page gave. *)
Lemma enriched_doi_fields (W : Update.World) (p : Update.Pub) :
  Update.pub (Update.enrich W p).1 = p
  /\ Update.link_url (Update.enrich W p).1
     = Update.fetch_scholar_external_link W (Update.scholar_url p)
  /\ match Update.doi (Update.enrich W p).1 with
     | Some d =>
         d <> []
         /\ Update.doi_url (Update.enrich W p).1 = Some (u8 "https://doi.org/" ++ d)
         /\ exists it,
              Update.crossref_best_match W (Update.title p) (Update.year p) = Some it
              /\ it_DOI it = Some d
     | None => Update.doi_url (Update.enrich W p).1 = None
     end.
Proof.
  unfold Update.enrich.
  destruct (Update.crossref_best_match W (Update.title p) (Update.year p)) as [it|].
  - destruct (it_DOI it) as [[|c d]|] eqn:Hd; cbn [truthy].
    + destruct (truthy _); simpl; auto.
    + destruct (truthy _); simpl; (split; [reflexivity|]); (split; [reflexivity|]);
        (split; [discriminate|]); (split; [reflexivity|]); eauto.
    + destruct (truthy _); simpl; auto.
  - destruct (truthy _); simpl; auto.
Qed.

(** X16. The matchers of the two scripts choose among the candidates: a
    record that is returned is one of the records of the answer, and its
    score is not below the threshold 0.35. *)
Theorem best_match_is_a_candidate (title : str) (year_r : option str) (year_u : str)
    (items : list Item) :
  match Repair.best_match title year_r items with
  | Some it =>
      it ∈ items
      /\ PyFloat.ltb (Repair.score (Repair._norm title) year_r it) PyFloat.f_0_35 = false
  | None => True
  end
  /\ match Update.best_match title year_u items with
     | Some it =>
         it ∈ items
         /\ PyFloat.ltb (Update.score (Update._norm_title title) year_u it)
              PyFloat.f_0_35 = false
     | None => True
     end.
Proof.
  split.
  - unfold Repair.best_match. destruct items as [|it rest]; [exact I|].
    destruct (PyFloat.ltb _ PyFloat.f_0_35) eqn:E; [exact I|].
    split; [apply max_by_elem | exact E].
  - unfold Update.best_match. destruct items as [|it rest]; [exact I|].
    destruct (PyFloat.ltb _ PyFloat.f_0_35) eqn:E; [exact I|].
    split; [apply max_by_elem | exact E].
Qed.

End Enrichment.

(** ** The DOI of a card that is read *)

Section ParsedDoi.
Context {R : Runtime}.

(** The two groups of a match of the DOI pattern: the target, which is not
    empty, and the text of the link. *)
Lemma doi_re_groups (block : str) (m : Re.rmatch_obj) :
  Re.search Repair.doi_re block = Some m ->
  exists u t, Re.group block m 1 = Some u /\ u <> [] /\ Re.group block m 2 = Some t.
Proof.
  intros H. apply search_from_sound in H as (i & st' & _ & Hr & ->).
  pose proof (at_position_start block i []) as Hpos. simpl in Hr.
  apply reaches_group_inv in Hr as (st1 & Hr & ->).
  change (reaches
            (foldr Re.Seq
               (Re.Seq (Re.Group 1 (Re.plus (Re.none_of [DQ])))
                  (foldr Re.Seq
                     (Re.Seq (Re.Group 2 (Re.lazy_star Re.any)) (Re.text (u8 "</a>")))
                     [Re.chr DQ; Re.star (Re.none_of (u8 ">")); Re.chr 62]))
               [Re.text (lit "<p class=`pub-doi`>"); Re.star Re.ws; Re.text (u8 "DOI:");
                Re.star Re.ws; Re.text (u8 "<a"); Re.star (Re.none_of (u8 ">"));
                Re.text (lit "href=`")])
            (Re.MState i (drop i block) []) st1) in Hr.
  apply (reaches_prefixed _ _ block) in Hr as (s1 & Hr & Hs1 & C1); [| |exact Hpos].
  2:{ repeat (constructor; [first [apply groupless_text | reflexivity]|]). constructor. }
  apply reaches_seq_inv in Hr as (s2 & Hg1 & Hr).
  pose proof (reaches_at_position block _ _ _ Hg1 Hs1) as Hs2.
  apply reaches_group_inv in Hg1 as (s1' & Hu & ->).
  apply reaches_plus_chr_inv in Hu as (u & Hune & _ & Eu & Pu & Cu).
  apply (reaches_prefixed _ _ block) in Hr as (s3 & Hr & Hs3 & C3); [| |exact Hs2].
  2:{ repeat (constructor; [reflexivity|]). constructor. }
  apply reaches_seq_inv in Hr as (s4 & Hg2 & Hpost).
  apply reaches_groupless in Hpost; [|apply groupless_text].
  apply reaches_group_inv in Hg2 as (s3' & Ht & ->).
  apply reaches_star_chr_inv in Ht as (t & _ & Et & Pt & Ct).
  simpl in *. exists u, t.
  rewrite Hpost, Ct, C3, Cu, C1. unfold Re.group. simpl.
  split; [|split; [exact Hune|]].
  - rewrite Pu. f_equal. by apply (substr_consumed block s1 u (Re.m_rest s1')).
  - rewrite Pt. f_equal. by apply (substr_consumed block s3 t (Re.m_rest s3')).
Qed.

(** X18. The DOI of a card read from a document: the DOI text and the DOI
    URL are read by one pattern, whose target is never empty, so a card
    read from a block has each of them exactly when the pattern of the DOI
    line matches in the block, and every card that [parse_cards] gives has
    both or none. *)
Theorem parsed_doi_fields (doc block : str) :
  (is_Some (Repair.doi (Repair.parse_block block))
   <-> is_Some (Re.search Repair.doi_re block))
  /\ (is_Some (Repair.doi_url (Repair.parse_block block))
      <-> is_Some (Re.search Repair.doi_re block))
  /\ Forall (fun c => is_Some (Repair.doi c) <-> is_Some (Repair.doi_url c))
            (Repair.parse_cards doc).
Proof.
  assert (forall b,
            (is_Some (Repair.doi (Repair.parse_block b))
             <-> is_Some (Re.search Repair.doi_re b))
            /\ (is_Some (Repair.doi_url (Repair.parse_block b))
                <-> is_Some (Re.search Repair.doi_re b))) as Hb.
  { intros b. unfold Repair.parse_block. cbn [Repair.doi Repair.doi_url].
    destruct (Re.search Repair.doi_re b) as [m|] eqn:Hm.
    - apply doi_re_groups in Hm as (u & t & Hu & Hne & Ht).
      unfold Repair.group_of. simpl. rewrite Hu, Ht. simpl.
      destruct u as [|c u]; [done|]. simpl. split; split; eauto.
    - simpl. split; split; intros [? ?]; discriminate. }
  split; [apply Hb|]. split; [apply Hb|].
  unfold Repair.parse_cards. apply Forall_forall. intros c Hc.
  apply list_elem_of_fmap in Hc as (m & -> & _).
  destruct (Hb (default [] (Re.group doc m 0))) as [H1 H2].
  rewrite H1, H2. reflexivity.
Qed.

End ParsedDoi.
